(** * A shallow embedding of the [disk] package of juster/c64

    The package lays a Commodore 1541 (D64) floppy image out in one flat
    byte buffer and overlays typed views on it by pointer casts.  The
    embedding keeps that shape: the image is a list of bytes, a pointer is
    a byte offset into it, and a struct field is read or written at
    [pointer + field offset].

    - a [uint8] is a [Z] in [0, 256); wrap-around is written out with [u8];
    - a Go [string] is a [string] (one [ascii] per byte), a [[]byte] is a
      [list Z];
    - a Go function that can return an error, panic, or loop for ever
      returns an [outcome]. *)

From Stdlib Require Import ZArith Lia Ascii.
From stdpp Require Import base numbers list option strings sorting gmap.

Local Open Scope Z_scope.

(** ** Outcomes of a call *)

(** The error values of the package ([errors.New] values are compared by
    identity in Go, so each one is a constructor). *)
Inductive error : Type :=
| BadTS              (* "invalid track/sector" *)
| OutOfRange         (* "out of BAM range" *)
| BAMConflict        (* "already taken or freed" *)
| DiskFull           (* "disk full" (package disk) *)
| ErrCountZero       (* "available count already 0" *)
| ErrNameOverflow    (* "name overflow" *)
| ErrInvalidDiskId   (* "invalid disk id" *)
| ErrNoRoomInDir     (* "no room left in directory track" *)
| ErrTruncOverflow   (* "overflow" returned by RawBlock.Truncate *)
| ErrCreateDiskFull. (* "disk full" (cmd/d64/create.go) *)

(** What a [panic] carries, including the run-time panics of Go itself. *)
Inductive panic : Type :=
| PanicErr (e : error)     (* panic(err) *)
| PanicOverflow            (* panic("overflow") *)
| PanicUnimplemented       (* panic("unimplemented") *)
| PanicUnknownFileType     (* panic("unknown file type") *)
| PanicInvalidAddr         (* panic("invalid 16-bit address") *)
| PanicIndex.              (* run-time: index or slice bounds out of range *)

Inductive outcome (A : Type) : Type :=
| Done (a : A)             (* normal return (with a nil error, if any) *)
| Failed (e : error)       (* return of a non-nil error *)
| Panicked (p : panic)
| OutOfFuel.               (* a loop ran past the iterations the model gives it *)
Arguments Done {A} a.
Arguments Failed {A} e.
Arguments Panicked {A} p.
Arguments OutOfFuel {A}.

#[global] Instance outcome_ret : MRet outcome := fun A a => Done a.
#[global] Instance outcome_bind : MBind outcome := fun A B f m =>
  match m with
  | Done a => f a
  | Failed e => Failed e
  | Panicked p => Panicked p
  | OutOfFuel => OutOfFuel
  end.

Definition is_Done {A} (r : outcome A) : bool :=
  match r with Done _ => true | _ => false end.

(** ** Bytes, strings, slices *)

Definition u8 (x : Z) : Z := x mod 256.
Definition is_byte (x : Z) : Prop := 0 <= x < 256.

Definition byte_of_ascii (a : ascii) : Z := Z.of_N (Ascii.N_of_ascii a).
Definition ascii_of_byte (b : Z) : ascii := Ascii.ascii_of_N (Z.to_N b).

(** [[]byte(str)] and [string(buf)] *)
Fixpoint bytes_of_string (s : string) : list Z :=
  match s with
  | EmptyString => []
  | String a s' => byte_of_ascii a :: bytes_of_string s'
  end.

Fixpoint string_of_bytes (l : list Z) : string :=
  match l with
  | [] => EmptyString
  | b :: l' => String (ascii_of_byte b) (string_of_bytes l')
  end.

Definition zlen {A} (l : list A) : Z := Z.of_nat (length l).

(** ** pad.go *)

Definition padByte : Z := 0xA0.

(** [PadString]: [make] gives [n] zero bytes, [copy] overwrites the first
    [len(str)] of them and returns that count, the loop stores [padByte]
    at every later index. *)
Definition PadString (str : string) (n : Z) : outcome (list Z) :=
  if n <? zlen (bytes_of_string str) then Panicked PanicOverflow
  else
    let buf := replicate (Z.to_nat n) 0 in
    let buf := list_inserts 0 (bytes_of_string str) buf in
    let i := zlen (bytes_of_string str) in
    Done (list_inserts (Z.to_nat i) (replicate (Z.to_nat (n - i)) padByte) buf).

(** [UnpadBytes]: the loop runs [i] from [len(buf)] down to 1. *)
Fixpoint UnpadBytes_from (buf : list Z) (i : nat) : string :=
  match i with
  | O => EmptyString
  | S i' =>
      if bool_decide (buf !!! i' = padByte)
      then UnpadBytes_from buf i'
      else string_of_bytes (take i buf)
  end.

Definition UnpadBytes (buf : list Z) : string :=
  UnpadBytes_from buf (length buf).

(** ** disk.go: constants and geometry *)

Definition blockSize : Z := 256.
Definition totalTrackCount : Z := 35.
Definition totalBlockCount : Z := 683.
Definition totalByteCount : Z := 174848.

Definition bamTrack : Z := 18.
Definition bamDriveFormat1541 : Z := 65. (* 'A' *)
Definition bamDOSVersion : string := "2A". (* "\x32\x41" *)
Definition SectorFileStagger : Z := 10.
Definition SectorDirStagger : Z := 3.

Definition Scratched : Z := 0x00.
Definition DEL : Z := 0x80.
Definition SEQ : Z := 0x81.
Definition PRG : Z := 0x82.
Definition USR : Z := 0x83.
Definition REL : Z := 0x84.

Record geom : Type := mkGeom {
  trackMin : Z; trackMax : Z; sectorCount_of : Z; sectorOffset : Z }.

Definition geometry : list geom :=
  [ mkGeom 1 17 21 0;
    mkGeom 18 24 19 357;
    mkGeom 25 30 18 490;
    mkGeom 31 40 17 598 ].

(** [geometryTable.Lookup]; [None] is the [BadTS] error. *)
Fixpoint geometry_Lookup (tbl : list geom) (track : Z) : option geom :=
  match tbl with
  | [] => None
  | g :: tbl' =>
      if (trackMin g <=? track) && (track <=? trackMax g) then Some g
      else geometry_Lookup tbl' track
  end.

Definition sectorCount (track : Z) : outcome Z :=
  match geometry_Lookup geometry track with
  | Some g => Done (sectorCount_of g)
  | None => Panicked (PanicErr BadTS)
  end.

Record TS : Type := mkTS { T : Z; Sec : Z }.

Definition TS0 : TS := mkTS 0 0.

#[global] Instance TS_eq_dec : EqDecision TS.
Proof. solve_decision. Defined.

(** [TS.Offset]; the arithmetic is in [uint32] and cannot wrap for byte
    operands ([256 * (598 + 255 * 21 + 255) < 2^32]). *)
Definition TS_Offset (ts : TS) : outcome Z :=
  if T ts <? 1 then Failed BadTS
  else match geometry_Lookup geometry (T ts) with
       | None => Failed BadTS
       | Some g =>
           if sectorCount_of g <=? Sec ts then Failed BadTS
           else
             let sectors := T ts - trackMin g in
             let sectors := sectors * sectorCount_of g in
             let sectors := sectors + Sec ts in
             Done (blockSize * (sectorOffset g + sectors))
       end.

Definition TS_IsValid (ts : TS) : bool :=
  match geometry_Lookup geometry (T ts) with
  | None => false
  | Some g => Sec ts <? sectorCount_of g
  end.

Definition TS_IsNull (ts : TS) : bool := T ts =? 0.


(** ** The image and its views *)

(** [type Img [totalByteCount]byte].  A pointer into the image (the result
    of [Img.Block], then cast to a view type) is the byte offset of the
    first byte of the view. *)
Abbreviation Img := (list Z).

Definition Img_zero : Img := replicate (Z.to_nat totalByteCount) 0.

Definition peek (d : Img) (p : Z) : Z := d !!! Z.to_nat p.
Definition poke (d : Img) (p : Z) (v : Z) : Img := <[Z.to_nat p := v]> d.

(** [copy(dst[:], src)] for a destination array of [cap] bytes at [p]:
    copies [min(cap, len(src))] bytes. *)
Definition copy_to (d : Img) (p : Z) (cap : Z) (src : list Z) : Img :=
  list_inserts (Z.to_nat p) (take (Z.to_nat cap) src) d.

(** [arr[:n]] for an array at [p]. *)
Definition slice_at (d : Img) (p : Z) (n : Z) : list Z :=
  take (Z.to_nat n) (drop (Z.to_nat p) d).

Definition peekTS (d : Img) (p : Z) : TS := mkTS (peek d p) (peek d (p + 1)).
Definition pokeTS (d : Img) (p : Z) (ts : TS) : Img :=
  poke (poke d p (T ts)) (p + 1) (Sec ts).

(** [Img.Block] *)
Definition Img_Block (ts : TS) : outcome Z :=
  match TS_Offset ts with
  | Done off =>
      if totalByteCount <? off + blockSize then Panicked PanicOverflow
      else Done off
  | Failed e => Panicked (PanicErr e)
  | Panicked p => Panicked p
  | OutOfFuel => OutOfFuel
  end.

(** ** bam.go: the block availability map *)

(** Field offsets of [struct BAM] (all fields are bytes or byte arrays, so
    there is no padding): *)
Definition BAM_DirTS : Z := 0.
Definition BAM_DriveFormat : Z := 2.
Definition BAM_Unused1 : Z := 3.
Definition BAM_AvailMap : Z := 4.        (* [35]BAMEntry, 4 bytes each *)
Definition BAM_DiskName : Z := 144.      (* [16]byte *)
Definition BAM_DiskID : Z := 160.        (* [3]byte *)
Definition BAM_DOSVersion : Z := 163.    (* [6]byte *)
Definition BAM_Unused2 : Z := 169.       (* [86]byte *)

(** [struct BAMEntry { Count byte; free [3]byte }] at pointer [ent]. *)
Definition BAMEntry_Count (ent : Z) : Z := ent.
Definition BAMEntry_free (ent : Z) (k : Z) : Z := ent + 1 + k.

(** [&bam.AvailMap[i]] *)
Definition BAM_AvailMap_at (bam : Z) (i : Z) : Z := bam + BAM_AvailMap + 4 * i.

(** [geometry[j]], a run-time panic when [j] is out of range. *)
Definition geometry_at (j : nat) : outcome geom :=
  match geometry !! j with
  | Some g => Done g
  | None => Panicked PanicIndex
  end.

(** The loop of [BAM.Init] over [i := range bam.AvailMap]; [n] counts the
    iterations that remain. *)
Fixpoint BAM_Init_loop (n : nat) (bam : Z) (i : Z) (j : nat) (d : Img)
  : outcome Img :=
  match n with
  | O => Done d
  | S n' =>
      g ← geometry_at j;
      let j := if trackMax g <? u8 (i + 1) then S j else j in
      g ← geometry_at j;
      let ent := BAM_AvailMap_at bam i in
      let d := poke d (BAMEntry_Count ent) (sectorCount_of g) in
      let d := poke d (BAMEntry_free ent 0) 0xFF in
      let d := poke d (BAMEntry_free ent 1) 0xFF in
      let d := poke d (BAMEntry_free ent 2) 0xFF in
      BAM_Init_loop n' bam (i + 1) j d
  end.

(** [BAM.Init] *)
Definition BAM_Init (d : Img) (bam : Z) (name id : string) : outcome Img :=
  if 16 <? zlen (bytes_of_string name) then Failed ErrNameOverflow
  else if negb (zlen (bytes_of_string id) =? 2) then Failed ErrInvalidDiskId
  else
    let d := poke d (bam + BAM_DriveFormat) bamDriveFormat1541 in
    d ← BAM_Init_loop (Z.to_nat totalTrackCount) bam 0 0 d;
    pname ← PadString name 16;
    let d := copy_to d (bam + BAM_DiskName) 16 pname in
    pid ← PadString id 3;
    let d := copy_to d (bam + BAM_DiskID) 3 pid in
    pver ← PadString bamDOSVersion 6;
    let d := copy_to d (bam + BAM_DOSVersion) 6 pver in
    Done d.

(** [BAM.Entry]; [None] is the nil pointer.  [ts.T - 1] is computed in
    [uint8], so track 0 indexes [AvailMap[255]], a run-time panic. *)
Definition BAM_Entry (bam : Z) (ts : TS) : outcome (option Z) :=
  if totalTrackCount <=? T ts then Done None
  else if 32 <=? Sec ts then Done None
  else
    let i := u8 (T ts - 1) in
    if i <? totalTrackCount then Done (Some (BAM_AvailMap_at bam i))
    else Panicked PanicIndex.

(** [ent.free[i]], a run-time panic when [i] is not below 3. *)
Definition BAMEntry_free_get (d : Img) (ent : Z) (i : Z) : outcome Z :=
  if i <? 3 then Done (peek d (BAMEntry_free ent i)) else Panicked PanicIndex.

(** [ts.S / 8, byte(1 << (ts.S % 8))] *)
Definition bit_index (ts : TS) : Z := Sec ts / 8.
Definition bit_mask (ts : TS) : Z := u8 (Z.shiftl 1 (Sec ts mod 8)).

(** [BAM.Alloc].  Every error is returned before the first store, so a
    [Failed] outcome leaves the image as it was. *)
Definition BAM_Alloc (d : Img) (bam : Z) (ts : TS) : outcome Img :=
  ent ← BAM_Entry bam ts;
  match ent with
  | None => Failed OutOfRange
  | Some ent =>
      if peek d (BAMEntry_Count ent) =? 0 then Failed ErrCountZero
      else
        let i := bit_index ts in
        let j := bit_mask ts in
        x ← BAMEntry_free_get d ent i;
        if Z.land x j =? 0 then Failed BAMConflict
        else
          let d := poke d (BAMEntry_free ent i) (Z.lxor x j) in
          let d := poke d (BAMEntry_Count ent)
                        (u8 (peek d (BAMEntry_Count ent) - 1)) in
          Done d
  end.

(** [BAM.Free]; as for [BAM.Alloc], errors precede the stores. *)
Definition BAM_Free (d : Img) (bam : Z) (ts : TS) : outcome Img :=
  ent ← BAM_Entry bam ts;
  match ent with
  | None => Failed OutOfRange
  | Some ent =>
      let i := bit_index ts in
      let j := bit_mask ts in
      x ← BAMEntry_free_get d ent i;
      if 0 <? Z.land x j then Failed BAMConflict
      else
        let d := poke d (BAMEntry_free ent i) (Z.lor x j) in
        let d := poke d (BAMEntry_Count ent)
                      (u8 (peek d (BAMEntry_Count ent) + 1)) in
        Done d
  end.

(** [BAM.Avail] *)
Definition BAM_Avail (d : Img) (bam : Z) (ts : TS) : outcome bool :=
  ent ← BAM_Entry bam ts;
  match ent with
  | None => Panicked (PanicErr OutOfRange)
  | Some ent =>
      x ← BAMEntry_free_get d ent (bit_index ts);
      Done (0 <? Z.land x (bit_mask ts))
  end.

(** ** bam.go: the allocator *)

Record Allocator : Type := mkAllocator {
  a_bam : Z;                 (* bam *BAM *)
  a_TS : TS;                 (* lookahead *)
  SectorStagger : Z;
  NextTrack : Z -> Z }.

(** [defaultNextTrack]; [prev + 1] and [prev - 1] are [uint8]. *)
Definition defaultNextTrack (prev : Z) : Z :=
  if bamTrack <? prev then
    let next := u8 (prev + 1) in
    if next <=? totalTrackCount then next
    else
      let prev := bamTrack in
      let next := u8 (prev - 1) in
      if 0 <? next then next else 0
  else
    let next := u8 (prev - 1) in
    if 0 <? next then next else 0.

(** [BAM.NewAllocator] *)
Definition BAM_NewAllocator (bam : Z) : Allocator :=
  mkAllocator bam (mkTS (bamTrack + 1) 0) SectorFileStagger defaultNextTrack.

(** The loop of [nextAvailBlock]; [n] counts the iterations that remain
    ([max + 1] at the start).  [max] is a sector count less one, at least
    16 for every zone of [geometry], so [ts.S % max] does not divide by
    zero. *)
Fixpoint nextAvailBlock_loop (n : nat) (d : Img) (a : Allocator) (max : Z)
    (ts : TS) : outcome TS :=
  match n with
  | O => Done TS0
  | S n' =>
      av ← BAM_Avail d (a_bam a) ts;
      if av : bool then Done ts
      else
        let s := u8 (Sec ts + SectorStagger a) in
        let s := if max <? s then u8 (1 + s mod max) else s in
        nextAvailBlock_loop n' d a max (mkTS (T ts) s)
  end.

(** [Allocator.nextAvailBlock] *)
Definition nextAvailBlock (d : Img) (a : Allocator) (ts : TS) : outcome TS :=
  sc ← sectorCount (T ts);
  let max := u8 (sc - 1) in
  nextAvailBlock_loop (Z.to_nat (max + 1)) d a max ts.

(** The loop of [Allocator.nextTS].  The loop only reads the image, so an
    iteration that comes back to a track it has seen repeats for ever; a
    track is a byte, so [nextTS] gives the loop 256 iterations, and
    [OutOfFuel] beyond them is a loop that does not terminate. *)
Fixpoint nextTS_loop (fuel : nat) (d : Img) (a : Allocator) (iter : TS)
  : outcome TS :=
  match fuel with
  | O => OutOfFuel
  | S fuel' =>
      if 0 <? T iter then
        next ← nextAvailBlock d a iter;
        if 0 <? T next then Done next
        else
          let next := mkTS (NextTrack a (T iter)) 0 in
          if T next =? 0 then Done TS0
          else nextTS_loop fuel' d a next
      else Done TS0
  end.

Definition nextTS (d : Img) (a : Allocator) (ts : TS) : outcome TS :=
  nextTS_loop 256 d a ts.

Definition set_TS (a : Allocator) (ts : TS) : Allocator :=
  mkAllocator (a_bam a) ts (SectorStagger a) (NextTrack a).

(** [Allocator.Alloc]: the allocated address, the allocator and the image
    after the call.  [Failed e] is the return of [(TS{0, 0}, e)]; it
    happens before any store to the allocator or the image. *)
Definition Allocator_Alloc (d : Img) (a : Allocator)
  : outcome (TS * Allocator * Img) :=
  if T (a_TS a) =? 0 then Failed DiskFull
  else
    let ts := a_TS a in
    av ← BAM_Avail d (a_bam a) ts;
    ts ← (if av : bool then Done ts else nextTS d a ts);
    if negb av && (T ts =? 0) then Done (ts, set_TS a ts, d)
    else
      d ← BAM_Alloc d (a_bam a) ts;
      next ← nextTS d a ts;
      Done (ts, set_TS a next, d).


(** ** disk.go: directory blocks and entries *)

(** Field offsets of the 32-byte [struct DirEntry]: *)
Definition DirEntry_DirLink : Z := 0.
Definition DirEntry_FileType : Z := 2.
Definition DirEntry_FileTS : Z := 3.
Definition DirEntry_Filename : Z := 5.      (* [16]byte *)
Definition DirEntry_RelSideSector : Z := 21.
Definition DirEntry_RelRecordSize : Z := 23.
Definition DirEntry_Unused : Z := 24.       (* [4]byte *)
Definition DirEntry_SaveReplace : Z := 28.
Definition DirEntry_BlockSizeLo : Z := 30.
Definition DirEntry_BlockSizeHi : Z := 31.

(** [&dir.Files[i]] *)
Definition DirBlock_Files (dir : Z) (i : Z) : Z := dir + 32 * i.

Definition DirBlock_Init (d : Img) (dir : Z) : Img :=
  pokeTS d (DirBlock_Files dir 0 + DirEntry_DirLink) (mkTS 0 255).

(** [DirBlock.NextAvail]; [n] counts the entries that remain. *)
Fixpoint DirBlock_NextAvail_from (n : nat) (d : Img) (dir : Z) (i : Z)
  : option Z :=
  match n with
  | O => None
  | S n' =>
      if peek d (DirBlock_Files dir i + DirEntry_FileType) =? Scratched
      then Some (DirBlock_Files dir i)
      else DirBlock_NextAvail_from n' d dir (i + 1)
  end.

Definition DirBlock_NextAvail (d : Img) (dir : Z) : option Z :=
  DirBlock_NextAvail_from 8 d dir 0.

Definition DirBlock_Next (d : Img) (dir : Z) : TS * bool :=
  let ts := peekTS d (DirBlock_Files dir 0 + DirEntry_DirLink) in
  if (T ts =? 0) && (Sec ts =? 255) then (ts, false) else (ts, true).

Definition DirBlock_SetNext (d : Img) (dir : Z) (ts : TS) : Img :=
  pokeTS d (DirBlock_Files dir 0 + DirEntry_DirLink) ts.

Definition DirEntry_IsScratched (d : Img) (fe : Z) : bool :=
  peek d (fe + DirEntry_FileType) =? Scratched.

Definition DirEntry_FilenameString (d : Img) (fe : Z) : string :=
  UnpadBytes (slice_at d (fe + DirEntry_Filename) 16).

Definition DirEntry_SetFilename (d : Img) (fe : Z) (filename : string)
  : outcome Img :=
  p ← PadString filename 16;
  Done (copy_to d (fe + DirEntry_Filename) 16 p).

Definition DirEntry_BlockCount (d : Img) (fe : Z) : Z :=
  Z.lor (peek d (fe + DirEntry_BlockSizeLo))
        (Z.shiftl (peek d (fe + DirEntry_BlockSizeHi)) 8).

(** [bcount] is a [uint16]. *)
Definition DirEntry_SetBlockCount (d : Img) (fe : Z) (bcount : Z) : Img :=
  let d := poke d (fe + DirEntry_BlockSizeLo) (u8 (Z.land bcount 255)) in
  poke d (fe + DirEntry_BlockSizeHi) (Z.land (u8 (Z.shiftr bcount 8)) 255).

(** [size] is a non-negative [int]; the count is truncated to [uint16]. *)
Definition DirEntry_SetByteLen (d : Img) (fe : Z) (size : Z) : Img :=
  let n := size / blockSize in
  let n := if 0 <? size mod blockSize then n + 1 else n in
  DirEntry_SetBlockCount d fe (n mod 65536).

(** ** disk.go: file blocks *)

(** The two implementations of [interface FileBlock], each a pointer to
    its block. *)
Inductive FileBlock : Type :=
| RawBlock (fb : Z)
| PrgBlock (prg : Z).

(** [struct RawBlock { Link TS; Data [254]byte }] *)
Definition RawBlock_Link : Z := 0.
Definition RawBlock_Data : Z := 2.
(** [struct PrgBlock { Link TS; LoadLo, LoadHi uint8; Data [252]byte }] *)
Definition PrgBlock_Link : Z := 0.
Definition PrgBlock_LoadLo : Z := 2.
Definition PrgBlock_LoadHi : Z := 3.
Definition PrgBlock_Data : Z := 4.

(** [DirEntry.FileBlock]: the block is looked up before the switch. *)
Definition DirEntry_FileBlock (d : Img) (fe : Z) : outcome FileBlock :=
  raw ← Img_Block (peekTS d (fe + DirEntry_FileTS));
  let ft := peek d (fe + DirEntry_FileType) in
  if (ft =? DEL) || (ft =? SEQ) then Done (RawBlock raw)
  else if ft =? PRG then Done (PrgBlock raw)
  else if (ft =? USR) || (ft =? REL) then Panicked PanicUnimplemented
  else Panicked PanicUnknownFileType.

Definition RawBlock_EOF (d : Img) (fb : Z) : bool :=
  T (peekTS d (fb + RawBlock_Link)) =? 0.

Definition RawBlock_EndFile (d : Img) (fb : Z) (size : Z) : Img :=
  pokeTS d (fb + RawBlock_Link) (mkTS 0 size).

Definition RawBlock_Truncate (d : Img) (fb : Z) (e : list Z) : outcome Img :=
  if 254 <? zlen e then Failed ErrTruncOverflow
  else
    let d := pokeTS d (fb + RawBlock_Link) (mkTS 0 (u8 (zlen e))) in
    Done (copy_to d (fb + RawBlock_Data) 254 e).

(** [None] is the nil interface value. *)
Definition RawBlock_NextBlock (d : Img) (fb : Z) : outcome (option FileBlock) :=
  if RawBlock_EOF d fb then Done None
  else
    p ← Img_Block (peekTS d (fb + RawBlock_Link));
    Done (Some (RawBlock p)).

Definition RawBlock_Len (d : Img) (fb : Z) : Z :=
  if RawBlock_EOF d fb then Sec (peekTS d (fb + RawBlock_Link)) else 254.

(** [fb.Data[:fb.Len()]] panics when the length exceeds the 254 bytes of
    the array. *)
Definition RawBlock_Bytes (d : Img) (fb : Z) : outcome (list Z) :=
  if RawBlock_EOF d fb then
    if 254 <? RawBlock_Len d fb then Panicked PanicIndex
    else Done (slice_at d (fb + RawBlock_Data) (RawBlock_Len d fb))
  else Done (slice_at d (fb + RawBlock_Data) 254).

Definition PrgBlock_SetLoadAddr (d : Img) (prg : Z) (addr : list Z)
  : outcome Img :=
  match addr with
  | [lo; hi] =>
      Done (poke (poke d (prg + PrgBlock_LoadLo) lo) (prg + PrgBlock_LoadHi) hi)
  | _ => Panicked PanicInvalidAddr
  end.

Definition PrgBlock_NextBlock (d : Img) (prg : Z) : outcome (option FileBlock) :=
  if T (peekTS d (prg + PrgBlock_Link)) =? 0 then Done None
  else
    p ← Img_Block (peekTS d (prg + PrgBlock_Link));
    Done (Some (RawBlock p)).

Definition PrgBlock_Len (d : Img) (prg : Z) : Z := 254.

(** [PrgBlock.Bytes] reinterprets the block as a [RawBlock]. *)
Definition PrgBlock_Bytes (d : Img) (prg : Z) : outcome (list Z) :=
  RawBlock_Bytes d prg.

(** Method dispatch through the interface. *)
Definition FileBlock_NextBlock (d : Img) (b : FileBlock)
  : outcome (option FileBlock) :=
  match b with
  | RawBlock fb => RawBlock_NextBlock d fb
  | PrgBlock prg => PrgBlock_NextBlock d prg
  end.

Definition FileBlock_Bytes (d : Img) (b : FileBlock) : outcome (list Z) :=
  match b with
  | RawBlock fb => RawBlock_Bytes d fb
  | PrgBlock prg => PrgBlock_Bytes d prg
  end.

Definition FileBlock_Len (d : Img) (b : FileBlock) : Z :=
  match b with
  | RawBlock fb => RawBlock_Len d fb
  | PrgBlock prg => PrgBlock_Len d prg
  end.

(** ** disk.go: the image *)

Definition Img_BAM : outcome Z := Img_Block (mkTS bamTrack 0).

(** A call whose error result the caller drops: the callee returned the
    error before storing anything. *)
Definition drop_error (d : Img) (r : outcome Img) : outcome Img :=
  match r with
  | Failed _ => Done d
  | _ => r
  end.

(** [Img.Init] *)
Definition Img_Init (d : Img) (name id : string) : outcome Img :=
  let dirts := mkTS bamTrack 1 in
  bam ← Img_BAM;
  d ← BAM_Init d bam name id;
  let d := pokeTS d (bam + BAM_DirTS) dirts in
  d ← drop_error d (BAM_Alloc d bam (mkTS bamTrack 0));
  d ← drop_error d (BAM_Alloc d bam (mkTS bamTrack 1));
  dir ← Img_Block dirts;
  Done (DirBlock_Init d dir).

(** [Img.Dir] *)
Definition Img_Dir (d : Img) : outcome Z :=
  bam ← Img_BAM;
  Img_Block (peekTS d (bam + BAM_DirTS)).

(** The loop of [Img.NewDirEntry].  A directory chain that is full and
    cyclic keeps the loop of the source running for ever; [Img.NewDirEntry]
    gives the walk 684 iterations, one more than the image has blocks. *)
Fixpoint NewDirEntry_loop (fuel : nat) (d : Img) (a : Allocator) (dir : Z)
  : outcome (Z * Img) :=
  match fuel with
  | O => OutOfFuel
  | S fuel' =>
      match DirBlock_NextAvail d dir with
      | Some file => Done (file, d)
      | None =>
          let '(next, ok) := DirBlock_Next d dir in
          if ok : bool then
            dir ← Img_Block next;
            NewDirEntry_loop fuel' d a dir
          else
            match Allocator_Alloc d a with
            | Done (ts, a, d) =>
                let d := DirBlock_SetNext d dir ts in
                dir ← Img_Block ts;
                NewDirEntry_loop fuel' d a dir
            | Failed DiskFull => Failed ErrNoRoomInDir
            | Failed e => Failed e
            | Panicked p => Panicked p
            | OutOfFuel => OutOfFuel
            end
      end
  end.

(** [Img.NewDirEntry]: the pointer to the entry and the image after the
    call. *)
Definition Img_NewDirEntry (d : Img) : outcome (Z * Img) :=
  bam ← Img_BAM;
  let ts := peekTS d (bam + BAM_DirTS) in
  dir ← Img_Block ts;
  let a := BAM_NewAllocator bam in
  let a := mkAllocator (a_bam a) (peekTS d (bam + BAM_DirTS))
                       SectorDirStagger (fun _ => 0) in
  NewDirEntry_loop (Z.to_nat totalBlockCount + 1) d a dir.


(** ** fs.go: the read-only file system *)

(** [struct dirEntryFile]; its [disk] field is the image, which the
    functions below take as an argument. *)
Record dirEntryFile : Type := mkDirEntryFile {
  f_entry : Z;          (* entry *DirEntry *)
  f_iter : FileBlock;
  f_offset : Z }.

(** The loop of [dirEntryFile.Read]: the destination buffer, the number
    of bytes read, whether [io.EOF] is returned, and the file after the
    call.  Every iteration that continues has copied a whole non-empty
    block, so [len(dest) + 1] iterations are always enough. *)
Fixpoint Read_loop (fuel : nat) (d : Img) (f : dirEntryFile) (dest : list Z)
    (read : Z) : outcome (list Z * Z * bool * dirEntryFile) :=
  match fuel with
  | O => OutOfFuel
  | S fuel' =>
      if read <? zlen dest then
        blk ← FileBlock_Bytes d (f_iter f);
        if zlen blk =? 0 then Done (dest, read, true, f)
        else if zlen blk <? f_offset f then Panicked PanicIndex
        else
          let src := drop (Z.to_nat (f_offset f)) blk in
          let n := Z.min (zlen dest - read) (zlen src) in
          let dest := list_inserts (Z.to_nat read) (take (Z.to_nat n) src) dest in
          let read := read + n in
          if n <? zlen blk then
            Done (dest, read, false, mkDirEntryFile (f_entry f) (f_iter f) n)
          else
            let f := mkDirEntryFile (f_entry f) (f_iter f) 0 in
            next ← FileBlock_NextBlock d (f_iter f);
            match next with
            | None => Done (dest, read, true, f)
            | Some next =>
                Read_loop fuel' d (mkDirEntryFile (f_entry f) next 0) dest read
            end
      else Done (dest, read, false, f)
  end.

Definition dirEntryFile_Read (d : Img) (f : dirEntryFile) (dest : list Z)
  : outcome (list Z * Z * bool * dirEntryFile) :=
  Read_loop (S (length dest)) d f dest 0.

(** [dirEntryFile.Name] *)
Definition dirEntryFile_Name (d : Img) (def : dirEntryFile) : string :=
  let name := UnpadBytes (slice_at d (f_entry def + DirEntry_Filename) 16) in
  let ft := peek d (f_entry def + DirEntry_FileType) in
  let ext :=
    if ft =? DEL then "DEL"
    else if ft =? SEQ then "SEQ"
    else if ft =? PRG then "PRG"
    else if ft =? USR then "USR"
    else if ft =? REL then "REL"
    else "???" in
  name +:+ "." +:+ ext.

(** The loop of [dirEntryFile.Size] over the block chain; [iter] is
    [None] for the nil interface value.  A chain runs through blocks of
    the image, so one that is longer than the image has blocks is cyclic
    and the loop of the source does not terminate on it. *)
Fixpoint Size_loop (fuel : nat) (d : Img) (iter : option FileBlock) (n : Z)
  : outcome Z :=
  match fuel with
  | O => OutOfFuel
  | S fuel' =>
      match iter with
      | None => Done n
      | Some b =>
          let n := n + FileBlock_Len d b in
          next ← FileBlock_NextBlock d b;
          Size_loop fuel' d next n
      end
  end.

Definition dirEntryFile_Size (d : Img) (def : dirEntryFile) : outcome Z :=
  b ← DirEntry_FileBlock d (f_entry def);
  Size_loop (Z.to_nat totalBlockCount + 2) d (Some b) 0.

(** [newDirEntryFile]; [None] is the nil result for a scratched entry. *)
Definition newDirEntryFile (d : Img) (entry : Z) : outcome (option dirEntryFile) :=
  if DirEntry_IsScratched d entry then Done None
  else
    blk ← DirEntry_FileBlock d entry;
    Done (Some (mkDirEntryFile entry blk 0)).

(** The inner loop of [loadDirEntries] over the entries of one block. *)
Fixpoint loadDirEntries_block (n : nat) (d : Img) (dir : Z) (i : Z)
    (files : gmap string dirEntryFile) : outcome (gmap string dirEntryFile) :=
  match n with
  | O => Done files
  | S n' =>
      let ent := DirBlock_Files dir i in
      entfile ← newDirEntryFile d ent;
      let files :=
        match entfile with
        | None => files
        | Some ef => <[dirEntryFile_Name d ef := ef]> files
        end in
      loadDirEntries_block n' d dir (i + 1) files
  end.

(** The outer loop of [loadDirEntries] over the directory chain. *)
Fixpoint loadDirEntries_loop (fuel : nat) (d : Img) (dir : Z)
    (files : gmap string dirEntryFile) : outcome (gmap string dirEntryFile) :=
  match fuel with
  | O => OutOfFuel
  | S fuel' =>
      files ← loadDirEntries_block 8 d dir 0 files;
      let '(ts, ok) := DirBlock_Next d dir in
      if ok : bool then
        dir ← Img_Block ts;
        loadDirEntries_loop fuel' d dir files
      else Done files
  end.

Definition loadDirEntries (d : Img) : outcome (gmap string dirEntryFile) :=
  dir ← Img_Dir d;
  loadDirEntries_loop (Z.to_nat totalBlockCount + 1) d dir ∅.

(** [struct diskFS]; the image is passed separately. *)
Record diskFS : Type := mkDiskFS {
  fs_name : string;
  fs_files : gmap string dirEntryFile }.

(** [Img.FS] *)
Definition Img_FS (d : Img) : outcome diskFS :=
  bam ← Img_BAM;
  let name := UnpadBytes (slice_at d (bam + BAM_DiskName) 16) in
  files ← loadDirEntries d;
  Done (mkDiskFS name files).

(** The order of [sort.Slice] in [diskFS.ReadDir]: [Name() < Name()] on
    strings compares bytes. *)
Definition name_le (a b : string) : Prop := String.leb a b = true.
#[global] Instance name_le_dec a b : Decision (name_le a b).
Proof. unfold name_le. apply _. Defined.

(** [diskFS.ReadDir], as the names of the entries it returns; [None] is
    [fs.ErrNotExist]. *)
Definition diskFS_ReadDir (dfs : diskFS) (name : string) : option (list string) :=
  if bool_decide (name = ".") then Some [fs_name dfs]
  else if negb (bool_decide (name = fs_name dfs)) then None
  else Some (merge_sort name_le ((map_to_list (fs_files dfs)).*1)).

(** ** cmd/d64/create.go *)

(** [create.go] calls [a.Alloc()] for its address alone; the error return
    [(TS{0, 0}, err)] of [Allocator.Alloc] is the address [TS{0, 0}]
    there. *)
Definition create_Alloc (d : Img) (a : Allocator)
  : outcome (TS * Allocator * Img) :=
  match Allocator_Alloc d a with
  | Failed _ => Done (TS0, a, d)
  | r => r
  end.

(** The loop of [writeRawBlocks]; [i] advances by 254 in every iteration
    that continues, so [len(buf) + 1] iterations are always enough.  The
    result is [(ts, i, a, d)] at the [break]. *)
Fixpoint writeRawBlocks_loop (fuel : nat) (d : Img) (a : Allocator)
    (blk : Z) (buf : list Z) (i : Z) : outcome (TS * Z * Allocator * Img) :=
  match fuel with
  | O => OutOfFuel
  | S fuel' =>
      '(ts, a, d) ← create_Alloc d a;
      if T ts =? 0 then Failed ErrCreateDiskFull
      else
        let d := pokeTS d (blk + RawBlock_Link) ts in
        if zlen buf - i <=? 254 then Done (ts, i, a, d)
        else
          blk ← Img_Block ts;
          let chunk := take 254 (drop (Z.to_nat i) buf) in
          let d := copy_to d (blk + RawBlock_Data) 254 chunk in
          writeRawBlocks_loop fuel' d a blk buf (i + zlen chunk)
  end.

(** [writeRawBlocks] *)
Definition writeRawBlocks (d : Img) (blk : Z) (a : Allocator) (buf : list Z)
  : outcome (Allocator * Img) :=
  if zlen buf =? 0 then Done (a, d)
  else
    '(ts, i, a, d) ← writeRawBlocks_loop (S (length buf)) d a blk buf 0;
    tail ← Img_Block ts;
    let rest := drop (Z.to_nat i) buf in
    let d := copy_to d (tail + RawBlock_Data) 254 rest in
    let copied := Z.min 254 (zlen rest) in
    Done (a, RawBlock_EndFile d tail (u8 copied)).

(** [writeProgram].  A slice is modelled by its elements, so [buf[:2]]
    panics when [buf] has fewer than two; with spare capacity the source
    panics one statement later, at [buf[2:]]. *)
Definition writeProgram (d : Img) (ts : TS) (a : Allocator) (buf : list Z)
  : outcome (Allocator * Img) :=
  prg ← Img_Block ts;
  if zlen buf <? 2 then Panicked PanicIndex
  else
    d ← PrgBlock_SetLoadAddr d prg (take 2 buf);
    let buf := drop 2 buf in
    if zlen buf <=? 252 then
      let d := poke d (prg + PrgBlock_Link) 0 in
      let d := copy_to d (prg + PrgBlock_Data) 252 buf in
      let d := poke d (prg + PrgBlock_Link + 1) (u8 (Z.min 252 (zlen buf))) in
      Done (a, d)
    else
      let d := copy_to d (prg + PrgBlock_Data) 252 (take 252 buf) in
      blk ← Img_Block ts;
      writeRawBlocks d blk a (drop 252 buf).

Section create.
(** [strings.ToUpper] of the Go library. *)
Variable strings_ToUpper : string -> string.

(** [createFile]; a [log.Fatal] ends the run, which is the [Failed]
    outcome here ([DiskFull] for "allocation failed"). *)
Definition createFile (fname : string) (buf : list Z) (d : Img)
  : outcome Img :=
  let fname := strings_ToUpper fname in
  bam ← Img_BAM;
  let a := BAM_NewAllocator bam in
  '(ts, a, d) ← create_Alloc d a;
  if T ts =? 0 then Failed DiskFull
  else
    '(ent, d) ← Img_NewDirEntry d;
    d ← DirEntry_SetFilename d ent fname;
    let d := DirEntry_SetByteLen d ent (zlen buf) in
    let d := poke d (ent + DirEntry_FileType) PRG in
    let d := pokeTS d (ent + DirEntry_FileTS) ts in
    '(_, d) ← writeProgram d ts a buf;
    Done d.
End create.


(** ** Notions used in the statements *)

(** A track/sector address of byte fields that [TS.IsValid] accepts. *)
Definition valid_TS (ts : TS) : Prop :=
  is_byte (T ts) /\ is_byte (Sec ts) /\ TS_IsValid ts = true.

(** The inverse zone search: the address of the [k]-th block of the
    layout. *)
Definition TS_of_block (k : Z) : TS :=
  if k <? 357 then mkTS (1 + k / 21) (k mod 21)
  else if k <? 490 then mkTS (18 + (k - 357) / 19) ((k - 357) mod 19)
  else if k <? 598 then mkTS (25 + (k - 490) / 18) ((k - 490) mod 18)
  else mkTS (31 + (k - 598) / 17) ((k - 598) mod 17).

(** The tracks that the loop of [nextTS] moves through under the track
    policy [next] when no track has a block left, from track [t] on. *)
Fixpoint track_walk (fuel : nat) (next : Z -> Z) (t : Z) : list Z :=
  match fuel with
  | O => []
  | S fuel' => if t =? 0 then [] else t :: track_walk fuel' next (next t)
  end.

(** The string that is the single pad byte. *)
Definition pad_string : string := String (ascii_of_byte padByte) EmptyString.


(** An address whose two fields are bytes, as every [TS] of the source. *)
Definition TS_bytes (ts : TS) : Prop := is_byte (T ts) /\ is_byte (Sec ts).

(** The number of set bits among the eight bits of a byte. *)
Definition popcount8 (x : Z) : Z :=
  Z.b2z (Z.testbit x 0) + Z.b2z (Z.testbit x 1) + Z.b2z (Z.testbit x 2)
  + Z.b2z (Z.testbit x 3) + Z.b2z (Z.testbit x 4) + Z.b2z (Z.testbit x 5)
  + Z.b2z (Z.testbit x 6) + Z.b2z (Z.testbit x 7).

(** The number of set bits of the 24-bit free bitmap of an entry. *)
Definition BAMEntry_popcount (d : Img) (ent : Z) : Z :=
  popcount8 (peek d (BAMEntry_free ent 0))
  + popcount8 (peek d (BAMEntry_free ent 1))
  + popcount8 (peek d (BAMEntry_free ent 2)).

(** The sector count of the zone of a track (0 outside the table). *)
Definition zone_sectors (track : Z) : Z :=
  match geometry_Lookup geometry track with
  | Some g => sectorCount_of g
  | None => 0
  end.

(** The invariant of C3 as the specification words it, for the entry of
    track [i + 1]. *)
Definition count_is_popcount (d : Img) (bam : Z) (i : Z) : Prop :=
  peek d (BAMEntry_Count (BAM_AvailMap_at bam i))
  = BAMEntry_popcount d (BAM_AvailMap_at bam i).

(** The invariant that the code keeps: [BAM.Init] sets all 24 bits of an
    entry, also those past the last sector of the track, so the bitmap
    has [24 - sectors] more set bits than the count. *)
Definition BAMEntry_inv (d : Img) (bam : Z) (i : Z) : Prop :=
  let ent := BAM_AvailMap_at bam i in
  0 <= peek d (BAMEntry_Count ent)
  /\ peek d (BAMEntry_Count ent) + (24 - zone_sectors (i + 1))
     = BAMEntry_popcount d ent.

Definition BAM_inv (d : Img) (bam : Z) : Prop :=
  forall i, 0 <= i < totalTrackCount -> BAMEntry_inv d bam i.

(** The index into [geometry] that the loop of [BAM.Init] holds when it
    enters the iteration for entry [i]. *)
Definition zone_index (i : Z) : nat :=
  if i <=? 17 then 0 else if i <=? 24 then 1 else if i <=? 30 then 2 else 3.


(** [n] calls of [Allocator.Alloc] in a row: the addresses they return,
    and the allocator and the image after the last one. *)
Fixpoint alloc_run (n : nat) (d : Img) (a : Allocator)
  : outcome (list TS * Allocator * Img) :=
  match n with
  | O => Done ([], a, d)
  | S n' =>
      '(ts, a, d) ← Allocator_Alloc d a;
      '(l, a, d) ← alloc_run n' d a;
      Done (ts :: l, a, d)
  end.


(** The extension that [dirEntryFile.Name] gives a file type. *)
Definition type_extension (ft : Z) : string :=
  if ft =? DEL then "DEL"
  else if ft =? SEQ then "SEQ"
  else if ft =? PRG then "PRG"
  else if ft =? USR then "USR"
  else if ft =? REL then "REL"
  else "???".

(** The value of an image-valued call (the empty list if it is none). *)
Definition image_of (r : outcome Img) : Img :=
  match r with Done d => d | _ => [] end.

(** A freshly initialised image whose first directory entry, at block
    [{18, 1}], has file type [ft] and first block [{19, 0}]. *)
Definition disk_with_entry (ft : Z) : Img :=
  let d := image_of (Img_Init Img_zero "TESTNAME" "12") in
  pokeTS (poke d (91648 + DirEntry_FileType) ft)
         (91648 + DirEntry_FileTS) (mkTS 19 0).


(** The availability map that one image holds at [bam1] is the one that
    another holds at [bam2]. *)
Definition bam_rel (bam1 bam2 : Z) (d1 d2 : Img) : Prop :=
  forall k, 4 <= k < 144 -> peek d1 (bam1 + k) = peek d2 (bam2 + k).

(** An allocator moved to the BAM at [bam]. *)
Definition rebase (bam : Z) (a : Allocator) : Allocator :=
  mkAllocator bam (a_TS a) (SectorStagger a) (NextTrack a).

(** Two calls end the same way, with results related by [R]. *)
Definition outcome_rel {A} (R : A -> A -> Prop) (r1 r2 : outcome A) : Prop :=
  match r1, r2 with
  | Done a1, Done a2 => R a1 a2
  | Failed e1, Failed e2 => e1 = e2
  | Panicked p1, Panicked p2 => p1 = p2
  | OutOfFuel, OutOfFuel => True
  | _, _ => False
  end.


(** The allocator that [Img.NewDirEntry] sets up: it starts at the first
    directory block, staggers by 3 and never leaves the track. *)
Definition dir_allocator (d : Img) : Allocator :=
  mkAllocator 91392 (peekTS d 91392) SectorDirStagger (fun _ => 0).

(** Entry [i] of the directory block at [dir] made a PRG file whose first
    block is [{19, 0}]. *)
Definition occupy_entry (d : Img) (dir : Z) (i : Z) : Img :=
  pokeTS (poke d (DirBlock_Files dir i + DirEntry_FileType) PRG)
         (DirBlock_Files dir i + DirEntry_FileTS) (mkTS 19 0).

(** All eight entries of the directory block at [dir] occupied. *)
Definition occupy_block (d : Img) (dir : Z) : Img :=
  foldl (fun d i => occupy_entry d dir i) d (seqZ 0 8).

(** A freshly initialised image whose only directory block is full. *)
Definition full_dir_disk : Img :=
  occupy_block (image_of (Img_Init Img_zero "TESTNAME" "12")) 91648.

(** The image that a call returns next to its result. *)
Definition image_after {A} (r : outcome (A * Img)) : Img :=
  match r with Done (_, d) => d | _ => [] end.


(** Byte [k] of the BAM block once [Img.Init] has run, for the bytes of
    the availability map ([4 <= k < 144]): the count and the bitmap of
    every track, with the two blocks of track 18 taken. *)
Definition init_byte (k : Z) : Z :=
  let i := (k - 4) / 4 in
  let j := (k - 4) mod 4 in
  if j =? 0 then (if i =? 17 then 17 else zone_sectors (i + 1))
  else if j =? 1 then (if i =? 17 then 252 else 255)
  else 255.

(** The first 144 bytes of a BAM block, with that availability map. *)
Definition init_bam_block : Img := init_byte <$> seqZ 0 144.


(** The directory blocks [rest] follow the block at [b], each reached
    through the chain link of the one before it. *)
Fixpoint dir_links (d : Img) (b : Z) (rest : list Z) : Prop :=
  match rest with
  | [] => True
  | b' :: rest' =>
      exists ts, DirBlock_Next d b = (ts, true) /\ 0 <= Sec ts
                 /\ Img_Block ts = Done b' /\ dir_links d b' rest'
  end.

(** The last block of the chain [b :: rest]. *)
Fixpoint chain_last (b : Z) (rest : list Z) : Z :=
  match rest with
  | [] => b
  | b' :: rest' => chain_last b' rest'
  end.

(** Every entry of the directory block at [b] can be loaded: it is
    scratched, or [newDirEntryFile] returns a file for it. *)
Definition entries_load (d : Img) (b : Z) : Prop :=
  forall i, 0 <= i < 8 ->
    exists r, newDirEntryFile d (DirBlock_Files b i) = Done r.

(** The full directory of [full_dir_disk], on an image that holds an old
    end mark at the start of block [{18, 4}]. *)
Definition stale_link_disk : Img := pokeTS full_dir_disk 92416 (mkTS 0 255).

(** A zero image but for the [Unused1] byte of the BAM block. *)
Definition stale_unused_image : Img := poke Img_zero (91392 + BAM_Unused1) 7.


(** ** Notions used in the further properties *)

(** The number of further tracks that the default policy can move
    through from track [t], at most. *)
Definition track_rank (t : Z) : Z :=
  if t <=? 18 then t else if t <=? 35 then 54 - t else 18.

(** The tracks of the blocks that a fresh disk hands out, in order. *)
Definition fresh_disk_tracks : list Z :=
  (seqZ 19 6 ≫= replicate 18) ++ (seqZ 25 6 ≫= replicate 9)
  ++ (seqZ 31 3 ≫= replicate 4) ++ replicate 3 34.

(* ================================================================== *)
(** * Theorems *)

(** ** Padding codec *)

Lemma ascii_of_byte_of_ascii a : ascii_of_byte (byte_of_ascii a) = a.
Proof.
  unfold ascii_of_byte, byte_of_ascii.
  rewrite N2Z.id. apply Ascii.ascii_N_embedding.
Qed.

Lemma string_of_bytes_of_string s : string_of_bytes (bytes_of_string s) = s.
Proof.
  induction s as [|a s IH]; simpl; [done|].
  by rewrite ascii_of_byte_of_ascii, IH.
Qed.

Lemma byte_of_ascii_range a : is_byte (byte_of_ascii a).
Proof.
  unfold is_byte, byte_of_ascii.
  pose proof (Ascii.N_ascii_bounded a). lia.
Qed.

Lemma byte_of_ascii_of_byte b : is_byte b -> byte_of_ascii (ascii_of_byte b) = b.
Proof.
  intros Hb. unfold byte_of_ascii, ascii_of_byte.
  rewrite Ascii.N_ascii_embedding by (unfold is_byte in Hb; lia).
  unfold is_byte in Hb. lia.
Qed.

Lemma bytes_of_string_range s : Forall is_byte (bytes_of_string s).
Proof.
  induction s; simpl; constructor; auto using byte_of_ascii_range.
Qed.

Lemma bytes_of_string_of_bytes l :
  Forall is_byte l -> bytes_of_string (string_of_bytes l) = l.
Proof.
  induction 1 as [|b l Hb _ IH]; simpl; [done|].
  by rewrite byte_of_ascii_of_byte, IH.
Qed.

(** What [PadString] builds: the bytes of the string, then pad bytes. *)
Lemma PadString_eq str n :
  zlen (bytes_of_string str) <= n ->
  PadString str n =
    Done (bytes_of_string str
            ++ replicate (Z.to_nat (n - zlen (bytes_of_string str))) padByte).
Proof.
  intros Hn. unfold PadString, zlen in *.
  destruct (Z.ltb_spec n (Z.of_nat (length (bytes_of_string str)))); [lia|].
  f_equal.
  set (l := bytes_of_string str) in *.
  set (k := Z.to_nat (n - Z.of_nat (length l))).
  replace (Z.to_nat n) with (length l + k)%nat by lia.
  rewrite replicate_add.
  rewrite list_inserts_0_r by (by rewrite length_replicate).
  rewrite Nat2Z.id.
  replace (length l) with (length l + 0)%nat at 1 by lia.
  rewrite list_inserts_app_r.
  f_equal.
  rewrite <- (app_nil_r (replicate k 0)).
  rewrite list_inserts_0_r by (by rewrite !length_replicate).
  by rewrite app_nil_r.
Qed.

Lemma PadString_length str n buf :
  PadString str n = Done buf -> zlen buf = n.
Proof.
  unfold PadString.
  destruct (Z.ltb_spec n (zlen (bytes_of_string str))); [done|].
  intros [= <-]. unfold zlen in *.
  rewrite !length_inserts, length_replicate. lia.
Qed.

(** [UnpadBytes] never looks at or beyond index [i]. *)
Lemma UnpadBytes_from_app buf rest i :
  (i <= length buf)%nat ->
  UnpadBytes_from (buf ++ rest) i = UnpadBytes_from buf i.
Proof.
  induction i as [|i IH]; intros Hi; simpl; [done|].
  rewrite lookup_total_app_l by lia.
  rewrite IH by lia.
  by rewrite (take_app_le buf rest) by lia.
Qed.

Lemma UnpadBytes_from_S buf i :
  UnpadBytes_from buf (S i) =
    if bool_decide (buf !!! i = padByte) then UnpadBytes_from buf i
    else string_of_bytes (take (S i) buf).
Proof. reflexivity. Qed.

Lemma UnpadBytes_pad_suffix buf k :
  UnpadBytes (buf ++ replicate k padByte) = UnpadBytes buf.
Proof.
  unfold UnpadBytes. rewrite length_app, length_replicate.
  induction k as [|k IH].
  - simpl. rewrite Nat.add_0_r. by apply UnpadBytes_from_app.
  - rewrite Nat.add_succ_r, UnpadBytes_from_S.
    rewrite lookup_total_app_r by lia.
    rewrite lookup_total_replicate_2 by lia.
    rewrite bool_decide_eq_true_2 by done.
    rewrite <- IH.
    rewrite replicate_S_end.
    rewrite app_assoc.
    apply UnpadBytes_from_app. rewrite length_app, length_replicate. lia.
Qed.

Lemma UnpadBytes_no_trailing_pad buf :
  last buf <> Some padByte -> UnpadBytes buf = string_of_bytes buf.
Proof.
  intros Hlast. unfold UnpadBytes.
  destruct (length buf) as [|i] eqn:Hlen.
  - by destruct buf.
  - simpl. rewrite last_lookup, Hlen in Hlast. simpl in Hlast.
    assert (buf !!! i <> padByte) as Hne.
    { intros Heq. apply Hlast. rewrite <- Heq.
      apply list_lookup_lookup_total_lt. lia. }
    rewrite bool_decide_eq_false_2 by done.
    by rewrite <- Hlen, firstn_all.
Qed.

(** The result of [UnpadBytes] is the prefix of the buffer that is left
    when its trailing pad bytes are taken off. *)
Lemma UnpadBytes_from_spec buf i :
  (i <= length buf)%nat ->
  exists j, (j <= i)%nat /\ UnpadBytes_from buf i = string_of_bytes (take j buf)
            /\ last (take j buf) <> Some padByte
            /\ take i buf = take j buf ++ replicate (i - j) padByte.
Proof.
  induction i as [|i IH]; intros Hi.
  - exists 0%nat. by rewrite take_0.
  - rewrite UnpadBytes_from_S. case_bool_decide as Hpad.
    + destruct IH as (j & Hj & -> & Hl & Htake); [lia|].
      exists j. split; [lia|]. split; [done|]. split; [done|].
      rewrite (take_S_r buf i padByte).
      * rewrite Htake, <- app_assoc. f_equal.
        replace (S i - j)%nat with (S (i - j)) by lia.
        by rewrite replicate_S_end.
      * rewrite <- Hpad. apply list_lookup_lookup_total_lt. lia.
    + exists (S i). split; [lia|]. split; [done|]. split.
      * rewrite last_lookup, length_take, Nat.min_l by lia. simpl.
        rewrite lookup_take_lt by lia.
        intros Heq. apply Hpad. by apply list_lookup_total_correct.
      * by rewrite Nat.sub_diag, app_nil_r.
Qed.

(** C10, as stated, fails: a string that is one pad byte is unpadded to
    the empty string. *)
Lemma PadString_UnpadBytes_counterexample :
  zlen (bytes_of_string pad_string) <= 16
  /\ exists buf, PadString pad_string 16 = Done buf /\ UnpadBytes buf <> pad_string.
Proof.
  split; [by vm_compute|].
  eexists. split; [reflexivity|]. by vm_compute.
Qed.

(** C10 (amended): for every string [s] of at most [n] bytes,
    [PadString s n] is [n] bytes long, starts with the bytes of [s], and
    every byte after them is the pad byte; [UnpadBytes] of it is [s]
    without its trailing pad bytes, so it never ends in the pad byte, and
    it is [s] itself exactly when [s] does not end in the pad byte. *)
Theorem PadString_UnpadBytes (s : string) (n : Z) :
  zlen (bytes_of_string s) <= n ->
  exists buf,
    PadString s n = Done buf
    /\ zlen buf = n
    /\ take (length (bytes_of_string s)) buf = bytes_of_string s
    /\ (forall i, (length (bytes_of_string s) <= i < Z.to_nat n)%nat ->
          buf !! i = Some padByte)
    /\ last (bytes_of_string (UnpadBytes buf)) <> Some padByte
    /\ (exists k, bytes_of_string s =
                    bytes_of_string (UnpadBytes buf) ++ replicate k padByte)
    /\ (UnpadBytes buf = s <-> last (bytes_of_string s) <> Some padByte).
Proof.
  intros Hn. eexists. split; [by apply PadString_eq|].
  set (l := bytes_of_string s) in *. set (k := Z.to_nat (n - zlen l)).
  assert (Forall is_byte l) as Hl by apply bytes_of_string_range.
  split; [subst k; unfold zlen in *; rewrite length_app, length_replicate; lia|].
  split; [by rewrite take_app_length|].
  split.
  { intros i Hi. rewrite lookup_app_r by lia.
    apply lookup_replicate_2. subst k. unfold zlen in *. lia. }
  rewrite UnpadBytes_pad_suffix. unfold UnpadBytes.
  destruct (UnpadBytes_from_spec l (length l)) as (j & Hj & Hu & Hlast & Htake);
    [done|].
  rewrite firstn_all in Htake.
  assert (bytes_of_string (UnpadBytes_from l (length l)) = take j l) as Hb.
  { rewrite Hu. apply bytes_of_string_of_bytes. by apply Forall_take. }
  split; [by rewrite Hb|].
  split; [exists (length l - j)%nat; by rewrite Hb|].
  split.
  - intros Heq Hp. apply Hlast. rewrite <- Hb, Heq. exact Hp.
  - intros Hnp. fold (UnpadBytes l).
    rewrite UnpadBytes_no_trailing_pad by done.
    apply string_of_bytes_of_string.
Qed.

Lemma PadString_UnpadBytes_witness :
  exists buf,
    PadString "DISK" 16 = Done buf
    /\ zlen buf = 16
    /\ take (length (bytes_of_string "DISK")) buf = bytes_of_string "DISK"
    /\ (forall i, (length (bytes_of_string "DISK") <= i < Z.to_nat 16)%nat ->
          buf !! i = Some padByte)
    /\ last (bytes_of_string (UnpadBytes buf)) <> Some padByte
    /\ (exists k, bytes_of_string "DISK" =
                    bytes_of_string (UnpadBytes buf) ++ replicate k padByte)
    /\ (UnpadBytes buf = "DISK" <-> last (bytes_of_string "DISK") <> Some padByte).
Proof. apply (PadString_UnpadBytes "DISK" 16). by vm_compute. Defined.

(** ** Geometry and addressing *)

#[local] Arguments geometry_Lookup : simpl never.

Ltac zcases :=
  repeat match goal with
    | |- context [?a <=? ?b] => destruct (Z.leb_spec a b)
    | |- context [?a <? ?b] => destruct (Z.ltb_spec a b)
    | |- context [?a =? ?b] => destruct (Z.eqb_spec a b)
    end; simpl in *.

(** The zone of a track, spelled out. *)
Lemma geometry_Lookup_cases t :
  geometry_Lookup geometry t =
    if (1 <=? t) && (t <=? 17) then Some (mkGeom 1 17 21 0)
    else if (18 <=? t) && (t <=? 24) then Some (mkGeom 18 24 19 357)
    else if (25 <=? t) && (t <=? 30) then Some (mkGeom 25 30 18 490)
    else if (31 <=? t) && (t <=? 40) then Some (mkGeom 31 40 17 598)
    else None.
Proof. reflexivity. Qed.

Lemma geometry_Lookup_Some t g :
  geometry_Lookup geometry t = Some g ->
  trackMin g <= t <= trackMax g /\ g ∈ geometry
  /\ 1 <= trackMin g /\ 17 <= sectorCount_of g <= 21.
Proof.
  rewrite geometry_Lookup_cases. unfold geometry.
  zcases; intros [= <-]; simpl; (split; [lia|split; [set_solver|lia]]).
Qed.

Lemma geometry_Lookup_None t :
  geometry_Lookup geometry t = None <-> t < 1 \/ 40 < t.
Proof.
  rewrite geometry_Lookup_cases. zcases; split; intros; try done; lia.
Qed.

Lemma valid_TS_zone ts :
  valid_TS ts ->
  exists g, geometry_Lookup geometry (T ts) = Some g
            /\ 1 <= T ts <= 40 /\ 0 <= Sec ts < sectorCount_of g.
Proof.
  intros ((Ht & _) & (Hs & _) & Hv). unfold TS_IsValid in Hv.
  destruct (geometry_Lookup geometry (T ts)) as [g|] eqn:Hg; [|done].
  exists g. split; [done|].
  apply Z.ltb_lt in Hv.
  assert (geometry_Lookup geometry (T ts) <> None) as Hn by congruence.
  rewrite geometry_Lookup_None in Hn. lia.
Qed.

Lemma TS_Offset_valid ts g :
  geometry_Lookup geometry (T ts) = Some g ->
  0 <= Sec ts < sectorCount_of g ->
  TS_Offset ts =
    Done (256 * (sectorOffset g + (T ts - trackMin g) * sectorCount_of g + Sec ts)).
Proof.
  intros Hg Hs. unfold TS_Offset. rewrite Hg.
  apply geometry_Lookup_Some in Hg as (Ht & _ & Hmin & _).
  destruct (Z.ltb_spec (T ts) 1); [lia|].
  destruct (Z.leb_spec (sectorCount_of g) (Sec ts)); [lia|].
  unfold blockSize. f_equal. lia.
Qed.

(** Every valid address is the address of exactly one of the 768 blocks
    that the four zones of [geometry] hold. *)
Lemma TS_Offset_block ts :
  valid_TS ts ->
  exists k, 0 <= k < 768 /\ TS_Offset ts = Done (256 * k) /\ TS_of_block k = ts.
Proof.
  intros Hv. destruct (valid_TS_zone ts Hv) as (g & Hg & Ht & Hs).
  rewrite (TS_Offset_valid ts g Hg Hs).
  destruct ts as [t s]. cbn [T Sec] in *.
  rewrite geometry_Lookup_cases in Hg. revert Hg.
  zcases; intros [= <-]; simpl in *; try lia;
    (eexists; split; [|split; [reflexivity|]]; [lia|]);
    unfold TS_of_block; zcases; try lia;
    f_equal; Z.div_mod_to_equations; lia.
Qed.

Lemma geometry_Lookup_zone g q :
  g ∈ geometry -> 0 <= q <= trackMax g - trackMin g ->
  geometry_Lookup geometry (trackMin g + q) = Some g.
Proof.
  intros Hg Hq. unfold geometry in Hg.
  repeat (apply elem_of_cons in Hg as [->|Hg]); [..|by apply elem_of_nil in Hg];
    cbn [trackMin trackMax] in *; rewrite geometry_Lookup_cases;
    zcases; try done; lia.
Qed.

(** The address of block [k], by zone. *)
Lemma TS_of_block_zone k :
  0 <= k < 768 ->
  exists g q r,
    TS_of_block k = mkTS (trackMin g + q) r
    /\ g ∈ geometry
    /\ 0 <= q <= trackMax g - trackMin g
    /\ 0 <= r < sectorCount_of g
    /\ k = sectorOffset g + q * sectorCount_of g + r.
Proof.
  intros Hk. unfold TS_of_block.
  destruct (Z.ltb_spec k 357);
    [|destruct (Z.ltb_spec k 490); [|destruct (Z.ltb_spec k 598)]].
  - exists (mkGeom 1 17 21 0), (k / 21), (k mod 21).
    cbn [trackMin trackMax sectorCount_of sectorOffset].
    split; [done|]. split; [apply list_elem_of_In; simpl; tauto|].
    Z.div_mod_to_equations; lia.
  - exists (mkGeom 18 24 19 357), ((k - 357) / 19), ((k - 357) mod 19).
    cbn [trackMin trackMax sectorCount_of sectorOffset].
    split; [done|]. split; [apply list_elem_of_In; simpl; tauto|].
    Z.div_mod_to_equations; lia.
  - exists (mkGeom 25 30 18 490), ((k - 490) / 18), ((k - 490) mod 18).
    cbn [trackMin trackMax sectorCount_of sectorOffset].
    split; [done|]. split; [apply list_elem_of_In; simpl; tauto|].
    Z.div_mod_to_equations; lia.
  - exists (mkGeom 31 40 17 598), ((k - 598) / 17), ((k - 598) mod 17).
    cbn [trackMin trackMax sectorCount_of sectorOffset].
    split; [done|]. split; [apply list_elem_of_In; simpl; tauto|].
    Z.div_mod_to_equations; lia.
Qed.

Lemma TS_of_block_valid k :
  0 <= k < 768 ->
  valid_TS (TS_of_block k) /\ TS_Offset (TS_of_block k) = Done (256 * k).
Proof.
  intros Hk.
  destruct (TS_of_block_zone k Hk) as (g & q & r & -> & Hg & Hq & Hr & ->).
  pose proof (geometry_Lookup_zone g q Hg Hq) as Hz.
  destruct (geometry_Lookup_Some _ _ Hz) as (Ht & _ & Hmin & Hsc).
  assert (trackMax g <= 40) as Hmax.
  { unfold geometry in Hg.
    repeat (apply elem_of_cons in Hg as [->|Hg]); [..|by apply elem_of_nil in Hg];
      simpl; lia. }
  split.
  - unfold valid_TS, TS_IsValid, is_byte. cbn [T Sec]. rewrite Hz.
    split; [lia|]. split; [lia|]. apply Z.ltb_lt. lia.
  - rewrite (TS_Offset_valid _ g) by (cbn [T Sec]; done || lia).
    cbn [T Sec]. f_equal. lia.
Qed.

(** C2, as stated, fails: track 36 is a valid track of the geometry table
    and its first block lies past offset 174592. *)
Lemma TS_Offset_bijection_counterexample :
  valid_TS (mkTS 36 0)
  /\ TS_Offset (mkTS 36 0) = Done 174848
  /\ ~ (exists k, 0 <= k <= 682 /\ 174848 = 256 * k).
Proof.
  split; [by vm_compute|]. split; [reflexivity|].
  intros (k & Hk & Heq). lia.
Qed.

(** C2 (amended): for every address with track in [1, 40] and sector below
    the sector count of the track's zone, [TS.Offset] succeeds with
    [256 * (sectorOffset + (track - trackMin) * sectorCount + sector)];
    the map is a bijection between the valid addresses and the multiples
    of 256 from 0 to 196352 (768 blocks, of which the image holds the
    first 683); for every other address of byte fields it fails with
    [BadTS]. *)
Theorem TS_Offset_bijection :
  (forall ts g,
      geometry_Lookup geometry (T ts) = Some g ->
      0 <= Sec ts < sectorCount_of g ->
      1 <= T ts <= 40
      /\ TS_Offset ts =
           Done (256 * (sectorOffset g + (T ts - trackMin g) * sectorCount_of g
                        + Sec ts)))
  /\ (forall ts, valid_TS ts ->
        exists k, 0 <= k <= 767 /\ TS_Offset ts = Done (256 * k))
  /\ (forall ts1 ts2 off,
        valid_TS ts1 -> valid_TS ts2 ->
        TS_Offset ts1 = Done off -> TS_Offset ts2 = Done off -> ts1 = ts2)
  /\ (forall k, 0 <= k <= 767 ->
        exists ts, valid_TS ts /\ TS_Offset ts = Done (256 * k))
  /\ (forall ts, is_byte (T ts) -> is_byte (Sec ts) ->
        (T ts < 1 \/ 40 < T ts
         \/ exists g, geometry_Lookup geometry (T ts) = Some g
                      /\ sectorCount_of g <= Sec ts) ->
        TS_Offset ts = Failed BadTS).
Proof.
  split; [|split; [|split; [|split]]].
  - intros ts g Hg Hs. split; [|by apply TS_Offset_valid].
    assert (geometry_Lookup geometry (T ts) <> None) as Hn by congruence.
    rewrite geometry_Lookup_None in Hn. lia.
  - intros ts Hv. destruct (TS_Offset_block ts Hv) as (k & Hk & Ho & _).
    exists k. split; [lia|done].
  - intros ts1 ts2 off Hv1 Hv2 H1 H2.
    destruct (TS_Offset_block ts1 Hv1) as (k1 & _ & Ho1 & <-).
    destruct (TS_Offset_block ts2 Hv2) as (k2 & _ & Ho2 & <-).
    rewrite Ho1 in H1. rewrite Ho2 in H2.
    f_equal. injection H1. injection H2. lia.
  - intros k Hk. exists (TS_of_block k). apply TS_of_block_valid. lia.
  - intros [t s] [Ht _] [Hs _] Hbad. simpl in *. unfold TS_Offset. simpl.
    destruct (Z.ltb_spec t 1); [done|].
    destruct Hbad as [Hlo | [Hhi | (g & Hg & Hsc)]]; [lia| |].
    + assert (geometry_Lookup geometry t = None) as ->; [|done].
      apply geometry_Lookup_None. lia.
    + rewrite Hg. by destruct (Z.leb_spec (sectorCount_of g) s); [|lia].
Qed.

Lemma TS_Offset_bijection_witness :
  1 <= T (mkTS 18 1) <= 40
  /\ TS_Offset (mkTS 18 1) =
       Done (256 * (sectorOffset (mkGeom 18 24 19 357)
                    + (T (mkTS 18 1) - trackMin (mkGeom 18 24 19 357))
                      * sectorCount_of (mkGeom 18 24 19 357)
                    + Sec (mkTS 18 1))).
Proof.
  apply (proj1 TS_Offset_bijection (mkTS 18 1) (mkGeom 18 24 19 357)).
  - reflexivity.
  - simpl; lia.
Defined.

(** ** The default track policy *)

(** C4, as stated, fails: the walk upward stops at track 35, the last
    track of the image; from there the policy turns to track 17. *)
Lemma defaultNextTrack_counterexample :
  defaultNextTrack 35 = 17 /\ defaultNextTrack 35 <> 36.
Proof. by vm_compute. Qed.

(** C4 (amended): from the allocator's first track 19, the track after
    the BAM track 18, the default policy walks upward one track at a time
    to track 35; once past it, it walks inward from track 17 down to
    track 1; it returns 0 when both directions are exhausted. *)
Theorem defaultNextTrack_walk :
  T (a_TS (BAM_NewAllocator 0)) = 19
  /\ NextTrack (BAM_NewAllocator 0) = defaultNextTrack
  /\ track_walk 256 defaultNextTrack 19 = seqZ 19 17 ++ reverse (seqZ 1 17)
  /\ (forall prev, 19 <= prev < 35 -> defaultNextTrack prev = prev + 1)
  /\ (forall prev, 35 <= prev < 255 -> defaultNextTrack prev = 17)
  /\ (forall prev, 2 <= prev <= 18 -> defaultNextTrack prev = prev - 1)
  /\ defaultNextTrack 1 = 0.
Proof.
  split; [reflexivity|]. split; [reflexivity|]. split; [by vm_compute|].
  unfold defaultNextTrack, bamTrack, totalTrackCount, u8.
  repeat split; intros; zcases; Z.div_mod_to_equations; lia.
Qed.

Lemma defaultNextTrack_walk_witness :
  defaultNextTrack 34 = 34 + 1 /\ defaultNextTrack 40 = 17
  /\ defaultNextTrack 18 = 18 - 1.
Proof.
  destruct defaultNextTrack_walk as (_ & _ & _ & Hup & Hturn & Hdown & _).
  split; [apply Hup; lia|]. split; [apply Hturn; lia|apply Hdown; lia].
Defined.

(** ** Reading and writing the image *)

Lemma zlen_nonneg {A} (l : list A) : 0 <= zlen l.
Proof. unfold zlen. lia. Qed.

Lemma zlen_poke d p v : zlen (poke d p v) = zlen d.
Proof. unfold zlen, poke. by rewrite length_insert. Qed.

Lemma zlen_copy_to d p cap src : zlen (copy_to d p cap src) = zlen d.
Proof. unfold zlen, copy_to. by rewrite length_inserts. Qed.

Lemma zlen_pokeTS d p ts : zlen (pokeTS d p ts) = zlen d.
Proof. unfold pokeTS. by rewrite !zlen_poke. Qed.

Lemma peek_poke_eq d p v : 0 <= p < zlen d -> peek (poke d p v) p = v.
Proof.
  intros Hp. unfold peek, poke, zlen in *.
  apply list_lookup_total_insert_eq. lia.
Qed.

Lemma peek_poke_ne d p q v :
  0 <= p -> 0 <= q -> p <> q -> peek (poke d p v) q = peek d q.
Proof.
  intros Hp Hq Hne. unfold peek, poke.
  apply list_lookup_total_insert_ne. lia.
Qed.

Lemma peek_copy_to_out d p cap src q :
  0 <= p -> 0 <= q -> (q < p \/ p + Z.min cap (zlen src) <= q) ->
  peek (copy_to d p cap src) q = peek d q.
Proof.
  intros Hp Hq Hout. unfold peek, copy_to, zlen in *.
  destruct (decide (q < p)).
  - apply list_lookup_total_inserts_lt. lia.
  - apply list_lookup_total_inserts_ge. rewrite length_take. lia.
Qed.

Lemma peek_copy_to_in d p cap src q :
  0 <= p -> p <= q < p + Z.min cap (zlen src) -> q < zlen d ->
  peek (copy_to d p cap src) q = src !!! Z.to_nat (q - p).
Proof.
  intros Hp Hin Hlen. unfold peek, copy_to, zlen in *.
  rewrite list_lookup_total_inserts by (rewrite ?length_take; lia).
  rewrite lookup_total_take_lt by lia.
  f_equal. lia.
Qed.

Lemma peek_pokeTS_out d p ts q :
  0 <= p -> 0 <= q -> q <> p -> q <> p + 1 ->
  peek (pokeTS d p ts) q = peek d q.
Proof.
  intros. unfold pokeTS. rewrite !peek_poke_ne by lia. done.
Qed.

Lemma peekTS_pokeTS d p ts :
  0 <= p -> p + 1 < zlen d -> peekTS (pokeTS d p ts) p = ts.
Proof.
  intros Hp Hlen. unfold peekTS, pokeTS. destruct ts as [t s]; simpl.
  rewrite peek_poke_ne, !peek_poke_eq by (rewrite ?zlen_poke; lia). done.
Qed.

Lemma zlen_slice_at d p n :
  0 <= p -> 0 <= n -> p + n <= zlen d -> zlen (slice_at d p n) = n.
Proof.
  intros. unfold zlen, slice_at in *. rewrite length_take, length_drop. lia.
Qed.

Lemma slice_at_lookup d p n k :
  0 <= p -> 0 <= k < n -> slice_at d p n !!! Z.to_nat k = peek d (p + k).
Proof.
  intros Hp Hk. unfold slice_at, peek.
  rewrite lookup_total_take_lt by lia.
  rewrite lookup_total_drop. f_equal. lia.
Qed.

(** Two byte lists of one length are equal when they agree index by
    index. *)
Lemma list_eq_total (l1 l2 : list Z) :
  length l1 = length l2 ->
  (forall i, (i < length l1)%nat -> l1 !!! i = l2 !!! i) ->
  l1 = l2.
Proof.
  intros Hlen Hi. apply list_eq_same_length with (length l1); [done..|].
  intros i x y Hlt H1 H2.
  specialize (Hi i Hlt).
  rewrite (list_lookup_total_correct _ _ _ H1) in Hi.
  rewrite (list_lookup_total_correct _ _ _ H2) in Hi. done.
Qed.

Lemma slice_at_ext d d' p n :
  0 <= p -> 0 <= n -> p + n <= zlen d -> zlen d' = zlen d ->
  (forall q, p <= q < p + n -> peek d' q = peek d q) ->
  slice_at d' p n = slice_at d p n.
Proof.
  intros Hp Hn Hlen Hlen' Hq.
  apply list_eq_total.
  - pose proof (zlen_slice_at d p n). pose proof (zlen_slice_at d' p n).
    unfold zlen in *. lia.
  - intros i Hi.
    assert (Z.of_nat i < n) as Hin.
    { pose proof (zlen_slice_at d' p n). unfold zlen in *. lia. }
    replace i with (Z.to_nat (Z.of_nat i)) by lia.
    rewrite !slice_at_lookup by lia. apply Hq. lia.
Qed.

Lemma slice_at_copy_to d p cap src n :
  zlen src = n -> 0 <= p -> n <= cap -> p + n <= zlen d ->
  slice_at (copy_to d p cap src) p n = src.
Proof.
  intros <- Hp Hcap Hlen.
  apply list_eq_total.
  - pose proof (zlen_slice_at (copy_to d p cap src) p (zlen src)) as Hl.
    rewrite zlen_copy_to in Hl. unfold zlen in *. lia.
  - intros i Hi.
    assert (Z.of_nat i < zlen src) as Hin.
    { pose proof (zlen_slice_at (copy_to d p cap src) p (zlen src)) as Hl.
      rewrite zlen_copy_to in Hl. unfold zlen in *. lia. }
    replace i with (Z.to_nat (Z.of_nat i)) at 1 by lia.
    rewrite slice_at_lookup by lia.
    rewrite peek_copy_to_in by lia. f_equal. lia.
Qed.

Lemma zlen_Img_zero : zlen Img_zero = totalByteCount.
Proof.
  unfold zlen, Img_zero. rewrite length_replicate.
  apply Z2Nat.id. by vm_compute.
Qed.

Lemma peek_Img_zero q : 0 <= q < totalByteCount -> peek Img_zero q = 0.
Proof.
  intros Hq. unfold peek, Img_zero. apply lookup_total_replicate_2. lia.
Qed.

(** ** The block availability map *)

Lemma u8_small x : 0 <= x < 256 -> u8 x = x.
Proof. intros. unfold u8. apply Z.mod_small. lia. Qed.

Lemma geometry_at_zone_index i :
  0 <= i <= 40 ->
  exists g, geometry_at (zone_index i) = Done g
            /\ (1 <= i -> geometry_Lookup geometry i = Some g)
            /\ (i = 0 -> g = mkGeom 1 17 21 0).
Proof.
  intros Hi. unfold zone_index. rewrite geometry_Lookup_cases.
  zcases; (eexists; split; [reflexivity|]); (split; [intros; try done; lia|]);
    intros; try done; lia.
Qed.

Lemma zone_index_step i g :
  0 <= i < 40 ->
  geometry_at (zone_index i) = Done g ->
  (if trackMax g <? u8 (i + 1) then S (zone_index i) else zone_index i)
  = zone_index (i + 1).
Proof.
  intros Hi. rewrite u8_small by lia. unfold zone_index.
  destruct (Z.leb_spec i 17); [|destruct (Z.leb_spec i 24);
    [|destruct (Z.leb_spec i 30)]];
    intros [= <-]; cbn [trackMax]; zcases; try done; lia.
Qed.

Lemma zone_sectors_range t : 1 <= t <= 40 -> 17 <= zone_sectors t <= 21.
Proof.
  intros Ht. unfold zone_sectors.
  destruct (geometry_Lookup geometry t) as [g|] eqn:Hg.
  - by apply geometry_Lookup_Some in Hg as (_ & _ & _ & ?).
  - apply geometry_Lookup_None in Hg. lia.
Qed.

(** The loop of [BAM.Init] sets the entries [i .. i + n - 1] and nothing
    else. *)
Lemma BAM_Init_loop_spec n : forall bam i d,
  0 <= bam -> 0 <= i -> i + Z.of_nat n <= 35 -> bam + 144 <= zlen d ->
  exists d',
    BAM_Init_loop n bam i (zone_index i) d = Done d'
    /\ zlen d' = zlen d
    /\ (forall q, 0 <= q ->
          q < BAM_AvailMap_at bam i \/ BAM_AvailMap_at bam (i + Z.of_nat n) <= q ->
          peek d' q = peek d q)
    /\ (forall k, i <= k < i + Z.of_nat n ->
          let ent := BAM_AvailMap_at bam k in
          peek d' (BAMEntry_Count ent) = zone_sectors (k + 1)
          /\ peek d' (BAMEntry_free ent 0) = 255
          /\ peek d' (BAMEntry_free ent 1) = 255
          /\ peek d' (BAMEntry_free ent 2) = 255).
Proof.
  induction n as [|n IH]; intros bam i d Hbam Hi Hn Hlen.
  - exists d. repeat split; try done; intros; lia.
  - cbn [BAM_Init_loop].
    destruct (geometry_at_zone_index i) as (g & Hgi & _); [lia|].
    rewrite Hgi. cbn [mbind outcome_bind].
    rewrite (zone_index_step i g ltac:(lia) Hgi).
    destruct (geometry_at_zone_index (i + 1)) as (g1 & -> & Hg1 & _); [lia|].
    cbn [mbind outcome_bind].
    unfold BAM_AvailMap_at, BAMEntry_Count, BAMEntry_free, BAM_AvailMap in *.
    set (ent := bam + 4 + 4 * i) in *.
    set (d1 := poke (poke (poke (poke d ent (sectorCount_of g1))
                           (ent + 1 + 0) 255) (ent + 1 + 1) 255)
                     (ent + 1 + 2) 255).
    destruct (IH bam (i + 1) d1) as (d' & Hrun & Hlen' & Hout & Hin);
      [lia | lia | lia | unfold d1; rewrite !zlen_poke; lia |].
    exists d'. split; [exact Hrun|].
    assert (zlen d1 = zlen d) as Hl1 by (unfold d1; by rewrite !zlen_poke).
    split; [lia|]. split.
    + intros q Hq Hqout. rewrite Hout by (subst ent; lia).
      unfold d1. rewrite !peek_poke_ne by (subst ent; lia). done.
    + intros k Hk. destruct (decide (k = i)) as [->|Hne].
      * fold ent. rewrite !Hout by (subst ent; lia). unfold d1.
        assert (zone_sectors (i + 1) = sectorCount_of g1) as ->.
        { unfold zone_sectors. rewrite Hg1 by lia. done. }
        repeat split;
          repeat first [ rewrite peek_poke_eq by (rewrite ?zlen_poke; subst ent; lia)
                       | rewrite peek_poke_ne by (subst ent; lia) ]; done.
      * apply Hin. lia.
Qed.

(** What [BAM.Init] leaves in the image. *)
Lemma BAM_Init_spec d bam name id :
  0 <= bam -> bam + 256 <= zlen d ->
  zlen (bytes_of_string name) <= 16 -> zlen (bytes_of_string id) = 2 ->
  exists d',
    BAM_Init d bam name id = Done d'
    /\ zlen d' = zlen d
    /\ (forall q, 0 <= q -> q < bam + 2 \/ q = bam + 3 \/ bam + 169 <= q ->
          peek d' q = peek d q)
    /\ peek d' (bam + BAM_DriveFormat) = bamDriveFormat1541
    /\ (forall k, 0 <= k < 35 ->
          let ent := BAM_AvailMap_at bam k in
          peek d' (BAMEntry_Count ent) = zone_sectors (k + 1)
          /\ peek d' (BAMEntry_free ent 0) = 255
          /\ peek d' (BAMEntry_free ent 1) = 255
          /\ peek d' (BAMEntry_free ent 2) = 255)
    /\ slice_at d' (bam + BAM_DiskName) 16 =
         bytes_of_string name
           ++ replicate (Z.to_nat (16 - zlen (bytes_of_string name))) padByte.
Proof.
  intros Hbam Hlen Hname Hid. unfold BAM_Init.
  destruct (Z.ltb_spec 16 (zlen (bytes_of_string name))); [lia|].
  rewrite Hid. cbn [Z.eqb Pos.eqb negb].
  set (d0 := poke d (bam + BAM_DriveFormat) bamDriveFormat1541).
  destruct (BAM_Init_loop_spec (Z.to_nat totalTrackCount) bam 0 d0)
    as (d1 & Hrun & Hl1 & Hout & Hin);
    [lia | lia | unfold totalTrackCount; lia
     | unfold d0; rewrite zlen_poke; lia |].
  change (zone_index 0) with 0%nat in Hrun. rewrite Hrun.
  cbn [mbind outcome_bind].
  rewrite (PadString_eq name 16) by lia.
  rewrite (PadString_eq id 3) by lia.
  rewrite (PadString_eq bamDOSVersion 6) by (by vm_compute).
  cbn [mbind outcome_bind].
  set (pname := bytes_of_string name ++ _).
  set (pid := bytes_of_string id ++ _).
  set (pver := bytes_of_string bamDOSVersion ++ _).
  assert (zlen pname = 16) as Hpn.
  { subst pname. unfold zlen in *. rewrite length_app, length_replicate. lia. }
  assert (zlen pid = 3) as Hpi.
  { subst pid. unfold zlen in *. rewrite length_app, length_replicate. lia. }
  assert (zlen pver = 6) as Hpv by (by vm_compute).
  assert (zlen d0 = zlen d) as Hl0 by (unfold d0; by rewrite zlen_poke).
  unfold BAM_DriveFormat, BAM_DiskName, BAM_DiskID, BAM_DOSVersion,
    BAM_AvailMap_at, BAM_AvailMap, BAMEntry_Count, BAMEntry_free,
    totalTrackCount in *.
  eexists. split; [reflexivity|].
  split; [rewrite !zlen_copy_to; lia|].
  split.
  { intros q Hq Hqout.
    rewrite !peek_copy_to_out by lia.
    rewrite Hout by lia. unfold d0. by rewrite peek_poke_ne by lia. }
  split.
  { rewrite !peek_copy_to_out by lia.
    rewrite Hout by lia. unfold d0. by rewrite peek_poke_eq by lia. }
  split.
  { intros k Hk. cbn zeta.
    rewrite !peek_copy_to_out by lia. apply Hin. lia. }
  rewrite <- (slice_at_copy_to d1 (bam + 144) 16 pname 16) at 2 by lia.
  apply slice_at_ext; rewrite ?zlen_copy_to; try lia.
  intros q Hq. by rewrite !(peek_copy_to_out _ _ _ _ q) by lia.
Qed.

Lemma BAM_Init_Done d bam name id d' :
  BAM_Init d bam name id = Done d' ->
  zlen (bytes_of_string name) <= 16 /\ zlen (bytes_of_string id) = 2.
Proof.
  unfold BAM_Init.
  destruct (Z.ltb_spec 16 (zlen (bytes_of_string name))); [done|].
  destruct (Z.eqb_spec (zlen (bytes_of_string id)) 2); [|done].
  intros _. lia.
Qed.

Lemma BAM_Entry_valid bam ts :
  1 <= T ts < 35 -> Sec ts < 32 ->
  BAM_Entry bam ts = Done (Some (BAM_AvailMap_at bam (T ts - 1))).
Proof.
  intros Ht Hs. unfold BAM_Entry, totalTrackCount.
  rewrite u8_small by lia. by zcases; try lia.
Qed.

Lemma BAM_Entry_Some bam ts ent :
  is_byte (T ts) -> BAM_Entry bam ts = Done (Some ent) ->
  1 <= T ts < 35 /\ Sec ts < 32 /\ ent = BAM_AvailMap_at bam (T ts - 1).
Proof.
  intros Ht. unfold BAM_Entry, totalTrackCount, is_byte in *.
  destruct (Z.leb_spec 35 (T ts)); [done|].
  destruct (Z.leb_spec 32 (Sec ts)); [done|].
  destruct (decide (T ts = 0)) as [->|Hne]; [done|].
  rewrite u8_small by lia.
  destruct (Z.ltb_spec (T ts - 1) 35); [|done].
  intros [= <-]. lia.
Qed.

Lemma bit_mask_pow2 ts :
  is_byte (Sec ts) -> bit_mask ts = 2 ^ (Sec ts mod 8).
Proof.
  intros Hs. unfold bit_mask. rewrite Z.shiftl_1_l.
  apply u8_small.
  assert (0 <= Sec ts mod 8 < 8) as Hm by (apply Z.mod_pos_bound; lia).
  split; [apply Z.pow_nonneg; lia|].
  apply Z.lt_le_trans with (2 ^ 8); [|done].
  apply Z.pow_lt_mono_r; lia.
Qed.

Lemma land_pow2 x m :
  0 <= m -> Z.land x (2 ^ m) = if Z.testbit x m then 2 ^ m else 0.
Proof.
  intros Hm. apply Z.bits_inj'. intros k Hk.
  rewrite Z.land_spec, Z.pow2_bits_eqb by lia.
  destruct (Z.eqb_spec m k) as [->|Hne].
  - destruct (Z.testbit x k); [|by rewrite Z.bits_0].
    by rewrite Z.pow2_bits_true by lia.
  - rewrite andb_false_r.
    destruct (Z.testbit x m); [|by rewrite Z.bits_0].
    by rewrite Z.pow2_bits_false by lia.
Qed.

Lemma land_pow2_pos x m :
  0 <= m -> (0 <? Z.land x (2 ^ m)) = Z.testbit x m.
Proof.
  intros Hm. rewrite land_pow2 by done.
  assert (0 < 2 ^ m) by (apply Z.pow_pos_nonneg; lia).
  destruct (Z.testbit x m); [by apply Z.ltb_lt|done].
Qed.

Lemma land_pow2_zero x m :
  0 <= m -> (Z.land x (2 ^ m) =? 0) = negb (Z.testbit x m).
Proof.
  intros Hm. rewrite land_pow2 by done.
  assert (0 < 2 ^ m) by (apply Z.pow_pos_nonneg; lia).
  destruct (Z.testbit x m); [apply Z.eqb_neq; lia|done].
Qed.

Ltac bit_cases m :=
  let H := fresh in
  assert (m = 0 \/ m = 1 \/ m = 2 \/ m = 3 \/ m = 4 \/ m = 5 \/ m = 6 \/ m = 7)
    as H by lia;
  destruct H as [->|[->|[->|[->|[->|[->|[->| ->]]]]]]].

Lemma popcount8_range x : 0 <= popcount8 x <= 8.
Proof.
  unfold popcount8.
  repeat match goal with
    | |- context [Z.testbit x ?k] => destruct (Z.testbit x k)
    end; simpl; lia.
Qed.

Lemma popcount8_lxor x m :
  0 <= m < 8 -> Z.testbit x m = true ->
  popcount8 (Z.lxor x (2 ^ m)) = popcount8 x - 1.
Proof.
  intros Hm Hx. unfold popcount8.
  rewrite !Z.lxor_spec, !Z.pow2_bits_eqb by lia.
  bit_cases m; rewrite Hx; cbn [Z.eqb Pos.eqb];
    rewrite ?xorb_false_r; cbn [xorb negb Z.b2z]; lia.
Qed.

Lemma popcount8_lor x m :
  0 <= m < 8 -> Z.testbit x m = false ->
  popcount8 (Z.lor x (2 ^ m)) = popcount8 x + 1.
Proof.
  intros Hm Hx. unfold popcount8.
  rewrite !Z.lor_spec, !Z.pow2_bits_eqb by lia.
  bit_cases m; rewrite Hx; cbn [Z.eqb Pos.eqb];
    rewrite ?orb_false_r; cbn [orb Z.b2z]; lia.
Qed.

Lemma popcount8_testbit x m :
  0 <= m < 8 ->
  (Z.testbit x m = true -> 1 <= popcount8 x)
  /\ (Z.testbit x m = false -> popcount8 x <= 7).
Proof.
  intros Hm. unfold popcount8.
  split; intros Hx; bit_cases m; rewrite Hx;
    repeat match goal with
      | |- context [Z.testbit x ?k] => destruct (Z.testbit x k)
      end; simpl; lia.
Qed.

(** [BAM.Alloc] on an address that has an entry and a bitmap byte. *)
Lemma BAM_Alloc_eq d bam ts :
  1 <= T ts < 35 -> 0 <= Sec ts < 24 ->
  BAM_Alloc d bam ts =
    let ent := BAM_AvailMap_at bam (T ts - 1) in
    let b := BAMEntry_free ent (Sec ts / 8) in
    let m := Sec ts mod 8 in
    if peek d (BAMEntry_Count ent) =? 0 then Failed ErrCountZero
    else if Z.testbit (peek d b) m then
      let d1 := poke d b (Z.lxor (peek d b) (2 ^ m)) in
      Done (poke d1 (BAMEntry_Count ent) (u8 (peek d1 (BAMEntry_Count ent) - 1)))
    else Failed BAMConflict.
Proof.
  intros Ht Hs. unfold BAM_Alloc.
  rewrite BAM_Entry_valid by lia. cbn [mbind outcome_bind].
  cbn zeta. destruct (_ =? 0); [done|].
  unfold BAMEntry_free_get, bit_index.
  assert (Sec ts / 8 < 3) by (Z.div_mod_to_equations; lia).
  destruct (Z.ltb_spec (Sec ts / 8) 3); [|lia].
  cbn [mbind outcome_bind].
  rewrite bit_mask_pow2 by (unfold is_byte; lia).
  assert (0 <= Sec ts mod 8) by (apply Z.mod_pos_bound; lia).
  rewrite land_pow2_zero by done.
  by destruct (Z.testbit _ _).
Qed.

(** [BAM.Alloc] at an address whose entry and bitmap byte are known. *)
Lemma BAM_Alloc_step d bam ts ent b m c x :
  1 <= T ts < 35 -> 0 <= Sec ts < 24 ->
  ent = bam + 4 + 4 * (T ts - 1) -> b = ent + 1 + Sec ts / 8 ->
  m = Sec ts mod 8 ->
  0 <= ent -> b < zlen d ->
  peek d ent = c -> c <> 0 -> peek d b = x -> Z.testbit x m = true ->
  BAM_Alloc d bam ts = Done (poke (poke d b (Z.lxor x (2 ^ m))) ent (u8 (c - 1))).
Proof.
  intros Ht Hs -> -> -> Hent Hb Hc Hc0 Hx Hbit.
  rewrite BAM_Alloc_eq by done. cbn zeta.
  unfold BAM_AvailMap_at, BAM_AvailMap, BAMEntry_Count, BAMEntry_free.
  rewrite Hc, Hx, Hbit.
  destruct (Z.eqb_spec c 0); [done|].
  assert (0 <= Sec ts / 8) by (Z.div_mod_to_equations; lia).
  by rewrite peek_poke_ne, Hc by lia.
Qed.

Lemma BAM_Free_eq d bam ts :
  1 <= T ts < 35 -> 0 <= Sec ts < 24 ->
  BAM_Free d bam ts =
    let ent := BAM_AvailMap_at bam (T ts - 1) in
    let b := BAMEntry_free ent (Sec ts / 8) in
    let m := Sec ts mod 8 in
    if Z.testbit (peek d b) m then Failed BAMConflict
    else
      let d1 := poke d b (Z.lor (peek d b) (2 ^ m)) in
      Done (poke d1 (BAMEntry_Count ent) (u8 (peek d1 (BAMEntry_Count ent) + 1))).
Proof.
  intros Ht Hs. unfold BAM_Free.
  rewrite BAM_Entry_valid by lia. cbn [mbind outcome_bind].
  cbn zeta. unfold BAMEntry_free_get, bit_index.
  assert (Sec ts / 8 < 3) by (Z.div_mod_to_equations; lia).
  destruct (Z.ltb_spec (Sec ts / 8) 3); [|lia].
  cbn [mbind outcome_bind].
  rewrite bit_mask_pow2 by (unfold is_byte; lia).
  assert (0 <= Sec ts mod 8) by (apply Z.mod_pos_bound; lia).
  rewrite land_pow2_pos by done.
  by destruct (Z.testbit _ _).
Qed.

Lemma BAM_Avail_eq d bam ts :
  1 <= T ts < 35 -> 0 <= Sec ts < 24 ->
  BAM_Avail d bam ts =
    Done (Z.testbit
            (peek d (BAMEntry_free (BAM_AvailMap_at bam (T ts - 1)) (Sec ts / 8)))
            (Sec ts mod 8)).
Proof.
  intros Ht Hs. unfold BAM_Avail.
  rewrite BAM_Entry_valid by lia. cbn [mbind outcome_bind].
  unfold BAMEntry_free_get, bit_index.
  assert (Sec ts / 8 < 3) by (Z.div_mod_to_equations; lia).
  destruct (Z.ltb_spec (Sec ts / 8) 3); [|lia].
  cbn [mbind outcome_bind].
  rewrite bit_mask_pow2 by (unfold is_byte; lia).
  assert (0 <= Sec ts mod 8) by (apply Z.mod_pos_bound; lia).
  by rewrite land_pow2_pos by done.
Qed.

(** A call of [BAM.Alloc], [BAM.Free] or [BAM.Avail] that returns normally
    was given a track below 35 and a sector below 24. *)
Lemma BAM_Alloc_Done_range d bam ts d' :
  TS_bytes ts -> BAM_Alloc d bam ts = Done d' ->
  1 <= T ts < 35 /\ 0 <= Sec ts < 24.
Proof.
  intros [Ht Hs]. unfold BAM_Alloc.
  destruct (BAM_Entry bam ts) as [[ent|]| | |] eqn:He; try done.
  apply BAM_Entry_Some in He as (Htr & Hsr & ->); [|done].
  cbn [mbind outcome_bind]. destruct (_ =? 0); [done|].
  unfold BAMEntry_free_get, bit_index.
  destruct (Z.ltb_spec (Sec ts / 8) 3); [|done].
  intros _. unfold is_byte in *. split; [lia|].
  Z.div_mod_to_equations; lia.
Qed.

Lemma BAM_Free_Done_range d bam ts d' :
  TS_bytes ts -> BAM_Free d bam ts = Done d' ->
  1 <= T ts < 35 /\ 0 <= Sec ts < 24.
Proof.
  intros [Ht Hs]. unfold BAM_Free.
  destruct (BAM_Entry bam ts) as [[ent|]| | |] eqn:He; try done.
  apply BAM_Entry_Some in He as (Htr & Hsr & ->); [|done].
  cbn [mbind outcome_bind].
  unfold BAMEntry_free_get, bit_index.
  destruct (Z.ltb_spec (Sec ts / 8) 3); [|done].
  intros _. unfold is_byte in *. split; [lia|].
  Z.div_mod_to_equations; lia.
Qed.

(** The bytes of an entry other than the one a store goes to. *)
Lemma BAMEntry_popcount_ext d d' ent :
  (forall k, 0 <= k < 3 ->
     peek d' (BAMEntry_free ent k) = peek d (BAMEntry_free ent k)) ->
  BAMEntry_popcount d' ent = BAMEntry_popcount d ent.
Proof.
  intros H. unfold BAMEntry_popcount. by rewrite !H by lia.
Qed.

(** One bitmap byte of an entry changes its population count by [delta]. *)
Lemma BAMEntry_popcount_update d d' ent b delta :
  0 <= b < 3 ->
  popcount8 (peek d' (BAMEntry_free ent b))
  = popcount8 (peek d (BAMEntry_free ent b)) + delta ->
  (forall k, 0 <= k < 3 -> k <> b ->
     peek d' (BAMEntry_free ent k) = peek d (BAMEntry_free ent k)) ->
  BAMEntry_popcount d' ent = BAMEntry_popcount d ent + delta.
Proof.
  intros Hb Hpc Hother. unfold BAMEntry_popcount.
  assert (b = 0 \/ b = 1 \/ b = 2) as [->|[->| ->]] by lia;
    rewrite Hpc, !Hother by lia; lia.
Qed.

(** The effect of a [BAM.Alloc] that returns normally: it clears the bit
    of the sector, takes one off the count of the track, and stores
    nothing outside the four bytes of the entry. *)
Lemma BAM_Alloc_effect d bam ts d' :
  0 <= bam -> bam + 144 <= zlen d -> TS_bytes ts ->
  BAM_Alloc d bam ts = Done d' ->
  let ent := BAM_AvailMap_at bam (T ts - 1) in
  1 <= T ts < 35 /\ 0 <= Sec ts < 24
  /\ zlen d' = zlen d
  /\ (forall q, 0 <= q -> q < ent \/ ent + 4 <= q -> peek d' q = peek d q)
  /\ peek d (BAMEntry_Count ent) <> 0
  /\ peek d' (BAMEntry_Count ent) = u8 (peek d (BAMEntry_Count ent) - 1)
  /\ BAMEntry_popcount d' ent = BAMEntry_popcount d ent - 1
  /\ BAM_Avail d bam ts = Done true
  /\ BAM_Avail d' bam ts = Done false.
Proof.
  intros Hbam Hlen Hb Hrun.
  destruct (BAM_Alloc_Done_range _ _ _ _ Hb Hrun) as [Ht Hs].
  rewrite BAM_Alloc_eq in Hrun by done. cbn zeta in *.
  rewrite !BAM_Avail_eq by done.
  unfold BAM_AvailMap_at, BAM_AvailMap, BAMEntry_Count, BAMEntry_free in *.
  set (ent := bam + 4 + 4 * (T ts - 1)) in *.
  assert (0 <= Sec ts / 8 < 3) as Hi by (Z.div_mod_to_equations; lia).
  assert (0 <= Sec ts mod 8 < 8) as Hm by (apply Z.mod_pos_bound; lia).
  set (i := Sec ts / 8) in *. set (m := Sec ts mod 8) in *.
  destruct (Z.eqb_spec (peek d ent) 0) as [|Hc]; [done|].
  destruct (Z.testbit (peek d (ent + 1 + i)) m) eqn:Hbit; [|done].
  injection Hrun as <-.
  assert (ent + 4 <= zlen d) by (subst ent; lia).
  assert (0 <= ent) by (subst ent; lia).
  split; [done|]. split; [done|].
  split; [by rewrite !zlen_poke|].
  split; [intros q Hq Hout; by rewrite !peek_poke_ne by lia|].
  split; [done|].
  split.
  { rewrite peek_poke_eq by (rewrite zlen_poke; lia).
    by rewrite peek_poke_ne by lia. }
  split.
  { apply (BAMEntry_popcount_update _ _ ent i (-1)); [done| |].
    - unfold BAMEntry_free. rewrite peek_poke_ne by lia.
      rewrite peek_poke_eq by lia. rewrite popcount8_lxor by done. lia.
    - intros k Hk Hne. unfold BAMEntry_free.
      by rewrite !peek_poke_ne by lia. }
  split; [done|].
  rewrite peek_poke_ne by lia. rewrite peek_poke_eq by lia.
  rewrite Z.lxor_spec, Hbit, Z.pow2_bits_true by lia. done.
Qed.

Lemma BAM_Free_effect d bam ts d' :
  0 <= bam -> bam + 144 <= zlen d -> TS_bytes ts ->
  BAM_Free d bam ts = Done d' ->
  let ent := BAM_AvailMap_at bam (T ts - 1) in
  1 <= T ts < 35 /\ 0 <= Sec ts < 24
  /\ zlen d' = zlen d
  /\ (forall q, 0 <= q -> q < ent \/ ent + 4 <= q -> peek d' q = peek d q)
  /\ peek d' (BAMEntry_Count ent) = u8 (peek d (BAMEntry_Count ent) + 1)
  /\ BAMEntry_popcount d' ent = BAMEntry_popcount d ent + 1
  /\ BAMEntry_popcount d ent <= 23.
Proof.
  intros Hbam Hlen Hb Hrun.
  destruct (BAM_Free_Done_range _ _ _ _ Hb Hrun) as [Ht Hs].
  rewrite BAM_Free_eq in Hrun by done. cbn zeta in *.
  unfold BAM_AvailMap_at, BAM_AvailMap, BAMEntry_Count, BAMEntry_free in *.
  set (ent := bam + 4 + 4 * (T ts - 1)) in *.
  assert (0 <= Sec ts / 8 < 3) as Hi by (Z.div_mod_to_equations; lia).
  assert (0 <= Sec ts mod 8 < 8) as Hm by (apply Z.mod_pos_bound; lia).
  set (i := Sec ts / 8) in *. set (m := Sec ts mod 8) in *.
  destruct (Z.testbit (peek d (ent + 1 + i)) m) eqn:Hbit; [done|].
  injection Hrun as <-.
  assert (ent + 4 <= zlen d) by (subst ent; lia).
  assert (0 <= ent) by (subst ent; lia).
  split; [done|]. split; [done|].
  split; [by rewrite !zlen_poke|].
  split; [intros q Hq Hout; by rewrite !peek_poke_ne by lia|].
  split.
  { rewrite peek_poke_eq by (rewrite zlen_poke; lia).
    by rewrite peek_poke_ne by lia. }
  split.
  { apply (BAMEntry_popcount_update _ _ ent i 1); [done| |].
    - unfold BAMEntry_free. rewrite peek_poke_ne by lia.
      rewrite peek_poke_eq by lia. by rewrite popcount8_lor by done.
    - intros k Hk Hne. unfold BAMEntry_free.
      by rewrite !peek_poke_ne by lia. }
  unfold BAMEntry_popcount, BAMEntry_free.
  pose proof (popcount8_range (peek d (ent + 1 + 0))).
  pose proof (popcount8_range (peek d (ent + 1 + 1))).
  pose proof (popcount8_range (peek d (ent + 1 + 2))).
  destruct (popcount8_testbit (peek d (ent + 1 + i)) m Hm) as [_ Hle].
  specialize (Hle Hbit).
  assert (i = 0 \/ i = 1 \/ i = 2) as [Hi0|[Hi0|Hi0]] by lia;
    rewrite Hi0 in Hle; lia.
Qed.

(** An entry that a call leaves alone keeps the invariant. *)
Lemma BAMEntry_inv_ext d d' bam i :
  (forall q, BAM_AvailMap_at bam i <= q < BAM_AvailMap_at bam i + 4 ->
     peek d' q = peek d q) ->
  BAMEntry_inv d bam i -> BAMEntry_inv d' bam i.
Proof.
  intros Hsame. unfold BAMEntry_inv, BAMEntry_Count. cbn zeta.
  rewrite (BAMEntry_popcount_ext d d') by
    (intros; apply Hsame; unfold BAMEntry_free; lia).
  by rewrite Hsame by lia.
Qed.

Lemma BAMEntry_inv_bounds d bam i :
  0 <= i < 35 -> BAMEntry_inv d bam i ->
  0 <= peek d (BAMEntry_Count (BAM_AvailMap_at bam i)) <= 21.
Proof.
  intros Hi [Hpos Heq].
  pose proof (zone_sectors_range (i + 1)).
  unfold BAMEntry_popcount in Heq.
  pose proof (popcount8_range (peek d (BAMEntry_free (BAM_AvailMap_at bam i) 0))).
  pose proof (popcount8_range (peek d (BAMEntry_free (BAM_AvailMap_at bam i) 1))).
  pose proof (popcount8_range (peek d (BAMEntry_free (BAM_AvailMap_at bam i) 2))).
  lia.
Qed.

(** C3, as stated, fails: right after [BAM.Init] the entry of track 1 has
    count 21 and all 24 bits of its bitmap set. *)
Lemma count_is_popcount_counterexample :
  match BAM_Init Img_zero 91392 "TESTNAME" "12" with
  | Done d =>
      peek d (BAMEntry_Count (BAM_AvailMap_at 91392 0)) = 21
      /\ BAMEntry_popcount d (BAM_AvailMap_at 91392 0) = 24
      /\ ~ count_is_popcount d 91392 0
  | _ => False
  end.
Proof.
  destruct (BAM_Init_spec Img_zero 91392 "TESTNAME" "12")
    as (d & -> & _ & _ & _ & Hent & _);
    [lia | rewrite zlen_Img_zero; by vm_compute | by vm_compute | by vm_compute |].
  destruct (Hent 0 ltac:(lia)) as (Hc & H0 & H1 & H2).
  change (zone_sectors (0 + 1)) with 21 in Hc.
  assert (BAMEntry_popcount d (BAM_AvailMap_at 91392 0) = 24) as Hp.
  { unfold BAMEntry_popcount. by rewrite H0, H1, H2. }
  split; [exact Hc|]. split; [exact Hp|].
  unfold count_is_popcount. rewrite Hc, Hp. lia.
Qed.

(** C3 (amended): for every BAM entry,
    [freeCount + (24 - sectorsPerTrack) = popcount(freeBitmap)]: the
    bitmap has 24 bits, [BAM.Init] sets them all and sets the count to
    the sector count of the track; the equation holds right after
    [BAM.Init], and every [Alloc] and [Free] preserves it, changing the
    bit and the count together. *)
Theorem BAM_count_invariant :
  (forall d bam name id d',
      0 <= bam -> bam + 256 <= zlen d ->
      BAM_Init d bam name id = Done d' ->
      BAM_inv d' bam
      /\ forall i, 0 <= i < totalTrackCount ->
           peek d' (BAMEntry_Count (BAM_AvailMap_at bam i)) = zone_sectors (i + 1)
           /\ BAMEntry_popcount d' (BAM_AvailMap_at bam i) = 24)
  /\ (forall d bam ts d',
        0 <= bam -> bam + 256 <= zlen d -> TS_bytes ts ->
        BAM_inv d bam -> BAM_Alloc d bam ts = Done d' ->
        let ent := BAM_AvailMap_at bam (T ts - 1) in
        BAM_inv d' bam
        /\ peek d' (BAMEntry_Count ent) = peek d (BAMEntry_Count ent) - 1
        /\ BAMEntry_popcount d' ent = BAMEntry_popcount d ent - 1)
  /\ (forall d bam ts d',
        0 <= bam -> bam + 256 <= zlen d -> TS_bytes ts ->
        BAM_inv d bam -> BAM_Free d bam ts = Done d' ->
        let ent := BAM_AvailMap_at bam (T ts - 1) in
        BAM_inv d' bam
        /\ peek d' (BAMEntry_Count ent) = peek d (BAMEntry_Count ent) + 1
        /\ BAMEntry_popcount d' ent = BAMEntry_popcount d ent + 1).
Proof.
  split; [|split].
  - intros d bam name id d' Hbam Hlen Hrun.
    destruct (BAM_Init_Done _ _ _ _ _ Hrun) as [Hname Hid].
    destruct (BAM_Init_spec d bam name id Hbam Hlen Hname Hid)
      as (d'' & Hrun' & _ & _ & _ & Hent & _).
    rewrite Hrun in Hrun'. injection Hrun' as <-.
    assert (forall i, 0 <= i < totalTrackCount ->
              peek d' (BAMEntry_Count (BAM_AvailMap_at bam i)) = zone_sectors (i + 1)
              /\ BAMEntry_popcount d' (BAM_AvailMap_at bam i) = 24) as Hall.
    { intros i Hi. destruct (Hent i Hi) as (Hc & H0 & H1 & H2).
      split; [done|]. unfold BAMEntry_popcount. by rewrite H0, H1, H2. }
    split; [|done].
    intros i Hi. destruct (Hall i Hi) as [Hc Hp].
    unfold BAMEntry_inv. cbn zeta. rewrite Hc, Hp.
    pose proof (zone_sectors_range (i + 1)). unfold totalTrackCount in *. lia.
  - intros d bam ts d' Hbam Hlen Hb Hinv Hrun.
    destruct (BAM_Alloc_effect d bam ts d' Hbam ltac:(lia) Hb Hrun)
      as (Ht & Hs & Hl & Hout & Hc & Hc' & Hp & _).
    pose proof (Hinv (T ts - 1) ltac:(unfold totalTrackCount; lia)) as Hi.
    pose proof (BAMEntry_inv_bounds d bam (T ts - 1) ltac:(lia) Hi) as Hbd.
    rewrite u8_small in Hc' by lia.
    cbn zeta. split; [|done].
    intros k Hk. unfold totalTrackCount in Hk.
    destruct (decide (k = T ts - 1)) as [->|Hne].
    + destruct Hi as [Hpos Heq]. unfold BAMEntry_inv. cbn zeta.
      rewrite Hc', Hp. replace (T ts - 1 + 1) with (T ts) in * by lia. lia.
    + apply (BAMEntry_inv_ext d); [|by apply Hinv].
      intros q Hq. apply Hout; unfold BAM_AvailMap_at, BAM_AvailMap in *; lia.
  - intros d bam ts d' Hbam Hlen Hb Hinv Hrun.
    destruct (BAM_Free_effect d bam ts d' Hbam ltac:(lia) Hb Hrun)
      as (Ht & Hs & Hl & Hout & Hc' & Hp & Hp23).
    pose proof (Hinv (T ts - 1) ltac:(unfold totalTrackCount; lia)) as Hi.
    pose proof (BAMEntry_inv_bounds d bam (T ts - 1) ltac:(lia) Hi) as Hbd.
    rewrite u8_small in Hc' by lia.
    cbn zeta. split; [|done].
    intros k Hk. unfold totalTrackCount in Hk.
    destruct (decide (k = T ts - 1)) as [->|Hne].
    + destruct Hi as [Hpos Heq]. unfold BAMEntry_inv. cbn zeta.
      rewrite Hc', Hp. replace (T ts - 1 + 1) with (T ts) in * by lia. lia.
    + apply (BAMEntry_inv_ext d); [|by apply Hinv].
      intros q Hq. apply Hout; unfold BAM_AvailMap_at, BAM_AvailMap in *; lia.
Qed.

Lemma BAM_count_invariant_witness :
  match BAM_Init Img_zero 91392 "TESTNAME" "12" with
  | Done d' =>
      BAM_inv d' 91392
      /\ forall i, 0 <= i < totalTrackCount ->
           peek d' (BAMEntry_Count (BAM_AvailMap_at 91392 i)) = zone_sectors (i + 1)
           /\ BAMEntry_popcount d' (BAM_AvailMap_at 91392 i) = 24
  | _ => False
  end.
Proof.
  destruct (BAM_Init_spec Img_zero 91392 "TESTNAME" "12")
    as (d' & Hrun & _); [lia | by vm_compute | by vm_compute | by vm_compute |].
  rewrite Hrun.
  apply (proj1 BAM_count_invariant Img_zero 91392 "TESTNAME" "12" d');
    [lia | by vm_compute | exact Hrun].
Defined.

(** ** Initialising an image *)

#[local] Arguments peek : simpl never.
#[local] Arguments poke : simpl never.
#[local] Arguments copy_to : simpl never.
#[local] Arguments slice_at : simpl never.
#[local] Arguments zlen : simpl never.
#[local] Arguments Img_zero : simpl never.
#[local] Arguments u8 : simpl never.

Lemma peek_poke_same d p q v :
  q = p -> 0 <= p < zlen d -> peek (poke d p v) q = v.
Proof. intros ->. apply peek_poke_eq. Qed.

Lemma peek_poke_other d p q v :
  0 <= p -> 0 <= q -> q <> p -> peek (poke d p v) q = peek d q.
Proof. intros. by apply peek_poke_ne. Qed.

Ltac zlen_norm := rewrite ?zlen_poke, ?zlen_pokeTS, ?zlen_copy_to.

(** Reads through stores, with the addresses compared by [lia]. *)
Ltac peek_norm :=
  repeat first
    [ rewrite peek_poke_same by (zlen_norm; lia)
    | rewrite peek_poke_other by lia
    | rewrite peek_copy_to_out by lia ].

Lemma Img_BAM_eq : Img_BAM = Done 91392.
Proof. reflexivity. Qed.


(** What [Img.Init] leaves in an image. *)
Lemma Img_Init_spec d name id :
  zlen d = totalByteCount ->
  zlen (bytes_of_string name) <= 16 -> zlen (bytes_of_string id) = 2 ->
  exists d',
    Img_Init d name id = Done d'
    /\ zlen d' = totalByteCount
    /\ peekTS d' 91392 = mkTS 18 1
    /\ peek d' 91394 = 65
    /\ peek d' 91395 = peek d 91395
    /\ (forall k, 0 <= k < 35 ->
          peek d' (91396 + 4 * k) = (if k =? 17 then 17 else zone_sectors (k + 1))
          /\ peek d' (91397 + 4 * k) = (if k =? 17 then 252 else 255)
          /\ peek d' (91398 + 4 * k) = 255
          /\ peek d' (91399 + 4 * k) = 255)
    /\ slice_at d' 91536 16 =
         bytes_of_string name
           ++ replicate (Z.to_nat (16 - zlen (bytes_of_string name))) padByte
    /\ peekTS d' 91648 = mkTS 0 255
    /\ (forall q, 0 <= q -> q < 91392 \/ 91561 <= q -> q <> 91648 -> q <> 91649 ->
          peek d' q = peek d q).
Proof.
  intros Hlen Hname Hid. unfold totalByteCount in *.
  destruct (BAM_Init_spec d 91392 name id)
    as (d1 & Hrun & Hl1 & Hout & Hfmt & Hent & Hnm); [lia..|].
  unfold Img_Init. rewrite Img_BAM_eq. cbn [mbind outcome_bind].
  rewrite Hrun. cbn [mbind outcome_bind].
  assert (forall k, 0 <= k < 35 ->
            peek d1 (91396 + 4 * k) = zone_sectors (k + 1)
            /\ peek d1 (91397 + 4 * k) = 255
            /\ peek d1 (91398 + 4 * k) = 255
            /\ peek d1 (91399 + 4 * k) = 255) as Hent1.
  { intros k Hk. destruct (Hent k Hk) as (H0 & H1 & H2 & H3).
    unfold BAM_AvailMap_at, BAM_AvailMap, BAMEntry_Count, BAMEntry_free in *.
    replace (91396 + 4 * k) with (91392 + 4 + 4 * k) by lia.
    replace (91397 + 4 * k) with (91392 + 4 + 4 * k + 1 + 0) by lia.
    replace (91398 + 4 * k) with (91392 + 4 + 4 * k + 1 + 1) by lia.
    replace (91399 + 4 * k) with (91392 + 4 + 4 * k + 1 + 2) by lia.
    done. }
  destruct (Hent1 17 ltac:(lia)) as (Hc17 & Hf17 & _).
  change (91396 + 4 * 17) with 91464 in Hc17.
  change (91397 + 4 * 17) with 91465 in Hf17.
  change (zone_sectors (17 + 1)) with 19 in Hc17.
  unfold bamTrack, pokeTS, BAM_DirTS. cbn [T Sec].
  set (d2 := poke (poke d1 (91392 + 0) 18) (91392 + 0 + 1) 1).
  assert (zlen d2 = 174848) as Hl2 by (unfold d2; zlen_norm; lia).
  rewrite (BAM_Alloc_step d2 91392 (mkTS 18 0) 91464 91465 0 19 255);
    try (simpl; lia); try done;
    [|unfold d2; by peek_norm..].
  cbn [drop_error mbind outcome_bind].
  change (Z.lxor 255 (2 ^ 0)) with 254. change (u8 (19 - 1)) with 18.
  set (d3 := poke (poke d2 91465 254) 91464 18).
  assert (zlen d3 = 174848) as Hl3 by (unfold d3; zlen_norm; lia).
  rewrite (BAM_Alloc_step d3 91392 (mkTS 18 1) 91464 91465 1 18 254);
    try (simpl; lia); try done;
    [|unfold d3; by peek_norm..].
  cbn [drop_error mbind outcome_bind].
  change (Z.lxor 254 (2 ^ 1)) with 252. change (u8 (18 - 1)) with 17.
  change (Img_Block (mkTS 18 1)) with (Done (A:=Z) 91648).
  cbn [mbind outcome_bind].
  unfold DirBlock_Init, pokeTS, DirBlock_Files, DirEntry_DirLink. cbn [T Sec].
  unfold d3, d2.
  eexists. split; [reflexivity|].
  split; [zlen_norm; lia|].
  split; [unfold peekTS; simpl; by peek_norm|].
  split; [peek_norm; exact Hfmt|].
  split; [peek_norm; apply Hout; lia|].
  split.
  { intros k Hk. destruct (Hent1 k Hk) as (H0 & H1 & H2 & H3).
    destruct (Z.eqb_spec k 17) as [->|Hne]; simpl.
    - by peek_norm.
    - peek_norm. done. }
  split.
  { change (91392 + BAM_DiskName) with 91536 in Hnm.
    rewrite <- Hnm. apply slice_at_ext; zlen_norm; try lia.
    intros q Hq. by peek_norm. }
  split; [unfold peekTS; simpl; by peek_norm|].
  intros q Hq Hout' Hq1 Hq2. peek_norm. apply Hout; lia.
Qed.

Lemma slice_at_nil d p : slice_at d p 0 = [].
Proof. unfold slice_at. by rewrite take_0. Qed.

Lemma slice_at_cons d p n :
  0 <= p < zlen d -> 0 < n ->
  slice_at d p n = peek d p :: slice_at d (p + 1) (n - 1).
Proof.
  intros Hp Hn. unfold slice_at, peek, zlen in *.
  rewrite (drop_S d (d !!! Z.to_nat p) (Z.to_nat p))
    by (apply list_lookup_lookup_total_lt; lia).
  replace (Z.to_nat n) with (S (Z.to_nat (n - 1))) by lia.
  replace (Z.to_nat (p + 1)) with (S (Z.to_nat p)) by lia.
  done.
Qed.

(** C8, as stated, fails: [Img.Init] and [BAM.Init] never store into
    the [Unused1] byte of the BAM block, so on an image that holds 7
    there the block starts with [{18, 1, 'A', 7}]. *)
Lemma Img_Init_BAM_counterexample :
  zlen stale_unused_image = totalByteCount
  /\ zlen (bytes_of_string "TESTNAME") <= 16
  /\ zlen (bytes_of_string "12") = 2
  /\ exists d',
       Img_Init stale_unused_image "TESTNAME" "12" = Done d'
       /\ slice_at d' 91392 4 = [18; 1; 65; 7]
       /\ slice_at d' 91392 4 <> [18; 1; 65; 0].
Proof.
  assert (zlen stale_unused_image = totalByteCount) as Hlen.
  { unfold stale_unused_image. rewrite zlen_poke. exact zlen_Img_zero. }
  assert (zlen (bytes_of_string "TESTNAME") <= 16) as Hname by (by vm_compute).
  assert (zlen (bytes_of_string "12") = 2) as Hid by (by vm_compute).
  split; [exact Hlen|]. split; [exact Hname|]. split; [exact Hid|].
  destruct (Img_Init_spec stale_unused_image "TESTNAME" "12" Hlen Hname Hid)
    as (d' & Hrun & Hl & Hdir & Hfmt & Hun & _).
  assert (peek stale_unused_image 91395 = 7) as Hseven.
  { unfold stale_unused_image. change (91392 + BAM_Unused1) with 91395.
    apply peek_poke_eq. rewrite zlen_Img_zero. unfold totalByteCount. lia. }
  rewrite Hseven in Hun.
  injection Hdir as Hd0 Hd1. change (91392 + 1) with 91393 in Hd1.
  unfold totalByteCount in Hl.
  assert (slice_at d' 91392 4 = [18; 1; 65; 7]) as Hslice.
  { assert (slice_at d' 91392 4
            = [peek d' 91392; peek d' 91393; peek d' 91394; peek d' 91395]) as ->.
    { rewrite !slice_at_cons by lia. by rewrite slice_at_nil. }
    by rewrite Hd0, Hd1, Hfmt, Hun. }
  exists d'. split; [exact Hrun|]. split; [exact Hslice|].
  rewrite Hslice. discriminate.
Qed.

(** C8 (amended): after [Img.Init] of an image whose [Unused1] byte is
    zero, as in the zero-valued [var d Img], with a name of at most 16
    bytes and an id of 2 bytes: the count of every track is the sector
    count of its zone, except that of track 18, which is 2 less; the BAM
    block at [{18, 0}] starts with [{18, 1, 'A', 0}]; and once sectors
    0, 1 and 8 of track 1 are allocated, the entry of track 1 that
    follows is [{18, 0xFC, 0xFE, 0xFF}]. *)
Theorem Img_Init_BAM (d : Img) (name id : string) :
  zlen d = totalByteCount -> peek d (91392 + BAM_Unused1) = 0 ->
  zlen (bytes_of_string name) <= 16 -> zlen (bytes_of_string id) = 2 ->
  exists d' bam,
    Img_Init d name id = Done d'
    /\ Img_BAM = Done bam /\ TS_Offset (mkTS 18 0) = Done bam
    /\ (forall t, 1 <= t <= 35 ->
          peek d' (BAMEntry_Count (BAM_AvailMap_at bam (t - 1)))
          = if t =? 18 then zone_sectors t - 2 else zone_sectors t)
    /\ slice_at d' bam 4 = [18; 1; 65; 0]
    /\ exists d1 d2 d3,
         BAM_Alloc d' bam (mkTS 1 0) = Done d1
         /\ BAM_Alloc d1 bam (mkTS 1 1) = Done d2
         /\ BAM_Alloc d2 bam (mkTS 1 8) = Done d3
         /\ slice_at d3 bam 8 = [18; 1; 65; 0; 18; 0xFC; 0xFE; 0xFF].
Proof.
  intros Hlen Hu Hname Hid.
  destruct (Img_Init_spec d name id Hlen Hname Hid)
    as (d' & Hrun & Hl & Hdir & Hfmt & Hun & Hent & _).
  unfold totalByteCount, BAM_Unused1 in *.
  change (91392 + 3) with 91395 in Hu. rewrite Hu in Hun.
  injection Hdir as Hd0 Hd1. change (91392 + 1) with 91393 in Hd1.
  exists d', 91392. split; [done|]. split; [done|]. split; [done|].
  split.
  { intros t Ht. destruct (Hent (t - 1) ltac:(lia)) as (Hc & _).
    unfold BAMEntry_Count, BAM_AvailMap_at, BAM_AvailMap.
    replace (91392 + 4 + 4 * (t - 1)) with (91396 + 4 * (t - 1)) by lia.
    rewrite Hc. replace (t - 1 + 1) with t by lia.
    destruct (Z.eqb_spec t 18) as [->|Hne].
    - done.
    - by destruct (Z.eqb_spec (t - 1) 17); [lia|]. }
  split.
  { assert (slice_at d' 91392 4
            = [peek d' 91392; peek d' 91393; peek d' 91394; peek d' 91395]) as ->.
    { rewrite !slice_at_cons by lia. by rewrite slice_at_nil. }
    by rewrite Hd0, Hd1, Hfmt, Hun. }
  destruct (Hent 0 ltac:(lia)) as (Hc0 & Hf0 & Hf1 & Hf2).
  change (91396 + 4 * 0) with 91396 in Hc0.
  change (91397 + 4 * 0) with 91397 in Hf0.
  change (91398 + 4 * 0) with 91398 in Hf1.
  change (91399 + 4 * 0) with 91399 in Hf2.
  change (zone_sectors (0 + 1)) with 21 in Hc0. cbn [Z.eqb] in Hc0, Hf0.
  set (d1 := poke (poke d' 91397 254) 91396 20).
  set (d2 := poke (poke d1 91397 252) 91396 19).
  set (d3 := poke (poke d2 91398 254) 91396 18).
  exists d1, d2, d3.
  split.
  { by rewrite (BAM_Alloc_step d' 91392 (mkTS 1 0) 91396 91397 0 21 255);
      try (simpl; lia). }
  split.
  { rewrite (BAM_Alloc_step d1 91392 (mkTS 1 1) 91396 91397 1 20 254);
      try (simpl; lia); try done; unfold d1; zlen_norm; try lia; by peek_norm. }
  split.
  { rewrite (BAM_Alloc_step d2 91392 (mkTS 1 8) 91396 91398 0 19 255);
      try (simpl; lia); try done; unfold d2, d1; zlen_norm; try lia;
      by peek_norm. }
  assert (zlen d3 = 174848) as Hl3 by (unfold d3, d2, d1; zlen_norm; lia).
  assert (slice_at d3 91392 8
          = [peek d3 91392; peek d3 91393; peek d3 91394; peek d3 91395;
             peek d3 91396; peek d3 91397; peek d3 91398; peek d3 91399]) as ->.
  { rewrite !slice_at_cons by lia. by rewrite slice_at_nil. }
  unfold d3, d2, d1. peek_norm.
  by rewrite Hd0, Hd1, Hfmt, Hun, Hf2.
Qed.

Lemma Img_Init_BAM_witness :
  exists d' bam,
    Img_Init Img_zero "TESTNAME" "12" = Done d'
    /\ Img_BAM = Done bam /\ TS_Offset (mkTS 18 0) = Done bam
    /\ (forall t, 1 <= t <= 35 ->
          peek d' (BAMEntry_Count (BAM_AvailMap_at bam (t - 1)))
          = if t =? 18 then zone_sectors t - 2 else zone_sectors t)
    /\ slice_at d' bam 4 = [18; 1; 65; 0]
    /\ exists d1 d2 d3,
         BAM_Alloc d' bam (mkTS 1 0) = Done d1
         /\ BAM_Alloc d1 bam (mkTS 1 1) = Done d2
         /\ BAM_Alloc d2 bam (mkTS 1 8) = Done d3
         /\ slice_at d3 bam 8 = [18; 1; 65; 0; 18; 0xFC; 0xFE; 0xFF].
Proof.
  apply (Img_Init_BAM Img_zero "TESTNAME" "12").
  - exact zlen_Img_zero.
  - apply peek_Img_zero. by vm_compute.
  - by vm_compute.
  - by vm_compute.
Defined.

(** ** The allocator *)

(** C6: track 35 has no BAM entry, although it is a track of the image
    with 17 sectors: [BAM.Alloc] and [BAM.Free] return [OutOfRange] for
    it and [BAM.Avail] panics; so when the default policy moves the
    allocator from track 34 on to track 35, the scan panics. *)
Theorem track_35_has_no_BAM_entry :
  (forall d bam s,
      BAM_Alloc d bam (mkTS 35 s) = Failed OutOfRange
      /\ BAM_Free d bam (mkTS 35 s) = Failed OutOfRange
      /\ BAM_Avail d bam (mkTS 35 s) = Panicked (PanicErr OutOfRange))
  /\ (35 <= totalTrackCount /\ sectorCount 35 = Done 17
      /\ forall s, 0 <= s < 17 ->
           exists off, Img_Block (mkTS 35 s) = Done off
                       /\ off + blockSize <= totalByteCount)
  /\ defaultNextTrack 34 = 35
  /\ (forall d a s,
        nextAvailBlock d a (mkTS 35 s) = Panicked (PanicErr OutOfRange))
  /\ (forall d a s,
        NextTrack a = defaultNextTrack ->
        nextAvailBlock d a (mkTS 34 s) = Done TS0 ->
        nextTS d a (mkTS 34 s) = Panicked (PanicErr OutOfRange))
  /\ (forall d a d',
        NextTrack a = defaultNextTrack -> T (a_TS a) = 34 ->
        BAM_Avail d (a_bam a) (a_TS a) = Done true ->
        BAM_Alloc d (a_bam a) (a_TS a) = Done d' ->
        nextAvailBlock d' a (a_TS a) = Done TS0 ->
        Allocator_Alloc d a = Panicked (PanicErr OutOfRange)).
Proof.
  assert (forall d a s fuel,
            NextTrack a = defaultNextTrack ->
            nextAvailBlock d a (mkTS 34 s) = Done TS0 ->
            nextTS_loop (S (S fuel)) d a (mkTS 34 s)
            = Panicked (PanicErr OutOfRange)) as Hscan.
  { intros d a s fuel Hnt Hfull. cbn [nextTS_loop T].
    rewrite Hfull, Hnt. reflexivity. }
  split; [by intros d bam s|].
  split.
  { split; [done|]. split; [done|]. intros s Hs.
    unfold Img_Block, TS_Offset. cbn [T Sec].
    change (geometry_Lookup geometry 35) with (Some (mkGeom 31 40 17 598)).
    cbn [sectorCount_of trackMin sectorOffset Z.ltb Z.compare Pos.compare
           Pos.compare_cont].
    destruct (Z.leb_spec 17 s); [lia|].
    unfold blockSize, totalByteCount.
    destruct (Z.ltb_spec 174848 (256 * (598 + ((35 - 31) * 17 + s)) + 256));
      [lia|].
    eexists. split; [reflexivity|lia]. }
  split; [done|].
  split; [by intros d a s|].
  split; [intros d a s; apply Hscan|].
  intros d a d' Hnt Ht Hav Hrun Hfull. unfold Allocator_Alloc.
  rewrite Ht, Hav. cbn [Z.eqb mbind outcome_bind negb andb].
  rewrite Hrun. cbn [mbind outcome_bind].
  destruct (a_TS a) as [t s]. cbn [T] in Ht. subst t.
  unfold nextTS. by rewrite (Hscan d' a s 254%nat Hnt Hfull).
Qed.

Lemma track_35_has_no_BAM_entry_witness :
  nextTS Img_zero (BAM_NewAllocator 91392) (mkTS 34 0)
  = Panicked (PanicErr OutOfRange).
Proof.
  apply (proj1 (proj2 (proj2 (proj2 (proj2 track_35_has_no_BAM_entry))))).
  - reflexivity.
  - by vm_compute.
Defined.

(** ** Unsupported file types *)

Lemma Img_Block_cases ts :
  (exists off, Img_Block ts = Done off) \/ exists p, Img_Block ts = Panicked p.
Proof.
  unfold Img_Block. destruct (TS_Offset ts) as [off| | |] eqn:Ho.
  - destruct (_ <? _); [right|left]; by eexists.
  - right; by eexists.
  - right; by eexists.
  - exfalso. revert Ho. unfold TS_Offset.
    by repeat (case_match; try done).
Qed.

(** A block that [Img.Block] returns is one of the 683 blocks of the
    image. *)
Lemma Img_Block_Done ts off :
  0 <= Sec ts -> Img_Block ts = Done off ->
  exists k, 0 <= k < 683 /\ off = 256 * k.
Proof.
  intros Hs. unfold Img_Block, TS_Offset.
  destruct (T ts <? 1); [done|].
  destruct (geometry_Lookup geometry (T ts)) as [g|] eqn:Hg; [|done].
  destruct (Z.leb_spec (sectorCount_of g) (Sec ts)); [done|].
  unfold blockSize, totalByteCount.
  set (k := sectorOffset g + ((T ts - trackMin g) * sectorCount_of g + Sec ts)).
  destruct (Z.ltb_spec 174848 (256 * k + 256)); [done|].
  intros [= <-]. exists k. split; [|done].
  apply geometry_Lookup_Some in Hg as (Ht & Hin & Hmin & Hsc).
  assert (0 <= sectorOffset g).
  { unfold geometry in Hin.
    repeat (apply elem_of_cons in Hin as [->|Hin]); [..|by apply elem_of_nil in Hin];
      simpl; lia. }
  subst k. nia.
Qed.

Lemma DirEntry_FileBlock_cases d fe :
  (exists b, DirEntry_FileBlock d fe = Done b)
  \/ exists p, DirEntry_FileBlock d fe = Panicked p.
Proof.
  unfold DirEntry_FileBlock.
  destruct (Img_Block_cases (peekTS d (fe + DirEntry_FileTS)))
    as [[off ->]|[p ->]]; [|right; by eexists].
  cbn [mbind outcome_bind].
  repeat (case_match; try (left; by eexists); try (right; by eexists)).
Qed.

Lemma newDirEntryFile_cases d fe :
  (exists r, newDirEntryFile d fe = Done r)
  \/ exists p, newDirEntryFile d fe = Panicked p.
Proof.
  unfold newDirEntryFile. destruct (DirEntry_IsScratched d fe); [left; by eexists|].
  destruct (DirEntry_FileBlock_cases d fe) as [[b ->]|[p ->]];
    [left|right]; by eexists.
Qed.

(** An entry that [newDirEntryFile] panics on makes the loop over its
    block panic. *)
Lemma loadDirEntries_block_panics n : forall d dir i files k,
  i <= k < i + Z.of_nat n ->
  (exists p, newDirEntryFile d (DirBlock_Files dir k) = Panicked p) ->
  exists p, loadDirEntries_block n d dir i files = Panicked p.
Proof.
  induction n as [|n IH]; intros d dir i files k Hk Hbad; [lia|].
  cbn [loadDirEntries_block].
  destruct (newDirEntryFile_cases d (DirBlock_Files dir i)) as [[r Hr]|[p Hp]].
  - rewrite Hr. cbn [mbind outcome_bind].
    destruct (decide (k = i)) as [->|Hne].
    + destruct Hbad as [p Hp]. congruence.
    + apply (IH _ _ _ _ k); [lia|done].
  - rewrite Hp. by eexists.
Qed.

(** What [Img.Block] does on an address of byte fields: a pointer to one
    of the 683 blocks for a valid address on tracks 1 to 35, the
    "overflow" panic for a valid address on tracks 36 to 40, and the
    [BadTS] panic for every other address. *)
Lemma Img_Block_outcomes ts :
  TS_bytes ts ->
  (TS_IsValid ts = true -> T ts <= 35 ->
     exists k, 0 <= k < 683 /\ Img_Block ts = Done (256 * k))
  /\ (TS_IsValid ts = true -> 35 < T ts ->
        Img_Block ts = Panicked PanicOverflow)
  /\ (TS_IsValid ts = false -> Img_Block ts = Panicked (PanicErr BadTS)).
Proof.
  intros Hb.
  assert (TS_IsValid ts = true ->
          exists k, 0 <= k /\ TS_Offset ts = Done (256 * k)
                    /\ (T ts <= 35 -> k < 683) /\ (35 < T ts -> 683 <= k))
    as Hvalid.
  { intros Hv.
    destruct (valid_TS_zone ts) as (g & Hg & Ht & Hs); [by destruct Hb|].
    rewrite (TS_Offset_valid ts g Hg Hs).
    destruct (geometry_Lookup_Some _ _ Hg) as (Hz & Hin & _).
    eexists. split; [|split; [reflexivity|]].
    - unfold geometry in Hin. set_unfold.
      destruct Hin as [->|[->|[->|[->|[]]]]]; cbn in *; lia.
    - unfold geometry in Hin. set_unfold.
      destruct Hin as [->|[->|[->|[->|[]]]]]; cbn in *; lia. }
  unfold Img_Block, blockSize, totalByteCount.
  split; [|split].
  - intros Hv Hle. destruct (Hvalid Hv) as (k & Hk & -> & Hlo & _).
    exists k. specialize (Hlo Hle). split; [lia|].
    by destruct (Z.ltb_spec 174848 (256 * k + 256)); [lia|].
  - intros Hv Hgt. destruct (Hvalid Hv) as (k & Hk & -> & _ & Hhi).
    specialize (Hhi Hgt).
    by destruct (Z.ltb_spec 174848 (256 * k + 256)); [|lia].
  - unfold TS_IsValid, TS_Offset. intros Hv.
    destruct (T ts <? 1); [done|].
    destruct (geometry_Lookup geometry (T ts)) as [g|]; [|done].
    apply Z.ltb_ge in Hv.
    by destruct (Z.leb_spec (sectorCount_of g) (Sec ts)); [|lia].
Qed.

(** C9 (amended): for every non-scratched directory entry whose
    file-type byte is USR, REL or any unrecognised value, the block
    dispatch panics.  [Img.Block] runs first: on an invalid first-block
    address the panic is [BadTS], on a valid address of tracks 36 to 40
    it is "overflow", and on an address of a block of the image it is
    "unimplemented" for USR and REL and "unknown file type" otherwise.
    [newDirEntryFile] panics with the same value, so building the file
    system view of a disk whose first directory block holds such an
    entry panics and lists nothing; [Name] on such an entry alone gives
    the extension USR, REL or ???. *)
Theorem unsupported_file_type (d : Img) (fe : Z) :
  let ft := peek d (fe + DirEntry_FileType) in
  let fts := peekTS d (fe + DirEntry_FileTS) in
  ft <> Scratched -> ft <> DEL -> ft <> SEQ -> ft <> PRG ->
  (forall raw, Img_Block fts = Done raw ->
     DirEntry_FileBlock d fe
     = Panicked (if (ft =? USR) || (ft =? REL) then PanicUnimplemented
                 else PanicUnknownFileType))
  /\ (TS_bytes fts ->
        let p := if TS_IsValid fts then
                   if T fts <=? totalTrackCount then
                     if (ft =? USR) || (ft =? REL) then PanicUnimplemented
                     else PanicUnknownFileType
                   else PanicOverflow
                 else PanicErr BadTS in
        DirEntry_FileBlock d fe = Panicked p
        /\ newDirEntryFile d fe = Panicked p)
  /\ (exists p, DirEntry_FileBlock d fe = Panicked p
                /\ newDirEntryFile d fe = Panicked p)
  /\ (forall iter off,
        dirEntryFile_Name d (mkDirEntryFile fe iter off)
        = DirEntry_FilenameString d fe +:+ "." +:+ type_extension ft
        /\ type_extension ft
           = if ft =? USR then "USR" else if ft =? REL then "REL" else "???")
  /\ (forall dir i, Img_Dir d = Done dir -> 0 <= i < 8 ->
        fe = DirBlock_Files dir i ->
        exists p, loadDirEntries d = Panicked p /\ Img_FS d = Panicked p).
Proof.
  intros ft fts Hs Hdel Hseq Hprg.
  assert (forall raw, Img_Block fts = Done raw ->
     DirEntry_FileBlock d fe
     = Panicked (if (ft =? USR) || (ft =? REL) then PanicUnimplemented
                 else PanicUnknownFileType)) as Hdisp.
  { intros raw Hraw. unfold DirEntry_FileBlock. fold fts. rewrite Hraw.
    cbn [mbind outcome_bind]. fold ft.
    destruct (Z.eqb_spec ft DEL); [done|]. destruct (Z.eqb_spec ft SEQ); [done|].
    destruct (Z.eqb_spec ft PRG); [done|]. cbn [orb].
    by destruct ((ft =? USR) || (ft =? REL)). }
  assert (forall p, DirEntry_FileBlock d fe = Panicked p ->
                    newDirEntryFile d fe = Panicked p) as Hnew.
  { intros p Hp. unfold newDirEntryFile, DirEntry_IsScratched. fold ft.
    destruct (Z.eqb_spec ft Scratched); [done|]. by rewrite Hp. }
  assert (exists p, DirEntry_FileBlock d fe = Panicked p
                    /\ newDirEntryFile d fe = Panicked p) as Hpanic.
  { destruct (Img_Block_cases fts) as [[raw Hraw]|[p Hp]].
    - eexists. split; [by apply (Hdisp raw)|]. apply Hnew. by apply (Hdisp raw).
    - assert (DirEntry_FileBlock d fe = Panicked p) as Hfb.
      { unfold DirEntry_FileBlock. fold fts. by rewrite Hp. }
      exists p. split; [done|by apply Hnew]. }
  split; [exact Hdisp|]. split.
  { intros Hb p.
    destruct (Img_Block_outcomes fts Hb) as (Hin & Hover & Hbad).
    assert (DirEntry_FileBlock d fe = Panicked p) as Hfb.
    { unfold p. destruct (TS_IsValid fts) eqn:Hv.
      - unfold totalTrackCount. destruct (Z.leb_spec (T fts) 35).
        + destruct (Hin eq_refl ltac:(lia)) as (k & _ & Hk).
          by apply (Hdisp (256 * k)).
        + unfold DirEntry_FileBlock. fold fts.
          by rewrite (Hover eq_refl ltac:(lia)).
      - unfold DirEntry_FileBlock. fold fts. by rewrite (Hbad eq_refl). }
    split; [done|by apply Hnew]. }
  split; [exact Hpanic|]. split.
  - intros iter off. split.
    + unfold dirEntryFile_Name, DirEntry_FilenameString, type_extension.
      cbn [f_entry]. by fold ft.
    + unfold type_extension.
      destruct (Z.eqb_spec ft DEL); [done|]. destruct (Z.eqb_spec ft SEQ); [done|].
      by destruct (Z.eqb_spec ft PRG).
  - intros dir i Hdir Hi ->. destruct Hpanic as (p0 & _ & Hp0).
    destruct (loadDirEntries_block_panics 8 d dir 0 ∅ i) as [p Hp];
      [lia | by eexists |].
    exists p. unfold Img_FS, loadDirEntries. rewrite Img_BAM_eq, Hdir.
    cbn [mbind outcome_bind loadDirEntries_loop Z.to_nat].
    change (Z.to_nat totalBlockCount + 1)%nat with (S (Z.to_nat totalBlockCount)).
    cbn [loadDirEntries_loop]. by rewrite Hp.
Qed.


(** ** The allocator reads and writes the availability map only *)

Lemma u8_range x : 0 <= u8 x < 256.
Proof. unfold u8. apply Z.mod_pos_bound. lia. Qed.

Lemma BAM_Entry_range bam ts ent :
  BAM_Entry bam ts = Done (Some ent) ->
  exists i, 0 <= i < 35 /\ ent = bam + 4 + 4 * i /\ Sec ts < 32.
Proof.
  unfold BAM_Entry, totalTrackCount, BAM_AvailMap_at, BAM_AvailMap.
  destruct (_ <=? T ts); [done|].
  destruct (Z.leb_spec 32 (Sec ts)); [done|].
  pose proof (u8_range (T ts - 1)).
  destruct (Z.ltb_spec (u8 (T ts - 1)) 35); [|done].
  intros [= <-]. exists (u8 (T ts - 1)). lia.
Qed.

Lemma BAM_Avail_reloc d1 d2 bam1 bam2 ts :
  0 <= Sec ts -> bam_rel bam1 bam2 d1 d2 ->
  BAM_Avail d1 bam1 ts = BAM_Avail d2 bam2 ts.
Proof.
  intros Hs Hrel. unfold BAM_Avail, BAM_Entry, BAM_AvailMap_at, BAM_AvailMap.
  destruct (_ <=? T ts); [done|].
  destruct (Z.leb_spec 32 (Sec ts)); [done|].
  pose proof (u8_range (T ts - 1)).
  destruct (Z.ltb_spec (u8 (T ts - 1)) totalTrackCount); [|done].
  cbn [mbind outcome_bind]. unfold BAMEntry_free_get, bit_index, BAMEntry_free.
  destruct (Z.ltb_spec (Sec ts / 8) 3); [|done].
  cbn [mbind outcome_bind]. unfold totalTrackCount in *.
  replace (bam1 + 4 + 4 * u8 (T ts - 1) + 1 + Sec ts / 8)
    with (bam1 + (4 + 4 * u8 (T ts - 1) + 1 + Sec ts / 8)) by lia.
  replace (bam2 + 4 + 4 * u8 (T ts - 1) + 1 + Sec ts / 8)
    with (bam2 + (4 + 4 * u8 (T ts - 1) + 1 + Sec ts / 8)) by lia.
  rewrite Hrel; [done|]. Z.div_mod_to_equations; lia.
Qed.

Lemma nextAvailBlock_loop_reloc n : forall d1 d2 a bam2 max ts,
  0 <= Sec ts -> bam_rel (a_bam a) bam2 d1 d2 ->
  nextAvailBlock_loop n d1 a max ts
  = nextAvailBlock_loop n d2 (rebase bam2 a) max ts.
Proof.
  induction n as [|n IH]; intros d1 d2 a bam2 max ts Hs Hrel; [done|].
  cbn [nextAvailBlock_loop a_bam rebase SectorStagger].
  rewrite (BAM_Avail_reloc d1 d2 (a_bam a) bam2) by done.
  destruct (BAM_Avail d2 bam2 ts) as [[|]| | |]; try done.
  cbn [mbind outcome_bind]. apply IH; [|done]. cbn [Sec].
  pose proof (u8_range (Sec ts + SectorStagger a)).
  pose proof (u8_range (1 + u8 (Sec ts + SectorStagger a) `mod` max)).
  destruct (_ <? _); lia.
Qed.

Lemma nextAvailBlock_reloc d1 d2 a bam2 ts :
  0 <= Sec ts -> bam_rel (a_bam a) bam2 d1 d2 ->
  nextAvailBlock d1 a ts = nextAvailBlock d2 (rebase bam2 a) ts.
Proof.
  intros Hs Hrel. unfold nextAvailBlock.
  destruct (sectorCount (T ts)); try done.
  cbn [mbind outcome_bind]. by apply nextAvailBlock_loop_reloc.
Qed.

Lemma nextTS_loop_reloc fuel : forall d1 d2 a bam2 iter,
  0 <= Sec iter -> bam_rel (a_bam a) bam2 d1 d2 ->
  nextTS_loop fuel d1 a iter = nextTS_loop fuel d2 (rebase bam2 a) iter.
Proof.
  induction fuel as [|fuel IH]; intros d1 d2 a bam2 iter Hs Hrel; [done|].
  cbn [nextTS_loop]. destruct (0 <? T iter); [|done].
  rewrite (nextAvailBlock_reloc d1 d2 a bam2) by done.
  destruct (nextAvailBlock d2 (rebase bam2 a) iter) as [next| | |]; try done.
  cbn [mbind outcome_bind]. destruct (0 <? T next); [done|].
  cbn [T NextTrack rebase]. destruct (_ =? 0); [done|]. by apply IH.
Qed.

Lemma nextTS_reloc d1 d2 a bam2 ts :
  0 <= Sec ts -> bam_rel (a_bam a) bam2 d1 d2 ->
  nextTS d1 a ts = nextTS d2 (rebase bam2 a) ts.
Proof. apply nextTS_loop_reloc. Qed.

(** The sector of an address that the scans return is not negative. *)
Lemma nextAvailBlock_loop_Sec n : forall d a max ts ts',
  0 <= Sec ts -> nextAvailBlock_loop n d a max ts = Done ts' -> 0 <= Sec ts'.
Proof.
  induction n as [|n IH]; intros d a max ts ts' Hs; cbn [nextAvailBlock_loop].
  - by intros [= <-].
  - destruct (BAM_Avail d (a_bam a) ts) as [[|]| | |]; try done;
      cbn [mbind outcome_bind].
    + by intros [= <-].
    + apply IH. cbn [Sec].
      pose proof (u8_range (Sec ts + SectorStagger a)).
      pose proof (u8_range (1 + u8 (Sec ts + SectorStagger a) `mod` max)).
      destruct (_ <? _); lia.
Qed.

Lemma nextAvailBlock_Sec d a ts ts' :
  0 <= Sec ts -> nextAvailBlock d a ts = Done ts' -> 0 <= Sec ts'.
Proof.
  intros Hs. unfold nextAvailBlock.
  destruct (sectorCount (T ts)); try done. cbn [mbind outcome_bind].
  by apply nextAvailBlock_loop_Sec.
Qed.

Lemma nextTS_loop_Sec fuel : forall d a iter ts',
  0 <= Sec iter -> nextTS_loop fuel d a iter = Done ts' -> 0 <= Sec ts'.
Proof.
  induction fuel as [|fuel IH]; intros d a iter ts' Hs; [done|].
  cbn [nextTS_loop]. destruct (0 <? T iter); [|by intros [= <-]].
  destruct (nextAvailBlock d a iter) as [next| | |] eqn:Hn; try done.
  cbn [mbind outcome_bind].
  destruct (0 <? T next).
  - intros [= <-]. by eapply nextAvailBlock_Sec.
  - cbn [T]. destruct (_ =? 0); [by intros [= <-]|]. by apply IH.
Qed.

Lemma bam_rel_poke bam1 bam2 d1 d2 k v :
  4 <= k < 144 -> 0 <= bam1 -> 0 <= bam2 ->
  bam1 + 144 <= zlen d1 -> bam2 + 144 <= zlen d2 ->
  bam_rel bam1 bam2 d1 d2 ->
  bam_rel bam1 bam2 (poke d1 (bam1 + k) v) (poke d2 (bam2 + k) v).
Proof.
  intros Hk Hb1 Hb2 Hl1 Hl2 Hrel k' Hk'.
  destruct (decide (k' = k)) as [->|Hne].
  - by rewrite !peek_poke_eq by lia.
  - rewrite !peek_poke_ne by lia. by apply Hrel.
Qed.

(** Stores outside the availability map keep the relation. *)
Lemma bam_rel_outside bam1 bam2 d1 d1' d2 :
  bam_rel bam1 bam2 d1 d2 ->
  (forall q, bam1 + 4 <= q < bam1 + 144 -> peek d1' q = peek d1 q) ->
  bam_rel bam1 bam2 d1' d2.
Proof. intros Hrel Hsame k Hk. rewrite Hsame by lia. by apply Hrel. Qed.

Lemma BAM_Alloc_reloc d1 d2 bam1 bam2 ts :
  0 <= bam1 -> 0 <= bam2 ->
  bam1 + 144 <= zlen d1 -> bam2 + 144 <= zlen d2 -> 0 <= Sec ts ->
  bam_rel bam1 bam2 d1 d2 ->
  outcome_rel (bam_rel bam1 bam2) (BAM_Alloc d1 bam1 ts) (BAM_Alloc d2 bam2 ts).
Proof.
  intros Hb1 Hb2 Hl1 Hl2 Hs Hrel.
  unfold BAM_Alloc, BAM_Entry, BAM_AvailMap_at, BAM_AvailMap.
  destruct (_ <=? T ts); [done|].
  destruct (Z.leb_spec 32 (Sec ts)); [done|].
  pose proof (u8_range (T ts - 1)).
  destruct (Z.ltb_spec (u8 (T ts - 1)) totalTrackCount); [|done].
  unfold totalTrackCount in *. set (i := u8 (T ts - 1)) in *.
  cbn [mbind outcome_bind]. unfold BAMEntry_Count, BAMEntry_free_get, bit_index,
    BAMEntry_free.
  assert (0 <= Sec ts / 8) by (Z.div_mod_to_equations; lia).
  replace (bam1 + 4 + 4 * i) with (bam1 + (4 + 4 * i)) by lia.
  replace (bam2 + 4 + 4 * i) with (bam2 + (4 + 4 * i)) by lia.
  rewrite (Hrel (4 + 4 * i)) by lia.
  destruct (_ =? 0); [done|].
  destruct (Z.ltb_spec (Sec ts / 8) 3); [|done].
  cbn [mbind outcome_bind].
  replace (bam1 + (4 + 4 * i) + 1 + Sec ts / 8)
    with (bam1 + (4 + 4 * i + 1 + Sec ts / 8)) by lia.
  replace (bam2 + (4 + 4 * i) + 1 + Sec ts / 8)
    with (bam2 + (4 + 4 * i + 1 + Sec ts / 8)) by lia.
  rewrite (Hrel (4 + 4 * i + 1 + Sec ts / 8)) by lia.
  destruct (_ =? 0); [done|]. cbn [outcome_rel].
  rewrite !(peek_poke_ne _ (_ + (4 + 4 * i + 1 + Sec ts / 8)) (_ + (4 + 4 * i)))
    by lia.
  rewrite (Hrel (4 + 4 * i)) by lia.
  apply bam_rel_poke; rewrite ?zlen_poke; try lia.
  apply bam_rel_poke; try lia. done.
Qed.

(** [BAM.Alloc] stores into the availability map only. *)
Lemma BAM_Alloc_frame d bam ts d' :
  0 <= bam -> 0 <= Sec ts -> BAM_Alloc d bam ts = Done d' ->
  zlen d' = zlen d
  /\ forall q, 0 <= q -> q < bam + 4 \/ bam + 144 <= q -> peek d' q = peek d q.
Proof.
  intros Hbam Hs. unfold BAM_Alloc.
  destruct (BAM_Entry bam ts) as [[ent|]| | |] eqn:He; try done.
  apply BAM_Entry_range in He as (i & Hi & -> & Hs32).
  cbn [mbind outcome_bind]. unfold BAMEntry_Count, BAMEntry_free_get, bit_index,
    BAMEntry_free.
  assert (0 <= Sec ts / 8) by (Z.div_mod_to_equations; lia).
  destruct (_ =? 0); [done|].
  destruct (Z.ltb_spec (Sec ts / 8) 3); [|done].
  cbn [mbind outcome_bind]. destruct (_ =? 0); [done|].
  intros [= <-]. split; [by rewrite !zlen_poke|].
  intros q Hq Hout. by rewrite !peek_poke_ne by lia.
Qed.

Lemma Allocator_Alloc_reloc d1 d2 a bam2 :
  0 <= a_bam a -> 0 <= bam2 ->
  a_bam a + 144 <= zlen d1 -> bam2 + 144 <= zlen d2 ->
  0 <= Sec (a_TS a) -> bam_rel (a_bam a) bam2 d1 d2 ->
  outcome_rel
    (fun r1 r2 => r1.1.1 = r2.1.1 /\ r2.1.2 = rebase bam2 r1.1.2
                  /\ bam_rel (a_bam a) bam2 r1.2 r2.2)
    (Allocator_Alloc d1 a) (Allocator_Alloc d2 (rebase bam2 a)).
Proof.
  intros Hb1 Hb2 Hl1 Hl2 Hs Hrel. unfold Allocator_Alloc.
  cbn [a_TS a_bam rebase].
  destruct (_ =? 0); [done|].
  rewrite (BAM_Avail_reloc d1 d2 (a_bam a) bam2) by done.
  destruct (BAM_Avail d2 bam2 (a_TS a)) as [av| | |]; try done.
  cbn [mbind outcome_bind].
  assert (forall ts, 0 <= Sec ts ->
    outcome_rel
      (fun r1 r2 => r1.1.1 = r2.1.1 /\ r2.1.2 = rebase bam2 r1.1.2
                    /\ bam_rel (a_bam a) bam2 r1.2 r2.2)
      (BAM_Alloc d1 (a_bam a) ts
         ≫= (λ d, nextTS d a ts ≫= λ next, Done (ts, set_TS a next, d)))
      (BAM_Alloc d2 bam2 ts
         ≫= (λ d, nextTS d (rebase bam2 a) ts
                    ≫= λ next, Done (ts, set_TS (rebase bam2 a) next, d))))
    as Hstep.
  { intros ts Hts.
    pose proof (BAM_Alloc_reloc d1 d2 (a_bam a) bam2 ts Hb1 Hb2 Hl1 Hl2 Hts Hrel)
      as Hr.
    destruct (BAM_Alloc d1 (a_bam a) ts) as [d1'| | |],
             (BAM_Alloc d2 bam2 ts) as [d2'| | |]; try done.
    cbn [outcome_rel mbind outcome_bind] in *.
    rewrite (nextTS_reloc d1' d2' a bam2) by done.
    by destruct (nextTS d2' (rebase bam2 a) ts). }
  destruct av.
  - cbn [mbind outcome_bind negb andb]. by apply Hstep.
  - rewrite (nextTS_reloc d1 d2 a bam2) by done.
    destruct (nextTS d2 (rebase bam2 a) (a_TS a)) as [ts| | |] eqn:Hn; try done.
    cbn [mbind outcome_bind negb andb].
    destruct (_ =? 0); [done|].
    apply Hstep. by eapply nextTS_loop_Sec.
Qed.

(** [Allocator.Alloc] stores into the availability map only, and keeps
    everything of the allocator but its lookahead. *)
Lemma Allocator_Alloc_frame d a ts a' d' :
  0 <= a_bam a -> 0 <= Sec (a_TS a) ->
  Allocator_Alloc d a = Done (ts, a', d') ->
  zlen d' = zlen d
  /\ (forall q, 0 <= q -> q < a_bam a + 4 \/ a_bam a + 144 <= q ->
        peek d' q = peek d q)
  /\ 0 <= Sec ts /\ 0 <= Sec (a_TS a')
  /\ a_bam a' = a_bam a /\ SectorStagger a' = SectorStagger a
  /\ NextTrack a' = NextTrack a.
Proof.
  intros Hbam Hs. unfold Allocator_Alloc.
  destruct (_ =? 0); [done|].
  destruct (BAM_Avail d (a_bam a) (a_TS a)) as [av| | |]; try done.
  cbn [mbind outcome_bind].
  assert (forall ts0, 0 <= Sec ts0 ->
    BAM_Alloc d (a_bam a) ts0
      ≫= (λ d, nextTS d a ts0 ≫= λ next, Done (ts0, set_TS a next, d))
    = Done (ts, a', d') ->
    zlen d' = zlen d
    /\ (forall q, 0 <= q -> q < a_bam a + 4 \/ a_bam a + 144 <= q ->
          peek d' q = peek d q)
    /\ 0 <= Sec ts /\ 0 <= Sec (a_TS a')
    /\ a_bam a' = a_bam a /\ SectorStagger a' = SectorStagger a
    /\ NextTrack a' = NextTrack a) as Hstep.
  { intros ts0 Hts0.
    destruct (BAM_Alloc d (a_bam a) ts0) as [d0| | |] eqn:Ha; try done.
    cbn [mbind outcome_bind].
    destruct (nextTS d0 a ts0) as [next| | |] eqn:Hn; try done.
    cbn [mbind outcome_bind]. intros [= <- <- <-].
    destruct (BAM_Alloc_frame _ _ _ _ Hbam Hts0 Ha) as [Hl Hout].
    repeat split; try done. cbn [a_TS set_TS]. by eapply nextTS_loop_Sec. }
  destruct av.
  - cbn [mbind outcome_bind negb andb]. by apply Hstep.
  - destruct (nextTS d a (a_TS a)) as [ts0| | |] eqn:Hn; try done.
    cbn [mbind outcome_bind negb andb].
    assert (0 <= Sec ts0) by (by eapply nextTS_loop_Sec).
    destruct (_ =? 0); [|by apply Hstep].
    intros [= <- <- <-]. repeat split; done.
Qed.

(** ** Runs of the allocator on the availability map alone *)

Lemma is_Done_inv {A} (r : outcome A) :
  is_Done r = true -> exists a, r = Done a.
Proof. destruct r; try done. by eexists. Qed.

Lemma outcome_rel_Done_r {A} (R : A -> A -> Prop) (r1 r2 : outcome A) b :
  outcome_rel R r1 r2 -> r2 = Done b -> exists a, r1 = Done a /\ R a b.
Proof. intros Hr ->. destruct r1; try done. by eexists. Qed.

Lemma outcome_rel_Panicked_r {A} (R : A -> A -> Prop) (r1 r2 : outcome A) p :
  outcome_rel R r1 r2 -> r2 = Panicked p -> r1 = Panicked p.
Proof. intros Hr ->. destruct r1; try done. simpl in Hr. by subst. Qed.

Lemma alloc_run_reloc n : forall d1 d2 a bam2,
  0 <= a_bam a -> 0 <= bam2 ->
  a_bam a + 144 <= zlen d1 -> bam2 + 144 <= zlen d2 ->
  0 <= Sec (a_TS a) -> bam_rel (a_bam a) bam2 d1 d2 ->
  outcome_rel
    (fun r1 r2 => r1.1.1 = r2.1.1 /\ r2.1.2 = rebase bam2 r1.1.2
                  /\ a_bam r1.1.2 = a_bam a /\ 0 <= Sec (a_TS r1.1.2)
                  /\ zlen r1.2 = zlen d1
                  /\ bam_rel (a_bam a) bam2 r1.2 r2.2)
    (alloc_run n d1 a) (alloc_run n d2 (rebase bam2 a)).
Proof.
  induction n as [|n IH]; intros d1 d2 a bam2 Hb1 Hb2 Hl1 Hl2 Hs Hrel.
  - by cbn.
  - cbn [alloc_run].
    pose proof (Allocator_Alloc_reloc d1 d2 a bam2 Hb1 Hb2 Hl1 Hl2 Hs Hrel) as Hr.
    destruct (Allocator_Alloc d1 a) as [[[ts a1] d1']| | |] eqn:H1,
             (Allocator_Alloc d2 (rebase bam2 a)) as [[[ts2 a2] d2']| | |] eqn:H2;
      try done.
    cbn [outcome_rel fst snd] in Hr. destruct Hr as (<- & -> & Hrel').
    cbn [mbind outcome_bind].
    destruct (Allocator_Alloc_frame _ _ _ _ _ Hb1 Hs H1)
      as (Hl1' & _ & _ & Hs1 & Hbam1 & _).
    destruct (Allocator_Alloc_frame d2 (rebase bam2 a) ts (rebase bam2 a1) d2')
      as (Hl2' & _); [done..|].
    specialize (IH d1' d2' a1 bam2).
    rewrite Hbam1 in IH.
    specialize (IH Hb1 Hb2 ltac:(lia) ltac:(lia) Hs1 Hrel').
    destruct (alloc_run n d1' a1) as [[[l1 a1'] d1'']| | |],
             (alloc_run n d2' (rebase bam2 a1)) as [[[l2 a2'] d2'']| | |];
      try done.
    cbn [outcome_rel fst snd mbind outcome_bind] in *.
    destruct IH as (-> & -> & Ha & Hs' & Hl' & Hrel'').
    repeat split; try done. lia.
Qed.

Lemma peek_init_bam_block k :
  0 <= k < 144 -> peek init_bam_block k = init_byte k.
Proof.
  intros Hk. unfold peek, init_bam_block.
  apply list_lookup_total_correct.
  rewrite list_lookup_fmap. apply fmap_Some. exists k. split; [|done].
  apply lookup_seqZ. lia.
Qed.

(** The availability map of every initialised image. *)
Lemma Img_Init_bam_rel d name id d' :
  zlen d = totalByteCount -> Img_Init d name id = Done d' ->
  zlen d' = totalByteCount /\ bam_rel 91392 0 d' init_bam_block.
Proof.
  intros Hlen Hrun.
  assert (zlen (bytes_of_string name) <= 16 /\ zlen (bytes_of_string id) = 2)
    as [Hname Hid].
  { revert Hrun. unfold Img_Init. rewrite Img_BAM_eq. cbn [mbind outcome_bind].
    destruct (BAM_Init d 91392 name id) eqn:Hb; try done. intros _.
    by eapply BAM_Init_Done. }
  destruct (Img_Init_spec d name id Hlen Hname Hid)
    as (d'' & Hrun' & Hl & _ & _ & _ & Hent & _).
  rewrite Hrun in Hrun'. injection Hrun' as <-.
  split; [done|]. intros k Hk. change (0 + k) with k.
  rewrite peek_init_bam_block by lia. unfold init_byte. cbn zeta.
  assert (0 <= (k - 4) / 4 < 35 /\ 0 <= (k - 4) mod 4 < 4
          /\ k = 4 + 4 * ((k - 4) / 4) + (k - 4) mod 4) as (Hi & Hj & Hkk)
    by (Z.div_mod_to_equations; lia).
  remember ((k - 4) / 4) as i eqn:Ei. remember ((k - 4) mod 4) as j eqn:Ej.
  clear Ei Ej. destruct (Hent i Hi) as (H0 & H1 & H2 & H3).
  assert (j = 0 \/ j = 1 \/ j = 2 \/ j = 3) as [->|[->|[->| ->]]] by lia;
    cbn [Z.eqb Pos.eqb].
  - replace (91392 + k) with (91396 + 4 * i) by lia. exact H0.
  - replace (91392 + k) with (91397 + 4 * i) by lia. exact H1.
  - replace (91392 + k) with (91398 + 4 * i) by lia. exact H2.
  - replace (91392 + k) with (91399 + 4 * i) by lia. exact H3.
Qed.

Lemma zlen_init_bam_block : zlen init_bam_block = 144.
Proof. by vm_compute. Qed.

(** C5 fails on the code: on a freshly initialised image, 18 allocations
    take the allocator off track 19 although sector 1 of that track is
    still free; the scan [nextAvailBlock] over track 19, from sector 0 or
    from the sector allocated last, returns the zero address. *)
Theorem nextAvailBlock_skips_free_sector :
  match Img_Init Img_zero "TESTNAME" "12" with
  | Done d0 =>
      match alloc_run 18 d0 (BAM_NewAllocator 91392) with
      | Done (l, a, d) =>
          T <$> l = replicate 18 19
          /\ Sec <$> l = [0; 10; 3; 13; 6; 16; 9; 2; 12; 5; 15; 8; 18; 11; 4; 14; 7; 17]
          /\ a_TS a = mkTS 20 0
          /\ SectorStagger a = SectorFileStagger
          /\ sectorCount 19 = Done 19
          /\ BAM_Avail d 91392 (mkTS 19 1) = Done true
          /\ nextAvailBlock d a (mkTS 19 0) = Done TS0
          /\ nextAvailBlock d a (mkTS 19 17) = Done TS0
      | _ => False
      end
  | _ => False
  end.
Proof.
  destruct (Img_Init_spec Img_zero "TESTNAME" "12")
    as (d0 & Hinit & _); [exact zlen_Img_zero | by vm_compute | by vm_compute |].
  rewrite Hinit.
  destruct (Img_Init_bam_rel _ _ _ _ zlen_Img_zero Hinit) as [Hl0 Hrel0].
  unfold totalByteCount in Hl0.
  set (a0 := BAM_NewAllocator 91392).
  assert (is_Done (alloc_run 18 init_bam_block (rebase 0 a0)) = true) as Hd
    by (by vm_compute).
  destruct (is_Done_inv _ Hd) as [[[l2 a2] d2] Hsmall].
  assert (match alloc_run 18 init_bam_block (rebase 0 a0) with
          | Done (l, a, d) =>
              T <$> l = replicate 18 19
              /\ Sec <$> l
                 = [0; 10; 3; 13; 6; 16; 9; 2; 12; 5; 15; 8; 18; 11; 4; 14; 7; 17]
              /\ a_TS a = mkTS 20 0
              /\ SectorStagger a = SectorFileStagger
              /\ BAM_Avail d 0 (mkTS 19 1) = Done true
              /\ nextAvailBlock d a (mkTS 19 0) = Done TS0
              /\ nextAvailBlock d a (mkTS 19 17) = Done TS0
          | _ => False
          end) as Hfacts by (vm_compute; repeat split; reflexivity).
  rewrite Hsmall in Hfacts.
  destruct Hfacts as (HT & HS & HaT & Hst & Hav & Hn0 & Hn17).
  pose proof (alloc_run_reloc 18 d0 init_bam_block a0 0) as Hr.
  cbn [a_bam a0 BAM_NewAllocator a_TS Sec] in Hr.
  specialize (Hr ltac:(lia) ltac:(lia) ltac:(lia)
                 ltac:(rewrite zlen_init_bam_block; lia) ltac:(lia) Hrel0).
  destruct (outcome_rel_Done_r _ _ _ _ Hr Hsmall)
    as ([[l a] d] & -> & Hl & Ha & Hbam & _ & _ & Hrel).
  cbn [fst snd] in *. subst l2 a2.
  cbn [a_TS SectorStagger rebase] in HaT, Hst.
  split; [done|]. split; [done|]. split; [done|]. split; [done|].
  split; [done|].
  split; [by rewrite (BAM_Avail_reloc d d2 91392 0)|].
  rewrite <- Hbam in Hrel.
  split; by rewrite (nextAvailBlock_reloc d d2 a 0).
Qed.

(** ** Freshly initialised images *)

(** [Img.Init] of the zero image: the BAM block, the directory
    terminator, and zero everywhere else. *)
Lemma Img_Init_zero name id :
  zlen (bytes_of_string name) <= 16 -> zlen (bytes_of_string id) = 2 ->
  exists d,
    Img_Init Img_zero name id = Done d
    /\ zlen d = 174848
    /\ peekTS d 91392 = mkTS 18 1
    /\ peekTS d 91648 = mkTS 0 255
    /\ (forall q, 0 <= q < 91392 \/ 91650 <= q < 174848 -> peek d q = 0)
    /\ bam_rel 91392 0 d init_bam_block
    /\ slice_at d 91536 16 =
         bytes_of_string name
           ++ replicate (Z.to_nat (16 - zlen (bytes_of_string name))) padByte.
Proof.
  intros Hname Hid.
  destruct (Img_Init_spec Img_zero name id zlen_Img_zero Hname Hid)
    as (d & Hinit & Hl & Hdir & _ & _ & _ & Hnm & Hlink & Hout).
  destruct (Img_Init_bam_rel _ _ _ _ zlen_Img_zero Hinit) as [_ Hrel].
  exists d. repeat split; try done.
  intros q Hq. rewrite Hout by lia. apply peek_Img_zero.
  unfold totalByteCount. lia.
Qed.

Lemma disk_with_entry_spec ft :
  zlen (disk_with_entry ft) = 174848
  /\ peekTS (disk_with_entry ft) 91392 = mkTS 18 1
  /\ peek (disk_with_entry ft) (91648 + DirEntry_FileType) = ft
  /\ peekTS (disk_with_entry ft) (91648 + DirEntry_FileTS) = mkTS 19 0.
Proof.
  destruct (Img_Init_zero "TESTNAME" "12")
    as (d & Hinit & Hl & Hbam & _); [by vm_compute..|].
  unfold disk_with_entry. rewrite Hinit. cbn [image_of].
  unfold pokeTS, peekTS, DirEntry_FileType, DirEntry_FileTS in *. cbn [T Sec].
  injection Hbam as Hb0 Hb1.
  split; [zlen_norm; lia|].
  split; [peek_norm; by rewrite Hb0, Hb1|].
  split; by peek_norm.
Qed.

Lemma Img_Dir_eq d ts : peekTS d 91392 = ts -> Img_Dir d = Img_Block ts.
Proof.
  intros <-. unfold Img_Dir. rewrite Img_BAM_eq. cbn [mbind outcome_bind].
  reflexivity.
Qed.

(** A directory whose first entry is a USR file. *)
Lemma USR_entry_panics d :
  peekTS d 91392 = mkTS 18 1 ->
  peek d (91648 + DirEntry_FileType) = USR ->
  peekTS d (91648 + DirEntry_FileTS) = mkTS 19 0 ->
  DirEntry_IsScratched d 91648 = false
  /\ peek d (91648 + DirEntry_FileType) = USR
  /\ DirEntry_FileBlock d 91648 = Panicked PanicUnimplemented
  /\ Img_FS d = Panicked PanicUnimplemented.
Proof.
  intros Hbam Hft Hts.
  assert (DirEntry_IsScratched d 91648 = false) as Hs.
  { unfold DirEntry_IsScratched. by rewrite Hft. }
  assert (DirEntry_FileBlock d 91648 = Panicked PanicUnimplemented) as Hfb.
  { unfold DirEntry_FileBlock. by rewrite Hts, Hft. }
  split; [exact Hs|]. split; [exact Hft|]. split; [exact Hfb|].
  unfold Img_FS, loadDirEntries. rewrite Img_BAM_eq, (Img_Dir_eq d _ Hbam).
  change (Img_Block (mkTS 18 1)) with (Done (A:=Z) 91648).
  cbn [mbind outcome_bind].
  change (Z.to_nat totalBlockCount + 1)%nat with (S (Z.to_nat totalBlockCount)).
  cbn [loadDirEntries_loop loadDirEntries_block].
  change (DirBlock_Files 91648 0) with 91648.
  unfold newDirEntryFile. by rewrite Hs, Hfb.
Qed.

(** C9, as stated, fails: with a USR entry in the directory the block
    dispatch panics, and so does building the file system. *)
Lemma unsupported_file_type_counterexample :
  DirEntry_IsScratched (disk_with_entry USR) 91648 = false
  /\ peek (disk_with_entry USR) (91648 + DirEntry_FileType) = USR
  /\ DirEntry_FileBlock (disk_with_entry USR) 91648 = Panicked PanicUnimplemented
  /\ Img_FS (disk_with_entry USR) = Panicked PanicUnimplemented.
Proof.
  destruct (disk_with_entry_spec USR) as (Hl & Hbam & Hft & Hts).
  exact (USR_entry_panics _ Hbam Hft Hts).
Qed.

Lemma unsupported_file_type_witness :
  DirEntry_FileBlock (disk_with_entry REL) 91648 = Panicked PanicUnimplemented
  /\ newDirEntryFile (disk_with_entry REL) 91648 = Panicked PanicUnimplemented
  /\ exists p, loadDirEntries (disk_with_entry REL) = Panicked p
               /\ Img_FS (disk_with_entry REL) = Panicked p.
Proof.
  destruct (disk_with_entry_spec REL) as (Hl & Hbam & Hft & Hts).
  destruct (unsupported_file_type (disk_with_entry REL) 91648)
    as (_ & Hexact & _ & _ & H); [by rewrite Hft..|].
  rewrite Hft, Hts in Hexact.
  destruct (Hexact ltac:(split; cbn [T Sec]; unfold is_byte; lia))
    as [Hfb Hnew].
  split; [exact Hfb|]. split; [exact Hnew|].
  apply (H 91648 0); [|lia|reflexivity].
  rewrite (Img_Dir_eq _ _ Hbam). reflexivity.
Defined.

(** ** Appending a directory block *)

Lemma Img_Block_Done_T ts off : Img_Block ts = Done off -> 1 <= T ts.
Proof.
  unfold Img_Block, TS_Offset. destruct (Z.ltb_spec (T ts) 1); [done|]. lia.
Qed.

Lemma Img_Block_TS0 : Img_Block TS0 = Panicked (PanicErr BadTS).
Proof. reflexivity. Qed.


(** ** Scanning a directory block *)

Lemma DirBlock_NextAvail_from_None n : forall d dir i0,
  (forall i, i0 <= i < i0 + Z.of_nat n ->
     peek d (DirBlock_Files dir i + DirEntry_FileType) <> Scratched) ->
  DirBlock_NextAvail_from n d dir i0 = None.
Proof.
  induction n as [|n IH]; intros d dir i0 Hocc; [done|].
  cbn [DirBlock_NextAvail_from].
  destruct (Z.eqb_spec (peek d (DirBlock_Files dir i0 + DirEntry_FileType))
                       Scratched) as [He|_].
  - exfalso. by apply (Hocc i0); [lia|].
  - apply IH. intros i Hi. apply Hocc. lia.
Qed.

Lemma DirBlock_NextAvail_from_Some n : forall d dir i0 k,
  i0 <= k < i0 + Z.of_nat n ->
  (forall i, i0 <= i < k ->
     peek d (DirBlock_Files dir i + DirEntry_FileType) <> Scratched) ->
  peek d (DirBlock_Files dir k + DirEntry_FileType) = Scratched ->
  DirBlock_NextAvail_from n d dir i0 = Some (DirBlock_Files dir k).
Proof.
  induction n as [|n IH]; intros d dir i0 k Hk Hocc Hfree; [lia|].
  cbn [DirBlock_NextAvail_from].
  destruct (decide (k = i0)) as [->|Hne].
  - by rewrite Hfree.
  - destruct (Z.eqb_spec (peek d (DirBlock_Files dir i0 + DirEntry_FileType))
                         Scratched) as [He|_].
    + exfalso. by apply (Hocc i0); [lia|].
    + apply IH; [lia| |done]. intros i Hi. apply Hocc. lia.
Qed.

Lemma loadDirEntries_block_Done n : forall d dir i0 files,
  (forall i, i0 <= i < i0 + Z.of_nat n ->
     exists r, newDirEntryFile d (DirBlock_Files dir i) = Done r) ->
  exists files', loadDirEntries_block n d dir i0 files = Done files'.
Proof.
  induction n as [|n IH]; intros d dir i0 files Hok; [by eexists|].
  cbn [loadDirEntries_block].
  destruct (Hok i0 ltac:(lia)) as [r ->]. cbn [mbind outcome_bind].
  apply IH. intros i Hi. apply Hok. lia.
Qed.

Lemma loadDirEntries_block_scratched n : forall d dir i0 files,
  (forall i, i0 <= i < i0 + Z.of_nat n ->
     peek d (DirBlock_Files dir i + DirEntry_FileType) = Scratched) ->
  loadDirEntries_block n d dir i0 files = Done files.
Proof.
  induction n as [|n IH]; intros d dir i0 files Hs; [done|].
  cbn [loadDirEntries_block]. unfold newDirEntryFile, DirEntry_IsScratched.
  rewrite (Hs i0) by lia. cbn [Z.eqb Scratched mbind outcome_bind].
  apply IH. intros i Hi. apply Hs. lia.
Qed.

(** The stores of [occupy_entry] and [occupy_block]. *)
Lemma occupy_entry_spec d dir i :
  0 <= dir -> 0 <= i < 8 -> dir + 256 <= zlen d ->
  zlen (occupy_entry d dir i) = zlen d
  /\ peek (occupy_entry d dir i) (DirBlock_Files dir i + DirEntry_FileType) = PRG
  /\ peekTS (occupy_entry d dir i) (DirBlock_Files dir i + DirEntry_FileTS)
     = mkTS 19 0
  /\ (forall q, 0 <= q ->
        q < dir + 32 * i + 2 \/ dir + 32 * i + 5 <= q ->
        peek (occupy_entry d dir i) q = peek d q).
Proof.
  intros Hdir Hi Hlen.
  unfold occupy_entry, peekTS, pokeTS, DirBlock_Files, DirEntry_FileType,
    DirEntry_FileTS. cbn [T Sec].
  split; [by zlen_norm|].
  split; [by peek_norm|].
  split; [by peek_norm|].
  intros q Hq Hout. by peek_norm.
Qed.

Lemma occupy_block_spec d dir :
  0 <= dir -> dir + 256 <= zlen d ->
  zlen (occupy_block d dir) = zlen d
  /\ (forall i, 0 <= i < 8 ->
        peek (occupy_block d dir) (DirBlock_Files dir i + DirEntry_FileType) = PRG
        /\ peekTS (occupy_block d dir) (DirBlock_Files dir i + DirEntry_FileTS)
           = mkTS 19 0)
  /\ (forall q, 0 <= q ->
        q < dir + 2 \/ dir + 256 <= q ->
        peek (occupy_block d dir) q = peek d q).
Proof.
  intros Hdir Hlen.
  unfold occupy_block. change (seqZ 0 8) with [0; 1; 2; 3; 4; 5; 6; 7].
  cbn [foldl].
  unfold occupy_entry, peekTS, pokeTS, DirBlock_Files, DirEntry_FileType,
    DirEntry_FileTS. cbn [T Sec].
  split; [by zlen_norm|].
  split.
  - intros i Hi.
    assert (i = 0 \/ i = 1 \/ i = 2 \/ i = 3 \/ i = 4 \/ i = 5 \/ i = 6 \/ i = 7)
      as [->|[->|[->|[->|[->|[->|[->| ->]]]]]]] by lia;
      (split; [by peek_norm | f_equal; by peek_norm]).
  - intros q Hq Hout. by peek_norm.
Qed.

(** ** A full directory on a fresh image *)

(** The full directory: what [full_dir_disk] holds. *)
Lemma full_dir_disk_spec :
  zlen full_dir_disk = 174848
  /\ peekTS full_dir_disk 91392 = mkTS 18 1
  /\ peekTS full_dir_disk 91648 = mkTS 0 255
  /\ bam_rel 91392 0 full_dir_disk init_bam_block
  /\ (forall i, 0 <= i < 8 ->
        peek full_dir_disk (DirBlock_Files 91648 i + DirEntry_FileType) = PRG
        /\ peekTS full_dir_disk (DirBlock_Files 91648 i + DirEntry_FileTS)
           = mkTS 19 0)
  /\ (forall q, 91904 <= q < 174848 -> peek full_dir_disk q = 0).
Proof.
  destruct (Img_Init_zero "TESTNAME" "12")
    as (d & Hinit & Hl & Hbam & Hlink & Hzero & Hrel & _); [by vm_compute..|].
  unfold full_dir_disk. rewrite Hinit. cbn [image_of].
  destruct (occupy_block_spec d 91648) as (Hl' & Hocc & Hout); [lia..|].
  unfold peekTS in *.
  split; [lia|].
  split; [by rewrite !Hout by lia|].
  split; [by rewrite !Hout by lia|].
  split; [intros k Hk; rewrite Hout by lia; by apply Hrel|].
  split; [exact Hocc|].
  intros q Hq. rewrite Hout by lia. apply Hzero. lia.
Qed.

(** The first block that the directory allocator hands out on a fresh
    availability map is [{18, 4}]. *)
Lemma dir_alloc_first F :
  zlen F = 174848 -> peekTS F 91392 = mkTS 18 1 ->
  bam_rel 91392 0 F init_bam_block ->
  exists a' d1, Allocator_Alloc F (dir_allocator F) = Done (mkTS 18 4, a', d1).
Proof.
  intros Hl Hb Hrel. unfold dir_allocator. rewrite Hb.
  set (a0 := mkAllocator 91392 (mkTS 18 1) SectorDirStagger (fun _ => 0)).
  assert (is_Done (Allocator_Alloc init_bam_block (rebase 0 a0)) = true) as Hd
    by (by vm_compute).
  destruct (is_Done_inv _ Hd) as [[[ts2 a2] d2] Hsmall].
  assert (match Allocator_Alloc init_bam_block (rebase 0 a0) with
          | Done (ts, _, _) => ts = mkTS 18 4
          | _ => False
          end) as Hfact by (by vm_compute).
  rewrite Hsmall in Hfact. subst ts2.
  pose proof (Allocator_Alloc_reloc F init_bam_block a0 0) as Hr.
  cbn [a_bam a0 a_TS Sec] in Hr.
  specialize (Hr ltac:(lia) ltac:(lia) ltac:(lia)
                 ltac:(rewrite zlen_init_bam_block; lia) ltac:(lia) Hrel).
  destruct (outcome_rel_Done_r _ _ _ _ Hr Hsmall)
    as ([[ts a] d] & -> & Hts & _).
  cbn [fst snd] in Hts. subst ts. by eexists _, _.
Qed.

Lemma full_dir_hyps F :
  zlen F = 174848 -> peekTS F 91392 = mkTS 18 1 ->
  peekTS F 91648 = mkTS 0 255 ->
  bam_rel 91392 0 F init_bam_block ->
  (forall i, 0 <= i < 8 ->
     peek F (DirBlock_Files 91648 i + DirEntry_FileType) = PRG
     /\ peekTS F (DirBlock_Files 91648 i + DirEntry_FileTS) = mkTS 19 0) ->
  (forall q, 91904 <= q < 174848 -> peek F q = 0) ->
  zlen F = totalByteCount
  /\ 0 <= Sec (peekTS F 91392)
  /\ Img_Dir F = Done 91648
  /\ DirBlock_NextAvail F 91648 = None
  /\ (DirBlock_Next F 91648).2 = false
  /\ (exists a' d1,
        Allocator_Alloc F (dir_allocator F) = Done (mkTS 18 4, a', d1))
  /\ Img_Block (mkTS 18 4) = Done 92416
  /\ peek F (92416 + DirEntry_FileType) = Scratched
  /\ peekTS F 92416 = TS0.
Proof.
  intros Hl Hb Hk Hrel Hocc Hz.
  split; [exact Hl|].
  split; [by rewrite Hb|].
  split; [by rewrite (Img_Dir_eq _ _ Hb)|].
  split.
  { apply DirBlock_NextAvail_from_None. intros i Hi.
    rewrite (proj1 (Hocc i ltac:(lia))). done. }
  split.
  { unfold DirBlock_Next.
    change (DirBlock_Files 91648 0 + DirEntry_DirLink) with 91648.
    by rewrite Hk. }
  split; [by apply dir_alloc_first|].
  split; [reflexivity|].
  split; [by apply Hz|].
  unfold peekTS. by rewrite !Hz by lia.
Qed.

(** A directory whose first block is full and linked to block [{18, 4}]. *)
Lemma NewDirEntry_second_block d :
  peekTS d 91392 = mkTS 18 1 ->
  (forall i, 0 <= i < 8 ->
     peek d (DirBlock_Files 91648 i + DirEntry_FileType) <> Scratched) ->
  peekTS d 91648 = mkTS 18 4 ->
  Img_NewDirEntry d
  = NewDirEntry_loop (S (Z.to_nat 682)) d (dir_allocator d) 92416.
Proof.
  intros Hb Hocc Hlink.
  unfold Img_NewDirEntry. rewrite Img_BAM_eq. cbn [mbind outcome_bind].
  change (91392 + BAM_DirTS) with 91392.
  change (mkAllocator _ _ _ _) with (dir_allocator d).
  rewrite Hb. change (Img_Block (mkTS 18 1)) with (Done (A:=Z) 91648).
  cbn [mbind outcome_bind].
  change (Z.to_nat totalBlockCount + 1)%nat with (S (S (Z.to_nat 682))).
  cbn [NewDirEntry_loop]. unfold DirBlock_NextAvail at 1.
  rewrite DirBlock_NextAvail_from_None by (intros i Hi; apply Hocc; lia).
  unfold DirBlock_Next at 1.
  change (DirBlock_Files 91648 0 + DirEntry_DirLink) with 91648.
  rewrite Hlink. reflexivity.
Qed.

Lemma loadDirEntries_second_block d files :
  peekTS d 91392 = mkTS 18 1 ->
  loadDirEntries_block 8 d 91648 0 ∅ = Done files ->
  peekTS d 91648 = mkTS 18 4 ->
  loadDirEntries d
  = loadDirEntries_loop (S (Z.to_nat 682)) d 92416 files.
Proof.
  intros Hb Hload Hlink.
  unfold loadDirEntries. rewrite (Img_Dir_eq _ _ Hb).
  change (Img_Block (mkTS 18 1)) with (Done (A:=Z) 91648).
  cbn [mbind outcome_bind].
  change (Z.to_nat totalBlockCount + 1)%nat with (S (S (Z.to_nat 682))).
  cbn [loadDirEntries_loop]. rewrite Hload. cbn [mbind outcome_bind].
  unfold DirBlock_Next at 1.
  change (DirBlock_Files 91648 0 + DirEntry_DirLink) with 91648.
  rewrite Hlink. reflexivity.
Qed.

Lemma NewDirEntry_on_full_dir F :
  zlen F = 174848 -> peekTS F 91392 = mkTS 18 1 ->
  peekTS F 91648 = mkTS 0 255 ->
  bam_rel 91392 0 F init_bam_block ->
  (forall i, 0 <= i < 8 ->
     peek F (DirBlock_Files 91648 i + DirEntry_FileType) = PRG
     /\ peekTS F (DirBlock_Files 91648 i + DirEntry_FileTS) = mkTS 19 0) ->
  (forall q, 91904 <= q < 174848 -> peek F q = 0) ->
  match Img_NewDirEntry F with
  | Done (ent, d2) =>
      Img_Block (mkTS 18 4) = Done ent
      /\ DirBlock_Next d2 91648 = (mkTS 18 4, true)
      /\ DirBlock_Next d2 ent = (TS0, true)
      /\ is_Done (loadDirEntries_block 8 d2 91648 0 ∅) = true
      /\ loadDirEntries d2 = Panicked (PanicErr BadTS)
      /\ Img_FS d2 = Panicked (PanicErr BadTS)
      /\ is_Done (Img_NewDirEntry (occupy_entry d2 ent 0)) = true
      /\ Img_NewDirEntry (occupy_block d2 ent) = Panicked (PanicErr BadTS)
  | _ => False
  end.
Proof.
  intros Hl Hb Hk Hrel Hocc Hz.
  destruct (full_dir_hyps F Hl Hb Hk Hrel Hocc Hz)
    as (_ & _ & Hdir & Hfull & Hlast & (a' & d1 & Halloc) & Hnb & Hfree & Hnull).
  destruct (Allocator_Alloc_frame F (dir_allocator F) _ _ _
              ltac:(cbn; lia) ltac:(cbn [dir_allocator a_TS]; by rewrite Hb)
              Halloc) as (Hl1 & Hout & _).
  cbn [a_bam dir_allocator] in Hout.
  set (d2 := DirBlock_SetNext d1 91648 (mkTS 18 4)).
  assert (zlen d2 = 174848) as Hl2.
  { unfold d2, DirBlock_SetNext. rewrite zlen_pokeTS. lia. }
  assert (forall q, 0 <= q -> q < 91396 \/ 91536 <= q ->
                    q <> 91648 -> q <> 91649 -> peek d2 q = peek F q) as Hd2.
  { intros q Hq Hq' Hq0 Hq1. unfold d2, DirBlock_SetNext.
    change (DirBlock_Files 91648 0 + DirEntry_DirLink) with 91648.
    rewrite peek_pokeTS_out by lia. by apply Hout. }
  assert (peekTS d2 91648 = mkTS 18 4) as Hlink.
  { unfold d2, DirBlock_SetNext.
    change (DirBlock_Files 91648 0 + DirEntry_DirLink) with 91648.
    apply peekTS_pokeTS; lia. }
  assert (forall d', (forall q, 0 <= q -> q < 92418 -> peek d' q = peek d2 q) ->
     peekTS d' 91392 = mkTS 18 1
     /\ (forall i, 0 <= i < 8 ->
           peek d' (DirBlock_Files 91648 i + DirEntry_FileType) = PRG
           /\ peekTS d' (DirBlock_Files 91648 i + DirEntry_FileTS) = mkTS 19 0)
     /\ peekTS d' 91648 = mkTS 18 4
     /\ peekTS d' 92416 = TS0) as Hkeep.
  { intros d' Hsame. unfold peekTS in *.
    split; [rewrite !Hsame, !Hd2 by lia; exact Hb|].
    split.
    { intros i Hi. destruct (Hocc i Hi) as [H1 H2].
      unfold DirBlock_Files, DirEntry_FileType, DirEntry_FileTS in *.
      rewrite !Hsame, !Hd2 by lia. by split. }
    split; [rewrite !Hsame by lia; exact Hlink|].
    rewrite !Hsame, !Hd2 by lia. exact Hnull. }
  destruct (Hkeep d2 ltac:(done)) as (Hb2 & Hocc2 & _ & Hnull2).
  assert (forall d', (forall i, 0 <= i < 8 ->
        peek d' (DirBlock_Files 91648 i + DirEntry_FileType) = PRG
        /\ peekTS d' (DirBlock_Files 91648 i + DirEntry_FileTS) = mkTS 19 0) ->
     forall i, 0 <= i < 8 ->
       peek d' (DirBlock_Files 91648 i + DirEntry_FileType) <> Scratched)
    as Hne.
  { intros d' H i Hi. by rewrite (proj1 (H i Hi)). }
  assert (Img_NewDirEntry F = Done (92416, d2)) as Hrun.
  { unfold Img_NewDirEntry. rewrite Img_BAM_eq. cbn [mbind outcome_bind].
    change (91392 + BAM_DirTS) with 91392.
    change (mkAllocator _ _ _ _) with (dir_allocator F).
    rewrite Hb at 1. change (Img_Block (mkTS 18 1)) with (Done (A:=Z) 91648).
    cbn [mbind outcome_bind].
    change (Z.to_nat totalBlockCount + 1)%nat with (S (S (Z.to_nat 682))).
    cbn [NewDirEntry_loop]. rewrite Hfull.
    destruct (DirBlock_Next F 91648) as [x ok]. cbn [snd] in Hlast.
    subst ok. rewrite Halloc, Hnb. cbn [mbind outcome_bind]. fold d2.
    unfold DirBlock_NextAvail.
    rewrite (DirBlock_NextAvail_from_Some 8 d2 92416 0 0); [done|lia|lia|].
    change (DirBlock_Files 92416 0 + DirEntry_FileType) with 92418.
    rewrite Hd2 by lia. by apply Hz. }
  rewrite Hrun.
  assert (DirBlock_Next d2 92416 = (TS0, true)) as Hnext2.
  { unfold DirBlock_Next.
    change (DirBlock_Files 92416 0 + DirEntry_DirLink) with 92416.
    by rewrite Hnull2. }
  destruct (loadDirEntries_block_Done 8 d2 91648 0 ∅) as [f1 Hf1].
  { intros i Hi. destruct (Hocc2 i ltac:(lia)) as [H1 H2].
    unfold newDirEntryFile, DirEntry_IsScratched, DirEntry_FileBlock.
    rewrite H1, H2. by eexists. }
  assert (loadDirEntries d2 = Panicked (PanicErr BadTS)) as Hload.
  { rewrite (loadDirEntries_second_block d2 f1 Hb2 Hf1 Hlink).
    cbn [loadDirEntries_loop].
    rewrite loadDirEntries_block_scratched.
    - cbn [mbind outcome_bind]. by rewrite Hnext2.
    - intros i Hi. unfold DirBlock_Files, DirEntry_FileType.
      rewrite Hd2 by lia. apply Hz. lia. }
  split; [reflexivity|].
  split.
  { unfold DirBlock_Next.
    change (DirBlock_Files 91648 0 + DirEntry_DirLink) with 91648.
    by rewrite Hlink. }
  split; [exact Hnext2|].
  split; [by rewrite Hf1|].
  split; [exact Hload|].
  split.
  { unfold Img_FS. rewrite Img_BAM_eq. cbn [mbind outcome_bind].
    by rewrite Hload. }
  split.
  - destruct (occupy_entry_spec d2 92416 0) as (Hl3 & Hft3 & _ & Hout3);
      [lia..|].
    destruct (Hkeep (occupy_entry d2 92416 0)) as (Hb3 & Hocc3 & Hlink3 & _).
    { intros q Hq Hq'. apply Hout3; lia. }
    rewrite (NewDirEntry_second_block _ Hb3 (Hne _ Hocc3) Hlink3).
    cbn [NewDirEntry_loop]. unfold DirBlock_NextAvail.
    rewrite (DirBlock_NextAvail_from_Some 8 _ 92416 0 1); [done|lia| |].
    + intros i Hi. assert (i = 0) as -> by lia. by rewrite Hft3.
    + unfold DirBlock_Files, DirEntry_FileType.
      rewrite Hout3, Hd2 by lia. apply Hz. lia.
  - destruct (occupy_block_spec d2 92416) as (Hl4 & Hocc4 & Hout4); [lia..|].
    destruct (Hkeep (occupy_block d2 92416)) as (Hb4 & Hocc4' & Hlink4 & Hnull4).
    { intros q Hq Hq'. apply Hout4; lia. }
    rewrite (NewDirEntry_second_block _ Hb4 (Hne _ Hocc4') Hlink4).
    cbn [NewDirEntry_loop]. unfold DirBlock_NextAvail.
    rewrite DirBlock_NextAvail_from_None.
    + unfold DirBlock_Next.
      change (DirBlock_Files 92416 0 + DirEntry_DirLink) with 92416.
      by rewrite Hnull4.
    + intros i Hi. by rewrite (proj1 (Hocc4 i ltac:(lia))).
Qed.

(** The same on a disk: the directory of a fresh image is filled, the
    ninth entry is asked for, and the directory is then listed, or filled
    again and asked for a seventeenth entry. *)
Lemma NewDirEntry_on_full_dir_disk :
  match Img_NewDirEntry full_dir_disk with
  | Done (ent, d2) =>
      Img_Block (mkTS 18 4) = Done ent
      /\ DirBlock_Next d2 91648 = (mkTS 18 4, true)
      /\ DirBlock_Next d2 ent = (TS0, true)
      /\ is_Done (loadDirEntries_block 8 d2 91648 0 ∅) = true
      /\ loadDirEntries d2 = Panicked (PanicErr BadTS)
      /\ Img_FS d2 = Panicked (PanicErr BadTS)
      /\ is_Done (Img_NewDirEntry (occupy_entry d2 ent 0)) = true
      /\ Img_NewDirEntry (occupy_block d2 ent) = Panicked (PanicErr BadTS)
  | _ => False
  end.
Proof.
  destruct full_dir_disk_spec as (Hl & Hb & Hk & Hrel & Hocc & Hz).
  exact (NewDirEntry_on_full_dir _ Hl Hb Hk Hrel Hocc Hz).
Qed.

(** ** Walking the directory chain *)

Lemma chain_last_snoc rest : forall b nb, chain_last b (rest ++ [nb]) = nb.
Proof. induction rest as [|b' rest IH]; intros b nb; [done|apply IH]. Qed.

Lemma chain_last_elem rest : forall b, chain_last b rest ∈ b :: rest.
Proof.
  induction rest as [|b' rest IH]; intros b; cbn [chain_last]; [set_solver|].
  apply elem_of_cons. right. apply IH.
Qed.

(** The blocks of a chain are blocks of the image. *)
Lemma dir_links_blocks d rest : forall b b',
  dir_links d b rest -> b' ∈ rest -> exists k, 0 <= k < 683 /\ b' = 256 * k.
Proof.
  induction rest as [|b1 rest IH]; intros b b' Hlinks Hin;
    [by apply elem_of_nil in Hin|].
  destruct Hlinks as (ts & Hnext & Hsec & Hblk & Hrest).
  apply elem_of_cons in Hin as [->|Hin].
  - by apply (Img_Block_Done ts).
  - by apply (IH b1).
Qed.

(** The links of a chain in another image that holds the same links. *)
Lemma dir_links_frame d x rest : forall b,
  dir_links d b rest ->
  (forall b', b' ∈ b :: rest -> (DirBlock_Next d b').2 = true ->
     DirBlock_Next x b' = DirBlock_Next d b') ->
  dir_links x b rest.
Proof.
  induction rest as [|b1 rest IH]; intros b Hlinks Hsame; [done|].
  destruct Hlinks as (ts & Hnext & Hsec & Hblk & Hrest).
  exists ts. split.
  { rewrite Hsame; [done|set_solver|by rewrite Hnext]. }
  split; [done|]. split; [done|].
  apply IH; [done|]. intros b' Hin. apply Hsame. set_solver.
Qed.

(** A chain extended by the block that its last block is linked to. *)
Lemma dir_links_snoc x rest : forall b ts nb,
  dir_links x b rest ->
  DirBlock_Next x (chain_last b rest) = (ts, true) -> 0 <= Sec ts ->
  Img_Block ts = Done nb ->
  dir_links x b (rest ++ [nb]).
Proof.
  induction rest as [|b1 rest IH]; intros b ts nb Hlinks Hnext Hsec Hblk.
  - cbn in *. by exists ts.
  - destruct Hlinks as (ts1 & Hnext1 & Hsec1 & Hblk1 & Hrest).
    exists ts1. split; [done|]. split; [done|]. split; [done|].
    by apply (IH b1 ts nb).
Qed.

(** [Img.NewDirEntry] walks through the blocks without a scratched
    entry. *)
Lemma NewDirEntry_loop_walk x a rest : forall b fuel,
  dir_links x b rest ->
  (forall b', b' ∈ b :: rest -> DirBlock_NextAvail x b' = None) ->
  NewDirEntry_loop (length rest + fuel) x a b
  = NewDirEntry_loop fuel x a (chain_last b rest).
Proof.
  induction rest as [|b1 rest IH]; intros b fuel Hlinks Hfull; [done|].
  destruct Hlinks as (ts & Hnext & Hsec & Hblk & Hrest).
  cbn [length Nat.add NewDirEntry_loop chain_last].
  rewrite Hfull by set_solver.
  rewrite Hnext, Hblk. cbn [mbind outcome_bind].
  apply IH; [done|]. intros b' Hin. apply Hfull. set_solver.
Qed.

(** [loadDirEntries] walks through the blocks whose entries load. *)
Lemma loadDirEntries_loop_walk x rest : forall b fuel files,
  dir_links x b rest ->
  (forall b', b' ∈ b :: rest -> entries_load x b') ->
  exists files',
    loadDirEntries_loop (length rest + fuel) x b files
    = loadDirEntries_loop fuel x (chain_last b rest) files'.
Proof.
  induction rest as [|b1 rest IH]; intros b fuel files Hlinks Hload;
    [by exists files|].
  destruct Hlinks as (ts & Hnext & Hsec & Hblk & Hrest).
  cbn [length Nat.add loadDirEntries_loop chain_last].
  destruct (loadDirEntries_block_Done 8 x b 0 files) as [f1 ->].
  { intros i Hi. apply (Hload b); [set_solver|lia]. }
  cbn [mbind outcome_bind]. rewrite Hnext, Hblk. cbn [mbind outcome_bind].
  apply IH; [done|]. intros b' Hin. apply Hload. set_solver.
Qed.

(** What the directory functions read of a block. *)
Lemma DirBlock_NextAvail_frame d x b :
  (forall i, 0 <= i < 8 ->
     peek x (DirBlock_Files b i + DirEntry_FileType)
     = peek d (DirBlock_Files b i + DirEntry_FileType)) ->
  DirBlock_NextAvail x b = DirBlock_NextAvail d b.
Proof.
  intros Hsame. unfold DirBlock_NextAvail.
  assert (forall n i0, 0 <= i0 -> i0 + Z.of_nat n <= 8 ->
            DirBlock_NextAvail_from n x b i0 = DirBlock_NextAvail_from n d b i0)
    as Hgen.
  { induction n as [|n IH]; intros i0 Hi0 Hn; [done|].
    cbn [DirBlock_NextAvail_from]. rewrite Hsame by lia.
    destruct (_ =? Scratched); [done|]. apply IH; lia. }
  apply Hgen; lia.
Qed.

Lemma DirBlock_Next_frame d x b :
  peekTS x b = peekTS d b -> DirBlock_Next x b = DirBlock_Next d b.
Proof.
  intros Hsame. unfold DirBlock_Next, DirBlock_Files, DirEntry_DirLink.
  replace (b + 32 * 0 + 0) with b by lia. by rewrite Hsame.
Qed.

Lemma newDirEntryFile_frame d x e :
  peek x (e + DirEntry_FileType) = peek d (e + DirEntry_FileType) ->
  peekTS x (e + DirEntry_FileTS) = peekTS d (e + DirEntry_FileTS) ->
  newDirEntryFile x e = newDirEntryFile d e.
Proof.
  intros Hft Hts.
  unfold newDirEntryFile, DirEntry_IsScratched, DirEntry_FileBlock.
  by rewrite Hft, Hts.
Qed.

(** Images that agree on a block but for its chain link. *)
Lemma block_frame d x b :
  0 <= b ->
  (forall q, b + 2 <= q < b + 256 -> peek x q = peek d q) ->
  DirBlock_NextAvail x b = DirBlock_NextAvail d b
  /\ (entries_load d b -> entries_load x b).
Proof.
  intros Hb Hsame. split.
  - apply DirBlock_NextAvail_frame. intros i Hi. apply Hsame.
    unfold DirBlock_Files, DirEntry_FileType. lia.
  - intros Hload i Hi. destruct (Hload i Hi) as [r Hr]. exists r.
    rewrite <- Hr. apply newDirEntryFile_frame.
    + apply Hsame. unfold DirBlock_Files, DirEntry_FileType. lia.
    + unfold peekTS, DirBlock_Files, DirEntry_FileTS.
      by rewrite !Hsame by lia.
Qed.

(** The directory functions on a chain whose last block is linked to
    [{0, 0}]. *)
Lemma NewDirEntry_dangling x dir0 rest :
  Img_Dir x = Done dir0 -> dir_links x dir0 rest ->
  (length rest <= 683)%nat ->
  (forall b, b ∈ dir0 :: rest -> DirBlock_NextAvail x b = None) ->
  DirBlock_Next x (chain_last dir0 rest) = (TS0, true) ->
  Img_NewDirEntry x = Panicked (PanicErr BadTS).
Proof.
  intros Hdir Hlinks Hlen Hfull Hnext.
  unfold Img_Dir in Hdir. rewrite Img_BAM_eq in Hdir.
  cbn [mbind outcome_bind] in Hdir.
  unfold Img_NewDirEntry. rewrite Img_BAM_eq. cbn [mbind outcome_bind].
  rewrite Hdir. cbn [mbind outcome_bind].
  change (Z.to_nat totalBlockCount + 1)%nat with 684%nat.
  replace 684%nat with (length rest + S (683 - length rest))%nat by lia.
  rewrite NewDirEntry_loop_walk by done.
  cbn [NewDirEntry_loop].
  rewrite Hfull by apply chain_last_elem. by rewrite Hnext.
Qed.

Lemma loadDirEntries_dangling x dir0 rest :
  Img_Dir x = Done dir0 -> dir_links x dir0 rest ->
  (length rest <= 683)%nat ->
  (forall b, b ∈ dir0 :: rest -> entries_load x b) ->
  DirBlock_Next x (chain_last dir0 rest) = (TS0, true) ->
  loadDirEntries x = Panicked (PanicErr BadTS)
  /\ Img_FS x = Panicked (PanicErr BadTS).
Proof.
  intros Hdir Hlinks Hlen Hload Hnext.
  assert (loadDirEntries x = Panicked (PanicErr BadTS)) as Hpanic.
  { unfold loadDirEntries. rewrite Hdir. cbn [mbind outcome_bind].
    change (Z.to_nat totalBlockCount + 1)%nat with 684%nat.
    replace 684%nat with (length rest + S (683 - length rest))%nat by lia.
    destruct (loadDirEntries_loop_walk x rest dir0 (S (683 - length rest)) ∅
                Hlinks Hload) as [files ->].
    cbn [loadDirEntries_loop].
    destruct (loadDirEntries_block_Done 8 x (chain_last dir0 rest) 0 files)
      as [f1 ->].
    { intros i Hi. apply (Hload (chain_last dir0 rest));
        [apply chain_last_elem|lia]. }
    cbn [mbind outcome_bind]. by rewrite Hnext. }
  split; [done|].
  unfold Img_FS. rewrite Img_BAM_eq. cbn [mbind outcome_bind].
  by rewrite Hpanic.
Qed.

(** [loadDirEntries] on a chain with an end mark. *)
Lemma loadDirEntries_terminated x dir0 rest :
  Img_Dir x = Done dir0 -> dir_links x dir0 rest ->
  (length rest <= 683)%nat ->
  (forall b, b ∈ dir0 :: rest -> entries_load x b) ->
  (DirBlock_Next x (chain_last dir0 rest)).2 = false ->
  is_Done (loadDirEntries x) = true /\ is_Done (Img_FS x) = true.
Proof.
  intros Hdir Hlinks Hlen Hload Hnext.
  assert (exists files, loadDirEntries x = Done files) as [files Hdone].
  { unfold loadDirEntries. rewrite Hdir. cbn [mbind outcome_bind].
    change (Z.to_nat totalBlockCount + 1)%nat with 684%nat.
    replace 684%nat with (length rest + S (683 - length rest))%nat by lia.
    destruct (loadDirEntries_loop_walk x rest dir0 (S (683 - length rest)) ∅
                Hlinks Hload) as [files ->].
    cbn [loadDirEntries_loop].
    destruct (loadDirEntries_block_Done 8 x (chain_last dir0 rest) 0 files)
      as [f1 ->].
    { intros i Hi. apply (Hload (chain_last dir0 rest));
        [apply chain_last_elem|lia]. }
    cbn [mbind outcome_bind].
    destruct (DirBlock_Next x (chain_last dir0 rest)) as [ts ok].
    cbn [snd] in Hnext. subst ok. by eexists. }
  split; [by rewrite Hdone|].
  unfold Img_FS. rewrite Img_BAM_eq. cbn [mbind outcome_bind].
  by rewrite Hdone.
Qed.

(** ** Appending a block to a full directory *)

(** [Img.NewDirEntry] on a directory chain without a scratched entry:
    the walk to the last block, the allocation, the link, and what the
    image holds afterwards. *)
Lemma NewDirEntry_append d dir0 rest ts a' d1 nb :
  zlen d = totalByteCount ->
  0 <= Sec (peekTS d 91392) ->
  Img_Dir d = Done dir0 ->
  dir_links d dir0 rest -> (length rest <= 682)%nat ->
  (forall b, b ∈ dir0 :: rest -> DirBlock_NextAvail d b = None) ->
  (DirBlock_Next d (chain_last dir0 rest)).2 = false ->
  Allocator_Alloc d (dir_allocator d) = Done (ts, a', d1) ->
  Img_Block ts = Done nb ->
  91392 ∉ nb :: dir0 :: rest -> nb ∉ dir0 :: rest ->
  let dir := chain_last dir0 rest in
  let d2 := DirBlock_SetNext d1 dir ts in
  (forall b, b ∈ nb :: dir0 :: rest -> exists k, 0 <= k < 683 /\ b = 256 * k)
  /\ (forall q, 0 <= q -> q < 91396 \/ 91536 <= q -> q <> dir -> q <> dir + 1 ->
        peek d2 q = peek d q)
  /\ DirBlock_Next d2 dir = (ts, true)
  /\ Img_NewDirEntry d = NewDirEntry_loop (S (682 - length rest)) d2 a' nb
  /\ Img_Dir d2 = Done dir0
  /\ dir_links d2 dir0 (rest ++ [nb])
  /\ (forall b, b ∈ nb :: dir0 :: rest ->
        DirBlock_NextAvail d2 b = DirBlock_NextAvail d b
        /\ (entries_load d b -> entries_load d2 b)).
Proof.
  intros Hlen Hsec Hdir Hlinks Hn Hfull Hlast Halloc Hnb Hbam Hfresh dir d2.
  fold dir in Hlast. unfold totalByteCount in Hlen.
  pose proof Hdir as Hdir'. unfold Img_Dir in Hdir'.
  rewrite Img_BAM_eq in Hdir'. cbn [mbind outcome_bind] in Hdir'.
  change (91392 + BAM_DirTS) with 91392 in Hdir'.
  destruct (Allocator_Alloc_frame d (dir_allocator d) ts a' d1)
    as (Hl1 & Hout & Hts & _); [done..|].
  cbn [a_bam dir_allocator] in Hout.
  pose proof (Img_Block_Done_T _ _ Hnb) as HT.
  assert (forall b, b ∈ nb :: dir0 :: rest ->
            exists k, 0 <= k < 683 /\ b = 256 * k) as Hblocks.
  { intros b Hin. apply elem_of_cons in Hin as [->|Hin];
      [by apply (Img_Block_Done ts)|].
    apply elem_of_cons in Hin as [->|Hin].
    - by apply (Img_Block_Done (peekTS d 91392)).
    - by apply (dir_links_blocks d rest dir0). }
  assert (dir ∈ dir0 :: rest) as Hdin by apply chain_last_elem.
  assert (dir ∈ nb :: dir0 :: rest) as Hdin' by (apply elem_of_cons; by right).
  destruct (Hblocks dir Hdin') as (kd & Hkd & Hdk).
  assert (dir <> 91392) as Hdb by (intros Heq; apply Hbam; by rewrite <- Heq).
  assert (forall q, 0 <= q -> q < 91396 \/ 91536 <= q -> q <> dir ->
            q <> dir + 1 -> peek d2 q = peek d q) as Hd2.
  { intros q Hq Hq' Hq0 Hq1. unfold d2, DirBlock_SetNext, DirBlock_Files,
      DirEntry_DirLink.
    rewrite peek_pokeTS_out by lia. by apply Hout. }
  assert (peekTS d2 dir = ts) as Hlink.
  { unfold d2, DirBlock_SetNext, DirBlock_Files, DirEntry_DirLink.
    replace (dir + 32 * 0 + 0) with dir by lia.
    apply peekTS_pokeTS; lia. }
  assert (DirBlock_Next d2 dir = (ts, true)) as Hnext2.
  { unfold DirBlock_Next, DirBlock_Files, DirEntry_DirLink.
    replace (dir + 32 * 0 + 0) with dir by lia. rewrite Hlink.
    by destruct (Z.eqb_spec (T ts) 0); [lia|]. }
  (* a block of the chain, or the new one, away from the stores *)
  assert (forall b, b ∈ nb :: dir0 :: rest ->
            forall q, b <= q < b + 256 -> q <> dir -> q <> dir + 1 ->
              peek d2 q = peek d q) as Hblock.
  { intros b Hin q Hq Hq0 Hq1. destruct (Hblocks b Hin) as (k & Hk & ->).
    assert (256 * k <> 91392) by (intros Heq; apply Hbam; by rewrite <- Heq).
    apply Hd2; lia. }
  assert (forall b, b ∈ nb :: dir0 :: rest ->
            forall q, b + 2 <= q < b + 256 -> peek d2 q = peek d q) as Hbody.
  { intros b Hin q Hq. destruct (Hblocks b Hin) as (k & Hk & Hbk).
    apply (Hblock b Hin); lia. }
  split; [exact Hblocks|]. split; [exact Hd2|]. split; [exact Hnext2|].
  split.
  { unfold Img_NewDirEntry. rewrite Img_BAM_eq. cbn [mbind outcome_bind].
    change (91392 + BAM_DirTS) with 91392. rewrite Hdir'.
    cbn [mbind outcome_bind].
    change (mkAllocator _ _ _ _) with (dir_allocator d).
    change (Z.to_nat totalBlockCount + 1)%nat with 684%nat.
    replace 684%nat with (length rest + S (S (682 - length rest)))%nat by lia.
    rewrite NewDirEntry_loop_walk by done. fold dir.
    cbn [NewDirEntry_loop]. rewrite (Hfull dir Hdin).
    destruct (DirBlock_Next d dir) as [x ok]. cbn [snd] in Hlast.
    subst ok. rewrite Halloc, Hnb. cbn [mbind outcome_bind]. done. }
  split.
  { unfold Img_Dir. rewrite Img_BAM_eq. cbn [mbind outcome_bind].
    change (91392 + BAM_DirTS) with 91392.
    assert (peekTS d2 91392 = peekTS d 91392) as ->; [|done].
    unfold peekTS. by rewrite !Hd2 by lia. }
  split.
  { apply (dir_links_snoc d2 rest dir0 ts nb); [|done|done|done].
    apply (dir_links_frame d); [done|].
    intros b Hin Hok. apply DirBlock_Next_frame.
    assert (b <> dir) as Hne.
    { intros ->. rewrite Hlast in Hok. done. }
    assert (b ∈ nb :: dir0 :: rest) as Hin' by (apply elem_of_cons; by right).
    destruct (Hblocks b Hin') as (k & Hk & Hbk).
    unfold peekTS. rewrite !(Hblock b Hin') by lia. done. }
  intros b Hin. destruct (Hblocks b Hin) as (k & Hk & Hbk).
  apply block_frame; [lia|]. by apply Hbody.
Qed.

(** Loading the directory after the append. *)
Lemma NewDirEntry_append_load d dir0 rest ts a' d1 nb :
  zlen d = totalByteCount ->
  0 <= Sec (peekTS d 91392) ->
  Img_Dir d = Done dir0 ->
  dir_links d dir0 rest -> (length rest <= 682)%nat ->
  (forall b, b ∈ dir0 :: rest -> DirBlock_NextAvail d b = None) ->
  (DirBlock_Next d (chain_last dir0 rest)).2 = false ->
  Allocator_Alloc d (dir_allocator d) = Done (ts, a', d1) ->
  Img_Block ts = Done nb ->
  91392 ∉ nb :: dir0 :: rest -> nb ∉ dir0 :: rest ->
  (forall b, b ∈ nb :: dir0 :: rest -> entries_load d b) ->
  let d2 := DirBlock_SetNext d1 (chain_last dir0 rest) ts in
  (DirBlock_Next d2 nb = (TS0, true) ->
     loadDirEntries d2 = Panicked (PanicErr BadTS)
     /\ Img_FS d2 = Panicked (PanicErr BadTS))
  /\ ((DirBlock_Next d2 nb).2 = false ->
        is_Done (loadDirEntries d2) = true /\ is_Done (Img_FS d2) = true).
Proof.
  intros Hlen Hsec Hdir Hlinks Hn Hfull Hlast Halloc Hnb Hbam Hfresh Hload d2.
  destruct (NewDirEntry_append d dir0 rest ts a' d1 nb
              Hlen Hsec Hdir Hlinks Hn Hfull Hlast Halloc Hnb Hbam Hfresh)
    as (_ & _ & _ & _ & Hdir2 & Hlinks2 & Hframe).
  fold d2 in Hdir2, Hlinks2, Hframe.
  assert (chain_last dir0 (rest ++ [nb]) = nb) as Hlast2
    by apply chain_last_snoc.
  assert (length (rest ++ [nb]) <= 683)%nat as Hn2
    by (rewrite length_app; cbn [length]; lia).
  assert (forall b, b ∈ dir0 :: rest ++ [nb] -> entries_load d2 b) as Hload2.
  { intros b Hin.
    assert (b ∈ nb :: dir0 :: rest) as Hin'.
    { rewrite app_comm_cons in Hin.
      apply elem_of_app in Hin as [Hin|Hin]; [apply elem_of_cons; by right|].
      apply list_elem_of_singleton in Hin as ->. apply elem_of_cons. by left. }
    apply Hframe; [done|]. by apply Hload. }
  split.
  - intros Hdangle.
    apply (loadDirEntries_dangling d2 dir0 (rest ++ [nb]));
      [done|done|done|done|by rewrite Hlast2].
  - intros Hend.
    apply (loadDirEntries_terminated d2 dir0 (rest ++ [nb]));
      [done|done|done|done|by rewrite Hlast2].
Qed.

(** C7 (amended): when every block of the directory chain is without a
    scratched entry, the last block carries the end mark, and the
    allocator hands out a block, [Img.NewDirEntry] links the last block
    to the new block and returns the first scratched entry of the new
    block, and stores nothing into the new block: its bytes, and so its
    chain link, stay what the image held there, the end mark [{0, 255}]
    is not written.  Where the new block starts with [{0, 0}], as does
    every block that was never written, [DirBlock.Next] takes that for a
    link: [loadDirEntries] and [Img.FS] from the root of the resulting
    image panic with [BadTS] when every entry of the chain loads, and so
    does a later [Img.NewDirEntry] once the new block has no scratched
    entry left.  Where the new block starts with an old [{0, 255}], the
    chain is terminated and the directory loads. *)
Theorem NewDirEntry_new_block_unterminated d dir0 rest ts a' d1 nb :
  zlen d = totalByteCount ->
  0 <= Sec (peekTS d 91392) ->
  Img_Dir d = Done dir0 ->
  dir_links d dir0 rest -> (length rest <= 682)%nat ->
  (forall b, b ∈ dir0 :: rest -> DirBlock_NextAvail d b = None) ->
  (DirBlock_Next d (chain_last dir0 rest)).2 = false ->
  Allocator_Alloc d (dir_allocator d) = Done (ts, a', d1) ->
  Img_Block ts = Done nb ->
  91392 ∉ nb :: dir0 :: rest -> nb ∉ dir0 :: rest ->
  let dir := chain_last dir0 rest in
  let d2 := DirBlock_SetNext d1 dir ts in
  DirBlock_Next d2 dir = (ts, true)
  /\ (forall k, 0 <= k < 256 -> peek d2 (nb + k) = peek d (nb + k))
  /\ DirBlock_Next d2 nb = DirBlock_Next d nb
  /\ (forall e, DirBlock_NextAvail d nb = Some e ->
        Img_NewDirEntry d = Done (e, d2))
  /\ (peekTS d nb = TS0 ->
        DirBlock_Next d2 nb = (TS0, true)
        /\ ((forall b, b ∈ nb :: dir0 :: rest -> entries_load d b) ->
              loadDirEntries d2 = Panicked (PanicErr BadTS)
              /\ Img_FS d2 = Panicked (PanicErr BadTS))
        /\ (forall d3,
              (forall q, 0 <= q -> q < nb + 2 \/ nb + 256 <= q ->
                 peek d3 q = peek d2 q) ->
              DirBlock_NextAvail d3 nb = None ->
              Img_NewDirEntry d3 = Panicked (PanicErr BadTS)))
  /\ (peekTS d nb = mkTS 0 255 ->
        DirBlock_Next d2 nb = (mkTS 0 255, false)
        /\ ((forall b, b ∈ nb :: dir0 :: rest -> entries_load d b) ->
              is_Done (loadDirEntries d2) = true
              /\ is_Done (Img_FS d2) = true)).
Proof.
  intros Hlen Hsec Hdir Hlinks Hn Hfull Hlast Halloc Hnb Hbam Hfresh dir d2.
  destruct (NewDirEntry_append d dir0 rest ts a' d1 nb
              Hlen Hsec Hdir Hlinks Hn Hfull Hlast Halloc Hnb Hbam Hfresh)
    as (Hblocks & Hd2 & Hnext2 & Hrun & Hdir2 & Hlinks2 & Hframe).
  fold dir in Hd2, Hnext2. fold d2 in Hd2, Hnext2, Hrun, Hdir2, Hlinks2, Hframe.
  assert (nb ∈ nb :: dir0 :: rest) as Hnbin by (apply elem_of_cons; by left).
  assert (forall b, b ∈ dir0 :: rest -> b ∈ nb :: dir0 :: rest) as Hsub
    by (intros b Hin; apply elem_of_cons; by right).
  assert (dir ∈ dir0 :: rest) as Hdin by apply chain_last_elem.
  destruct (Hblocks nb Hnbin) as (kn & Hkn & Hnk).
  destruct (Hblocks dir (Hsub dir Hdin)) as (kd & Hkd & Hdk).
  assert (nb <> dir) as Hnd by (intros Heq; apply Hfresh; by rewrite Heq).
  assert (nb <> 91392) as Hnbam by (intros Heq; apply Hbam; by rewrite <- Heq).
  assert (forall k, 0 <= k < 256 -> peek d2 (nb + k) = peek d (nb + k))
    as Hsame.
  { intros k Hk. apply Hd2; lia. }
  assert (peekTS d2 nb = peekTS d nb) as Hlink.
  { unfold peekTS. rewrite (Hsame 1) by lia.
    specialize (Hsame 0 ltac:(lia)). rewrite !Z.add_0_r in Hsame.
    by rewrite Hsame. }
  assert (DirBlock_Next d2 nb = DirBlock_Next d nb) as Hnextnb
    by (by apply DirBlock_Next_frame).
  assert (chain_last dir0 (rest ++ [nb]) = nb) as Hlast2
    by apply chain_last_snoc.
  assert (length (rest ++ [nb]) <= 683)%nat as Hn2
    by (rewrite length_app; cbn [length]; lia).
  assert (forall b, b ∈ dir0 :: rest ++ [nb] -> b ∈ nb :: dir0 :: rest)
    as Hsub2.
  { intros b Hin. rewrite app_comm_cons in Hin.
    apply elem_of_app in Hin as [Hin|Hin]; [by apply Hsub|].
    apply list_elem_of_singleton in Hin as ->. done. }
  pose proof (fun Hload =>
    NewDirEntry_append_load d dir0 rest ts a' d1 nb
      Hlen Hsec Hdir Hlinks Hn Hfull Hlast Halloc Hnb Hbam Hfresh Hload)
    as Htraverse.
  cbn zeta in Htraverse. fold dir in Htraverse. fold d2 in Htraverse.
  split; [exact Hnext2|]. split; [exact Hsame|]. split; [exact Hnextnb|].
  split.
  { intros e Hfree. rewrite Hrun. cbn [NewDirEntry_loop].
    rewrite (proj1 (Hframe nb Hnbin)), Hfree. done. }
  split.
  - intros Hnull.
    assert (DirBlock_Next d2 nb = (TS0, true)) as Hdangle.
    { unfold DirBlock_Next, DirBlock_Files, DirEntry_DirLink.
      replace (nb + 32 * 0 + 0) with nb by lia. by rewrite Hlink, Hnull. }
    split; [exact Hdangle|]. split.
    + intros Hload. by apply (Htraverse Hload).
    + intros d3 Hd3 Hfull3.
      assert (forall b, b ∈ dir0 :: rest ->
                forall q, b <= q < b + 256 -> peek d3 q = peek d2 q) as Hchain3.
      { intros b Hin q Hq. destruct (Hblocks b (Hsub b Hin)) as (k & Hk & Hbk).
        assert (b <> nb) as Hne by (intros ->; by apply Hfresh).
        apply Hd3; lia. }
      apply (NewDirEntry_dangling d3 dir0 (rest ++ [nb])).
      * unfold Img_Dir. rewrite Img_BAM_eq. cbn [mbind outcome_bind].
        change (91392 + BAM_DirTS) with 91392.
        assert (peekTS d3 91392 = peekTS d2 91392) as ->.
        { unfold peekTS. by rewrite !Hd3 by lia. }
        revert Hdir2. unfold Img_Dir. rewrite Img_BAM_eq.
        cbn [mbind outcome_bind]. done.
      * apply (dir_links_frame d2); [done|].
        intros b Hin Hok. apply DirBlock_Next_frame.
        apply Hsub2 in Hin. destruct (Hblocks b Hin) as (k & Hk & Hbk).
        apply elem_of_cons in Hin as [->|Hin].
        -- unfold peekTS. by rewrite !Hd3 by lia.
        -- unfold peekTS. by rewrite !(Hchain3 b Hin) by lia.
      * done.
      * intros b Hin. apply Hsub2 in Hin.
        apply elem_of_cons in Hin as [->|Hin]; [done|].
        destruct (Hblocks b (Hsub b Hin)) as (k & Hk & Hbk).
        rewrite (DirBlock_NextAvail_frame d2 d3 b).
        -- transitivity (DirBlock_NextAvail d b);
             [apply Hframe; by apply Hsub|by apply Hfull].
        -- intros i Hi. apply (Hchain3 b Hin).
           unfold DirBlock_Files, DirEntry_FileType. lia.
      * rewrite Hlast2.
        rewrite (DirBlock_Next_frame d2 d3 nb); [done|].
        unfold peekTS. by rewrite !Hd3 by lia.
  - intros Hmark.
    assert (DirBlock_Next d2 nb = (mkTS 0 255, false)) as Hend.
    { unfold DirBlock_Next, DirBlock_Files, DirEntry_DirLink.
      replace (nb + 32 * 0 + 0) with nb by lia. by rewrite Hlink, Hmark. }
    split; [exact Hend|]. intros Hload.
    apply (Htraverse Hload). by rewrite Hend.
Qed.

(** The full directory of one block, [{18, 1}], on an image whose map
    is that of a fresh image and whose block [{18, 4}] has no entry. *)
Lemma full_dir_chain F :
  zlen F = 174848 -> peekTS F 91392 = mkTS 18 1 ->
  peekTS F 91648 = mkTS 0 255 ->
  bam_rel 91392 0 F init_bam_block ->
  (forall i, 0 <= i < 8 ->
     peek F (DirBlock_Files 91648 i + DirEntry_FileType) = PRG
     /\ peekTS F (DirBlock_Files 91648 i + DirEntry_FileTS) = mkTS 19 0) ->
  (forall q, 92418 <= q < 92672 -> peek F q = 0) ->
  zlen F = totalByteCount
  /\ 0 <= Sec (peekTS F 91392)
  /\ Img_Dir F = Done 91648
  /\ dir_links F 91648 []
  /\ (length (@nil Z) <= 682)%nat
  /\ (forall b, b ∈ [91648] -> DirBlock_NextAvail F b = None)
  /\ (DirBlock_Next F (chain_last 91648 [])).2 = false
  /\ (exists a' d1,
        Allocator_Alloc F (dir_allocator F) = Done (mkTS 18 4, a', d1))
  /\ Img_Block (mkTS 18 4) = Done 92416
  /\ (91392 ∉ [92416; 91648])
  /\ (92416 ∉ [91648])
  /\ DirBlock_NextAvail F 92416 = Some (DirBlock_Files 92416 0)
  /\ (forall b, b ∈ [92416; 91648] -> entries_load F b).
Proof.
  intros Hl Hb Hk Hrel Hocc Hz.
  assert (DirBlock_NextAvail F 91648 = None) as Hfull.
  { apply DirBlock_NextAvail_from_None. intros i Hi.
    rewrite (proj1 (Hocc i ltac:(lia))). done. }
  split; [exact Hl|].
  split; [by rewrite Hb|].
  split; [by rewrite (Img_Dir_eq _ _ Hb)|].
  split; [exact I|].
  split; [cbn [length]; lia|].
  split; [intros b Hin; by apply list_elem_of_singleton in Hin as ->|].
  split.
  { cbn [chain_last]. unfold DirBlock_Next.
    change (DirBlock_Files 91648 0 + DirEntry_DirLink) with 91648.
    by rewrite Hk. }
  split; [by apply dir_alloc_first|].
  split; [reflexivity|].
  split.
  { intros Hin. apply elem_of_cons in Hin as [Hin|Hin]; [lia|].
    apply list_elem_of_singleton in Hin. lia. }
  split; [intros Hin; apply list_elem_of_singleton in Hin; lia|].
  split.
  { unfold DirBlock_NextAvail. cbn [DirBlock_NextAvail_from].
    change (DirBlock_Files 92416 0 + DirEntry_FileType) with 92418.
    by rewrite Hz by lia. }
  intros b Hin i Hi. apply elem_of_cons in Hin as [->|Hin].
  - exists None. unfold newDirEntryFile, DirEntry_IsScratched.
    unfold DirBlock_Files, DirEntry_FileType. by rewrite Hz by lia.
  - apply list_elem_of_singleton in Hin as ->.
    destruct (Hocc i Hi) as [H1 H2].
    unfold newDirEntryFile, DirEntry_IsScratched, DirEntry_FileBlock.
    rewrite H1, H2. by eexists.
Qed.

Lemma NewDirEntry_new_block_unterminated_witness :
  exists d2,
    Img_NewDirEntry full_dir_disk = Done (DirBlock_Files 92416 0, d2)
    /\ DirBlock_Next d2 91648 = (mkTS 18 4, true)
    /\ DirBlock_Next d2 92416 = (TS0, true)
    /\ loadDirEntries d2 = Panicked (PanicErr BadTS)
    /\ Img_FS d2 = Panicked (PanicErr BadTS).
Proof.
  destruct full_dir_disk_spec as (Hl & Hb & Hk & Hrel & Hocc & Hz).
  destruct (full_dir_chain _ Hl Hb Hk Hrel Hocc
              (fun q Hq => Hz q ltac:(lia)))
    as (Hlen & Hsec & Hdir & Hlinks & Hn & Hfull & Hlast
        & (a' & d1 & Halloc) & Hnb & Hbam & Hfresh & Hfree & Hload).
  assert (peekTS full_dir_disk 92416 = TS0) as Hnull.
  { unfold peekTS. by rewrite !Hz by lia. }
  destruct (NewDirEntry_new_block_unterminated full_dir_disk 91648 []
              (mkTS 18 4) a' d1 92416
              Hlen Hsec Hdir Hlinks Hn Hfull Hlast Halloc Hnb Hbam Hfresh)
    as (Hnext & _ & _ & Hrun & Hzero & _).
  destruct (Hzero Hnull) as (Hdangle & Hpanic & _).
  destruct (Hpanic Hload) as [Hp1 Hp2].
  exists (DirBlock_SetNext d1 (chain_last 91648 []) (mkTS 18 4)).
  split; [exact (Hrun _ Hfree)|]. split; [exact Hnext|].
  split; [exact Hdangle|]. split; [exact Hp1|exact Hp2].
Defined.

(** An old end mark at the start of block [{18, 4}] of a full
    directory. *)
Lemma stale_link_spec F :
  zlen F = 174848 -> peekTS F 91392 = mkTS 18 1 ->
  peekTS F 91648 = mkTS 0 255 ->
  bam_rel 91392 0 F init_bam_block ->
  (forall i, 0 <= i < 8 ->
     peek F (DirBlock_Files 91648 i + DirEntry_FileType) = PRG
     /\ peekTS F (DirBlock_Files 91648 i + DirEntry_FileTS) = mkTS 19 0) ->
  (forall q, 91904 <= q < 174848 -> peek F q = 0) ->
  let S := pokeTS F 92416 (mkTS 0 255) in
  zlen S = 174848
  /\ peekTS S 91392 = mkTS 18 1
  /\ peekTS S 91648 = mkTS 0 255
  /\ bam_rel 91392 0 S init_bam_block
  /\ (forall i, 0 <= i < 8 ->
        peek S (DirBlock_Files 91648 i + DirEntry_FileType) = PRG
        /\ peekTS S (DirBlock_Files 91648 i + DirEntry_FileTS) = mkTS 19 0)
  /\ (forall q, 92418 <= q < 92672 -> peek S q = 0)
  /\ peekTS S 92416 = mkTS 0 255.
Proof.
  intros Hl Hb Hk Hrel Hocc Hz S.
  assert (forall q, 0 <= q -> q <> 92416 -> q <> 92417 ->
            peek S q = peek F q) as Hout.
  { intros q Hq H0 H1. apply peek_pokeTS_out; lia. }
  split; [unfold S; by rewrite zlen_pokeTS|].
  split; [unfold peekTS in *; by rewrite !Hout by lia|].
  split; [unfold peekTS in *; by rewrite !Hout by lia|].
  split; [intros k Hk'; rewrite Hout by lia; by apply Hrel|].
  split.
  { intros i Hi. destruct (Hocc i Hi) as [H1 H2].
    unfold peekTS, DirBlock_Files, DirEntry_FileType, DirEntry_FileTS in *.
    by rewrite !Hout by lia. }
  split; [intros q Hq; rewrite Hout by lia; apply Hz; lia|].
  apply peekTS_pokeTS; lia.
Qed.

Lemma stale_link_disk_spec :
  zlen stale_link_disk = 174848
  /\ peekTS stale_link_disk 91392 = mkTS 18 1
  /\ peekTS stale_link_disk 91648 = mkTS 0 255
  /\ bam_rel 91392 0 stale_link_disk init_bam_block
  /\ (forall i, 0 <= i < 8 ->
        peek stale_link_disk (DirBlock_Files 91648 i + DirEntry_FileType) = PRG
        /\ peekTS stale_link_disk (DirBlock_Files 91648 i + DirEntry_FileTS)
           = mkTS 19 0)
  /\ (forall q, 92418 <= q < 92672 -> peek stale_link_disk q = 0)
  /\ peekTS stale_link_disk 92416 = mkTS 0 255.
Proof.
  destruct full_dir_disk_spec as (Hl & Hb & Hk & Hrel & Hocc & Hz).
  exact (stale_link_spec full_dir_disk Hl Hb Hk Hrel Hocc Hz).
Qed.

(** The append on an image whose block [{18, 4}] starts with an end
    mark. *)
Lemma append_end_mark F d2 a' fuel :
  peekTS F 92416 = mkTS 0 255 ->
  DirBlock_NextAvail F 92416 = Some (DirBlock_Files 92416 0) ->
  (forall q, 0 <= q -> q < 91396 \/ 91536 <= q -> q <> 91648 ->
     q <> 91648 + 1 -> peek d2 q = peek F q) ->
  DirBlock_Next d2 91648 = (mkTS 18 4, true) ->
  Img_NewDirEntry F = NewDirEntry_loop (S fuel) d2 a' 92416 ->
  DirBlock_NextAvail d2 92416 = DirBlock_NextAvail F 92416 ->
  ((DirBlock_Next d2 92416).2 = false ->
     is_Done (loadDirEntries d2) = true /\ is_Done (Img_FS d2) = true) ->
  Img_NewDirEntry F = Done (DirBlock_Files 92416 0, d2)
  /\ DirBlock_Next d2 91648 = (mkTS 18 4, true)
  /\ Img_Block (mkTS 18 4) = Done 92416
  /\ DirBlock_Next d2 92416 = (mkTS 0 255, false)
  /\ DirBlock_Next d2 92416 <> (TS0, true)
  /\ is_Done (loadDirEntries d2) = true
  /\ is_Done (Img_FS d2) = true.
Proof.
  intros Hmark Hfree Hd2 Hnext Hrun Hna Hloads.
  assert (DirBlock_Next d2 92416 = (mkTS 0 255, false)) as Hend.
  { unfold DirBlock_Next, DirBlock_Files, DirEntry_DirLink.
    replace (92416 + 32 * 0 + 0) with 92416 by lia.
    unfold peekTS in *. rewrite !Hd2 by lia.
    injection Hmark as -> ->. done. }
  split.
  { rewrite Hrun. cbn [NewDirEntry_loop]. by rewrite Hna, Hfree. }
  split; [exact Hnext|]. split; [reflexivity|]. split; [exact Hend|].
  split; [by rewrite Hend|].
  apply Hloads. by rewrite Hend.
Qed.

(** C7, as stated, fails: on an image where block [{18, 4}] starts with
    an old end mark, [Img.NewDirEntry] on the full directory appends
    that block and leaves its link [{0, 255}], not [{0, 0}]; the chain
    is terminated, and [loadDirEntries] and [Img.FS] return normally. *)
Lemma NewDirEntry_new_block_counterexample :
  exists d2,
    Img_NewDirEntry stale_link_disk = Done (DirBlock_Files 92416 0, d2)
    /\ DirBlock_Next d2 91648 = (mkTS 18 4, true)
    /\ Img_Block (mkTS 18 4) = Done 92416
    /\ DirBlock_Next d2 92416 = (mkTS 0 255, false)
    /\ DirBlock_Next d2 92416 <> (TS0, true)
    /\ is_Done (loadDirEntries d2) = true
    /\ is_Done (Img_FS d2) = true.
Proof.
  destruct stale_link_disk_spec as (Hl & Hb & Hk & Hrel & Hocc & Hz & Hmark).
  destruct (full_dir_chain _ Hl Hb Hk Hrel Hocc Hz)
    as (Hlen & Hsec & Hdir & Hlinks & Hn & Hfull & Hlast
        & (a' & d1 & Halloc) & Hnb & Hbam & Hfresh & Hfree & Hload).
  destruct (NewDirEntry_append stale_link_disk 91648 [] (mkTS 18 4) a' d1 92416
              Hlen Hsec Hdir Hlinks Hn Hfull Hlast Halloc Hnb Hbam Hfresh)
    as (_ & Hd2 & Hnext & Hrun & _ & _ & Hframe).
  destruct (NewDirEntry_append_load stale_link_disk 91648 [] (mkTS 18 4) a' d1
              92416 Hlen Hsec Hdir Hlinks Hn Hfull Hlast Halloc Hnb Hbam
              Hfresh Hload) as [_ Hloads].
  assert (92416 ∈ [92416; 91648]) as Hin by (apply elem_of_cons; by left).
  destruct (Hframe 92416 Hin) as [Hna _].
  exists (DirBlock_SetNext d1 (chain_last 91648 []) (mkTS 18 4)).
  exact (append_end_mark stale_link_disk _ a' _ Hmark Hfree Hd2 Hnext Hrun Hna
           Hloads).
Qed.


(* ================================================================== *)
(** * Further properties of the code *)

(** ** The availability map, call by call *)

(** Two images of one length with the same bytes are the same image. *)
Lemma Img_ext (d d' : Img) :
  zlen d' = zlen d ->
  (forall q, 0 <= q < zlen d -> peek d' q = peek d q) ->
  d' = d.
Proof.
  unfold zlen. intros Hlen Hsame. apply list_eq_total; [lia|].
  intros i Hi. specialize (Hsame (Z.of_nat i) ltac:(lia)).
  unfold peek in Hsame. by rewrite Nat2Z.id in Hsame.
Qed.

Lemma lor_lxor_pow2 x m :
  0 <= m -> Z.testbit x m = true -> Z.lor (Z.lxor x (2 ^ m)) (2 ^ m) = x.
Proof.
  intros Hm Hbit. apply Z.bits_inj'. intros n Hn.
  rewrite Z.lor_spec, Z.lxor_spec.
  destruct (decide (n = m)) as [->|Hne].
  - rewrite Z.pow2_bits_true, Hbit by lia. done.
  - rewrite Z.pow2_bits_false by lia.
    by destruct (Z.testbit x n).
Qed.

Lemma lxor_lor_pow2 x m :
  0 <= m -> Z.testbit x m = false -> Z.lxor (Z.lor x (2 ^ m)) (2 ^ m) = x.
Proof.
  intros Hm Hbit. apply Z.bits_inj'. intros n Hn.
  rewrite Z.lxor_spec, Z.lor_spec.
  destruct (decide (n = m)) as [->|Hne].
  - rewrite Z.pow2_bits_true, Hbit by lia. done.
  - rewrite Z.pow2_bits_false by lia.
    by destruct (Z.testbit x n).
Qed.

(** X1: a block that [BAM.Alloc] has taken cannot be taken again: the
    second call returns an error, [BAMConflict] or, when the first call
    took the last block that the count allowed, "available count
    already 0". *)
Theorem BAM_Alloc_twice d bam ts d' :
  0 <= bam -> bam + 144 <= zlen d -> TS_bytes ts ->
  BAM_Alloc d bam ts = Done d' ->
  BAM_Alloc d' bam ts = Failed BAMConflict
  \/ BAM_Alloc d' bam ts = Failed ErrCountZero.
Proof.
  intros Hbam Hlen Hb Hrun.
  destruct (BAM_Alloc_effect d bam ts d' Hbam Hlen Hb Hrun)
    as (Ht & Hs & _ & _ & _ & _ & _ & _ & Hav).
  rewrite BAM_Avail_eq in Hav by done. injection Hav as Hbit.
  rewrite BAM_Alloc_eq by done. cbn zeta. rewrite Hbit.
  destruct (_ =? 0); [by right|by left].
Qed.

Lemma BAM_Alloc_twice_witness :
  exists d',
    BAM_Alloc init_bam_block 0 (mkTS 1 0) = Done d'
    /\ (BAM_Alloc d' 0 (mkTS 1 0) = Failed BAMConflict
        \/ BAM_Alloc d' 0 (mkTS 1 0) = Failed ErrCountZero).
Proof.
  assert (is_Done (BAM_Alloc init_bam_block 0 (mkTS 1 0)) = true) as Hd
    by (by vm_compute).
  destruct (is_Done_inv _ Hd) as [d' Hrun]. exists d'. split; [exact Hrun|].
  apply (BAM_Alloc_twice init_bam_block 0 (mkTS 1 0) d');
    [lia | rewrite zlen_init_bam_block; lia | by vm_compute | exact Hrun].
Defined.

(** X2: [BAM.Free] undoes [BAM.Alloc]: freeing the block that was just
    allocated gives back the image as it was, byte for byte. *)
Theorem BAM_Alloc_Free d bam ts d' :
  0 <= bam -> bam + 144 <= zlen d -> TS_bytes ts ->
  is_byte (peek d (BAMEntry_Count (BAM_AvailMap_at bam (T ts - 1)))) ->
  BAM_Alloc d bam ts = Done d' ->
  BAM_Free d' bam ts = Done d.
Proof.
  intros Hbam Hlen Hb Hc Hrun.
  destruct (BAM_Alloc_Done_range _ _ _ _ Hb Hrun) as [Ht Hs].
  rewrite BAM_Alloc_eq in Hrun by done. rewrite BAM_Free_eq by done.
  cbn zeta in *.
  unfold BAM_AvailMap_at, BAM_AvailMap, BAMEntry_Count, BAMEntry_free in *.
  set (ent := bam + 4 + 4 * (T ts - 1)) in *.
  assert (0 <= Sec ts / 8 < 3) as Hi by (Z.div_mod_to_equations; lia).
  assert (0 <= Sec ts mod 8 < 8) as Hm by (apply Z.mod_pos_bound; lia).
  set (i := Sec ts / 8) in *. set (m := Sec ts mod 8) in *.
  destruct (Z.eqb_spec (peek d ent) 0) as [|Hne]; [done|].
  destruct (Z.testbit (peek d (ent + 1 + i)) m) eqn:Hbit; [|done].
  injection Hrun as <-.
  assert (ent + 4 <= zlen d) by (subst ent; lia).
  assert (0 <= ent) by (subst ent; lia).
  rewrite (peek_poke_ne (poke _ _ _) ent (ent + 1 + i)) by lia.
  rewrite (peek_poke_eq d (ent + 1 + i)) by lia.
  rewrite (peek_poke_ne d (ent + 1 + i) ent) by lia.
  rewrite Z.lxor_spec, Hbit, Z.pow2_bits_true by lia. cbn [xorb].
  f_equal. apply Img_ext; [by rewrite !zlen_poke|].
  intros q Hq.
  destruct (decide (q = ent)) as [->|Hq1].
  - rewrite peek_poke_eq by (rewrite !zlen_poke; lia).
    rewrite peek_poke_ne, peek_poke_eq by (rewrite ?zlen_poke; lia).
    unfold is_byte in Hc. unfold u8.
    rewrite (Z.mod_small (peek d ent - 1)) by lia.
    replace (peek d ent - 1 + 1) with (peek d ent) by lia.
    apply Z.mod_small. lia.
  - rewrite peek_poke_ne by lia.
    destruct (decide (q = ent + 1 + i)) as [->|Hq2].
    + rewrite peek_poke_eq by (rewrite !zlen_poke; lia).
      apply lor_lxor_pow2; [lia|done].
    + by rewrite !peek_poke_ne by lia.
Qed.

Lemma BAM_Alloc_Free_witness :
  exists d',
    BAM_Alloc init_bam_block 0 (mkTS 19 7) = Done d'
    /\ BAM_Free d' 0 (mkTS 19 7) = Done init_bam_block.
Proof.
  assert (is_Done (BAM_Alloc init_bam_block 0 (mkTS 19 7)) = true) as Hd
    by (by vm_compute).
  destruct (is_Done_inv _ Hd) as [d' Hrun]. exists d'. split; [exact Hrun|].
  apply (BAM_Alloc_Free init_bam_block 0 (mkTS 19 7) d');
    [lia | rewrite zlen_init_bam_block; lia | by vm_compute | by vm_compute
    | exact Hrun].
Defined.

(** X3: [BAM.Free] succeeds only on a block that is not available, makes
    it available, and fails with [BAMConflict] when called again. *)
Theorem BAM_Free_twice d bam ts d' :
  0 <= bam -> bam + 144 <= zlen d -> TS_bytes ts ->
  BAM_Free d bam ts = Done d' ->
  BAM_Avail d bam ts = Done false
  /\ BAM_Avail d' bam ts = Done true
  /\ BAM_Free d' bam ts = Failed BAMConflict.
Proof.
  intros Hbam Hlen Hb Hrun.
  destruct (BAM_Free_Done_range _ _ _ _ Hb Hrun) as [Ht Hs].
  rewrite BAM_Free_eq in Hrun by done. rewrite BAM_Free_eq by done.
  rewrite !BAM_Avail_eq by done.
  cbn zeta in *.
  unfold BAM_AvailMap_at, BAM_AvailMap, BAMEntry_Count, BAMEntry_free in *.
  set (ent := bam + 4 + 4 * (T ts - 1)) in *.
  assert (0 <= Sec ts / 8 < 3) as Hi by (Z.div_mod_to_equations; lia).
  assert (0 <= Sec ts mod 8 < 8) as Hm by (apply Z.mod_pos_bound; lia).
  set (i := Sec ts / 8) in *. set (m := Sec ts mod 8) in *.
  destruct (Z.testbit (peek d (ent + 1 + i)) m) eqn:Hbit; [done|].
  injection Hrun as <-.
  assert (ent + 4 <= zlen d) by (subst ent; lia).
  assert (0 <= ent) by (subst ent; lia).
  rewrite (peek_poke_ne (poke _ _ _) ent (ent + 1 + i)) by lia.
  rewrite (peek_poke_eq d (ent + 1 + i)) by lia.
  rewrite Z.lor_spec, Z.pow2_bits_true by lia.
  by rewrite orb_true_r.
Qed.

Lemma BAM_Free_twice_witness :
  exists d',
    BAM_Free init_bam_block 0 (mkTS 18 1) = Done d'
    /\ BAM_Avail init_bam_block 0 (mkTS 18 1) = Done false
    /\ BAM_Avail d' 0 (mkTS 18 1) = Done true
    /\ BAM_Free d' 0 (mkTS 18 1) = Failed BAMConflict.
Proof.
  assert (is_Done (BAM_Free init_bam_block 0 (mkTS 18 1)) = true) as Hd
    by (by vm_compute).
  destruct (is_Done_inv _ Hd) as [d' Hrun]. exists d'. split; [exact Hrun|].
  apply (BAM_Free_twice init_bam_block 0 (mkTS 18 1) d');
    [lia | rewrite zlen_init_bam_block; lia | by vm_compute | exact Hrun].
Defined.

(** X4: [BAM.Entry] accepts sectors up to 31, but the bitmap of an entry
    has three bytes: for sectors 24 to 31 of a track with an entry,
    [BAM.Avail] and [BAM.Free] panic with an index out of range, and so
    does [BAM.Alloc] unless the count of the track is 0. *)
Theorem BAM_sector_past_bitmap d bam ts :
  1 <= T ts < 35 -> 24 <= Sec ts < 32 ->
  BAM_Entry bam ts = Done (Some (BAM_AvailMap_at bam (T ts - 1)))
  /\ BAM_Avail d bam ts = Panicked PanicIndex
  /\ BAM_Free d bam ts = Panicked PanicIndex
  /\ BAM_Alloc d bam ts =
       if peek d (BAMEntry_Count (BAM_AvailMap_at bam (T ts - 1))) =? 0
       then Failed ErrCountZero else Panicked PanicIndex.
Proof.
  intros Ht Hs.
  assert (BAM_Entry bam ts = Done (Some (BAM_AvailMap_at bam (T ts - 1))))
    as He by (apply BAM_Entry_valid; lia).
  assert (3 <= Sec ts / 8) as Hi by (Z.div_mod_to_equations; lia).
  unfold BAM_Avail, BAM_Free, BAM_Alloc. rewrite He.
  cbn [mbind outcome_bind]. unfold BAMEntry_free_get, bit_index.
  destruct (Z.ltb_spec (Sec ts / 8) 3); [lia|].
  repeat split; try done; by destruct (_ =? 0).
Qed.

Lemma BAM_sector_past_bitmap_witness :
  BAM_Entry 0 (mkTS 1 24) = Done (Some (BAM_AvailMap_at 0 (1 - 1)))
  /\ BAM_Avail init_bam_block 0 (mkTS 1 24) = Panicked PanicIndex
  /\ BAM_Free init_bam_block 0 (mkTS 1 24) = Panicked PanicIndex
  /\ BAM_Alloc init_bam_block 0 (mkTS 1 24) =
       if peek init_bam_block (BAMEntry_Count (BAM_AvailMap_at 0 (1 - 1))) =? 0
       then Failed ErrCountZero else Panicked PanicIndex.
Proof.
  apply (BAM_sector_past_bitmap init_bam_block 0 (mkTS 1 24)); simpl; lia.
Defined.

Lemma BAM_Alloc_Avail_other d bam ts d' ts' :
  0 <= bam -> bam + 144 <= zlen d -> TS_bytes ts -> TS_bytes ts' ->
  BAM_Alloc d bam ts = Done d' -> ts' <> ts ->
  BAM_Avail d' bam ts' = BAM_Avail d bam ts'.
Proof.
  intros Hbam Hlen Hb Hb' Hrun Hne.
  destruct (BAM_Alloc_Done_range _ _ _ _ Hb Hrun) as [Ht Hs].
  rewrite BAM_Alloc_eq in Hrun by done. cbn zeta in Hrun.
  destruct Hb' as [Hbt Hbs]. unfold is_byte in *.
  unfold BAM_Avail, BAM_Entry.
  destruct (Z.leb_spec totalTrackCount (T ts')); [done|].
  destruct (Z.leb_spec 32 (Sec ts')); [done|].
  unfold totalTrackCount in *.
  destruct (decide (T ts' = 0)) as [Hz|Hz].
  { rewrite Hz. done. }
  rewrite u8_small by lia.
  destruct (Z.ltb_spec (T ts' - 1) 35); [|lia].
  cbn [mbind outcome_bind]. unfold BAMEntry_free_get, bit_index.
  destruct (Z.ltb_spec (Sec ts' / 8) 3); [|done].
  cbn [mbind outcome_bind]. f_equal.
  rewrite bit_mask_pow2 by (unfold is_byte; lia).
  assert (0 <= Sec ts' mod 8 < 8) as Hm' by (apply Z.mod_pos_bound; lia).
  rewrite !land_pow2_pos by lia.
  unfold BAM_AvailMap_at, BAM_AvailMap, BAMEntry_Count, BAMEntry_free in *.
  set (ent := bam + 4 + 4 * (T ts - 1)) in *.
  assert (0 <= Sec ts / 8 < 3) as Hi by (Z.div_mod_to_equations; lia).
  assert (0 <= Sec ts mod 8 < 8) as Hm by (apply Z.mod_pos_bound; lia).
  assert (0 <= Sec ts' / 8 < 3) as Hi' by (Z.div_mod_to_equations; lia).
  destruct (_ =? 0); [done|].
  destruct (Z.testbit (peek d (ent + 1 + Sec ts / 8)) (Sec ts mod 8)) eqn:Hbit;
    [|done].
  injection Hrun as <-.
  assert (0 <= ent) by (subst ent; lia).
  assert (ent + 4 <= zlen d) by (subst ent; lia).
  rewrite peek_poke_ne by (subst ent; lia).
  destruct (decide (bam + 4 + 4 * (T ts' - 1) + 1 + Sec ts' / 8
                    = ent + 1 + Sec ts / 8)) as [Heq|Hneq].
  - rewrite Heq, peek_poke_eq by lia.
    assert (T ts' = T ts /\ Sec ts' / 8 = Sec ts / 8) as [HT HS]
      by (subst ent; lia).
    assert (Sec ts' mod 8 <> Sec ts mod 8) as Hbitne.
    { intros Hmm. apply Hne.
      assert (Sec ts' = Sec ts) as HSec.
      { rewrite (Z.div_mod (Sec ts') 8), (Z.div_mod (Sec ts) 8) by lia. lia. }
      clear -HT HSec. destruct ts as [t s], ts' as [t' s'].
      cbn [T Sec] in *. by subst. }
    rewrite Z.lxor_spec, Z.pow2_bits_false by lia.
    by rewrite xorb_false_r.
  - by rewrite peek_poke_ne by lia.
Qed.

(** X5: [BAM.Alloc] changes the availability of exactly one block: the
    block was available, is not afterwards, and [BAM.Avail] answers for
    every other address as before. *)
Theorem BAM_Alloc_one_block d bam ts d' :
  0 <= bam -> bam + 144 <= zlen d -> TS_bytes ts ->
  BAM_Alloc d bam ts = Done d' ->
  BAM_Avail d bam ts = Done true
  /\ BAM_Avail d' bam ts = Done false
  /\ forall ts', TS_bytes ts' -> ts' <> ts ->
       BAM_Avail d' bam ts' = BAM_Avail d bam ts'.
Proof.
  intros Hbam Hlen Hb Hrun.
  destruct (BAM_Alloc_effect d bam ts d' Hbam Hlen Hb Hrun)
    as (_ & _ & _ & _ & _ & _ & _ & Hbefore & Hafter).
  split; [done|]. split; [done|].
  intros ts' Hb' Hne. by apply (BAM_Alloc_Avail_other d bam ts).
Qed.

Lemma BAM_Alloc_one_block_witness :
  exists d',
    BAM_Alloc init_bam_block 0 (mkTS 1 0) = Done d'
    /\ BAM_Avail init_bam_block 0 (mkTS 1 0) = Done true
    /\ BAM_Avail d' 0 (mkTS 1 0) = Done false
    /\ forall ts', TS_bytes ts' -> ts' <> mkTS 1 0 ->
         BAM_Avail d' 0 ts' = BAM_Avail init_bam_block 0 ts'.
Proof.
  assert (is_Done (BAM_Alloc init_bam_block 0 (mkTS 1 0)) = true) as Hd
    by (by vm_compute).
  destruct (is_Done_inv _ Hd) as [d' Hrun]. exists d'. split; [exact Hrun|].
  apply (BAM_Alloc_one_block init_bam_block 0 (mkTS 1 0) d');
    [lia | rewrite zlen_init_bam_block; lia | by vm_compute | exact Hrun].
Defined.

(** ** The allocator finds available blocks *)

Lemma BAM_Avail_fuel d bam ts : BAM_Avail d bam ts <> OutOfFuel.
Proof.
  unfold BAM_Avail, BAM_Entry, BAMEntry_free_get.
  repeat (case_match; cbn [mbind outcome_bind]; try done).
Qed.

Lemma nextAvailBlock_loop_sound n : forall d a max ts r,
  is_byte (Sec ts) ->
  nextAvailBlock_loop n d a max ts = Done r ->
  r = TS0
  \/ (T r = T ts /\ is_byte (Sec r) /\ BAM_Avail d (a_bam a) r = Done true).
Proof.
  induction n as [|n IH]; intros d a max ts r Hs Hrun; cbn in Hrun.
  { left. congruence. }
  destruct (BAM_Avail d (a_bam a) ts) as [[|]| | |] eqn:Hav;
    cbn [mbind outcome_bind] in Hrun; try done.
  - injection Hrun as <-. by right.
  - apply IH in Hrun; [|cbn [Sec]; case_match; apply u8_range].
    destruct Hrun as [->|(HT & Hb & Ha)]; [by left|by right].
Qed.

Lemma nextAvailBlock_loop_fuel n : forall d a max ts,
  nextAvailBlock_loop n d a max ts <> OutOfFuel.
Proof.
  induction n as [|n IH]; intros d a max ts; cbn; [done|].
  pose proof (BAM_Avail_fuel d (a_bam a) ts).
  destruct (BAM_Avail d (a_bam a) ts) as [[|]| | |];
    cbn [mbind outcome_bind]; try done; apply IH.
Qed.

Lemma nextAvailBlock_fuel d a ts : nextAvailBlock d a ts <> OutOfFuel.
Proof.
  unfold nextAvailBlock, sectorCount.
  destruct (geometry_Lookup geometry (T ts)); cbn [mbind outcome_bind];
    [apply nextAvailBlock_loop_fuel|done].
Qed.

Lemma nextAvailBlock_sound d a ts r :
  is_byte (Sec ts) ->
  nextAvailBlock d a ts = Done r ->
  r = TS0
  \/ (T r = T ts /\ is_byte (Sec r) /\ BAM_Avail d (a_bam a) r = Done true).
Proof.
  intros Hs. unfold nextAvailBlock.
  destruct (sectorCount (T ts)); cbn [mbind outcome_bind]; try done.
  by apply nextAvailBlock_loop_sound.
Qed.

Lemma nextTS_loop_sound fuel : forall d a iter r,
  TS_bytes iter -> (forall t, is_byte (NextTrack a t)) ->
  nextTS_loop fuel d a iter = Done r ->
  r = TS0
  \/ (0 < T r /\ TS_bytes r /\ BAM_Avail d (a_bam a) r = Done true).
Proof.
  induction fuel as [|fuel IH]; intros d a iter r [Ht Hs] Hnt Hrun;
    cbn [nextTS_loop] in Hrun; [done|].
  destruct (Z.ltb_spec 0 (T iter)); [|left; congruence].
  destruct (nextAvailBlock d a iter) as [next| | |] eqn:Hn;
    cbn [mbind outcome_bind] in Hrun; try done.
  destruct (Z.ltb_spec 0 (T next)).
  - injection Hrun as <-.
    destruct (nextAvailBlock_sound _ _ _ _ Hs Hn) as [->|(HT & Hb & Ha)].
    + cbn in *. lia.
    + right. split; [done|]. split; [|done]. split; [by rewrite HT|done].
  - cbn [T] in Hrun. destruct (_ =? 0); [left; congruence|].
    apply IH in Hrun; [done| |done]. split; cbn [T Sec]; [done|].
    unfold is_byte. lia.
Qed.

Lemma Allocator_Alloc_cases d a ts a' d' :
  0 <= a_bam a -> a_bam a + 144 <= zlen d -> TS_bytes (a_TS a) ->
  (forall t, is_byte (NextTrack a t)) ->
  Allocator_Alloc d a = Done (ts, a', d') ->
  a' = set_TS a (a_TS a')
  /\ ((ts = TS0 /\ d' = d /\ a_TS a' = TS0)
      \/ (TS_bytes ts
          /\ BAM_Avail d (a_bam a) ts = Done true
          /\ BAM_Alloc d (a_bam a) ts = Done d'
          /\ (a_TS a' = TS0
              \/ (TS_bytes (a_TS a')
                  /\ BAM_Avail d' (a_bam a) (a_TS a') = Done true)))).
Proof.
  intros Hbam Hlen Hb Hnt. unfold Allocator_Alloc.
  destruct (_ =? 0); [done|].
  assert (forall ts0, TS_bytes ts0 -> BAM_Avail d (a_bam a) ts0 = Done true ->
    BAM_Alloc d (a_bam a) ts0
      ≫= (λ d, nextTS d a ts0 ≫= λ next, Done (ts0, set_TS a next, d))
    = Done (ts, a', d') ->
    a' = set_TS a (a_TS a')
    /\ TS_bytes ts
    /\ BAM_Avail d (a_bam a) ts = Done true
    /\ BAM_Alloc d (a_bam a) ts = Done d'
    /\ (a_TS a' = TS0
        \/ (TS_bytes (a_TS a')
            /\ BAM_Avail d' (a_bam a) (a_TS a') = Done true)))
    as Hstep.
  { intros ts0 Hb0 Hav0.
    destruct (BAM_Alloc d (a_bam a) ts0) as [d0| | |] eqn:Ha; try done.
    cbn [mbind outcome_bind].
    destruct (nextTS d0 a ts0) as [next| | |] eqn:Hn; try done.
    cbn [mbind outcome_bind]. intros [= <- <- <-].
    split; [done|]. split; [done|]. split; [done|]. split; [done|].
    cbn [a_TS set_TS].
    destruct (nextTS_loop_sound _ _ _ _ _ Hb0 Hnt Hn)
      as [->|(_ & Hbn & Hnext)]; [by left|by right]. }
  destruct (BAM_Avail d (a_bam a) (a_TS a)) as [[|]| | |] eqn:Hav; try done;
    cbn [mbind outcome_bind negb andb].
  - intros Hrun. destruct (Hstep (a_TS a) Hb Hav Hrun) as [Ha' Hrest].
    split; [done|by right].
  - destruct (nextTS d a (a_TS a)) as [ts0| | |] eqn:Hn; try done.
    cbn [mbind outcome_bind].
    destruct (nextTS_loop_sound _ _ _ _ _ Hb Hnt Hn) as [->|(Hpos & Hb0 & Hav0)].
    + cbn [T TS0 Z.eqb]. intros [= <- <- <-]. split; [done|by left].
    + destruct (Z.eqb_spec (T ts0) 0); [lia|].
      intros Hrun. destruct (Hstep ts0 Hb0 Hav0 Hrun) as [Ha' Hrest].
      split; [done|by right].
Qed.

(** X6: what [Allocator.Alloc] returns without an error is either the
    zero address, with the image untouched and the allocator exhausted,
    or a block that was available, is allocated afterwards, and is
    followed by a lookahead that is the zero address or an available
    block. *)
Theorem Allocator_Alloc_sound d a ts a' d' :
  0 <= a_bam a -> a_bam a + 144 <= zlen d -> TS_bytes (a_TS a) ->
  (forall t, is_byte (NextTrack a t)) ->
  Allocator_Alloc d a = Done (ts, a', d') ->
  (ts = TS0 /\ d' = d /\ a_TS a' = TS0)
  \/ (BAM_Avail d (a_bam a) ts = Done true
      /\ BAM_Avail d' (a_bam a) ts = Done false
      /\ (a_TS a' = TS0
          \/ BAM_Avail d' (a_bam a) (a_TS a') = Done true)).
Proof.
  intros Hbam Hlen Hb Hnt Hrun.
  destruct (Allocator_Alloc_cases d a ts a' d' Hbam Hlen Hb Hnt Hrun)
    as [_ [Hzero|(Hbts & Hav & Halloc & Hnext)]]; [by left|right].
  destruct (BAM_Alloc_effect _ _ _ _ Hbam Hlen Hbts Halloc)
    as (_ & _ & _ & _ & _ & _ & _ & _ & Hafter).
  split; [done|]. split; [done|].
  destruct Hnext as [Hn|[_ Hn]]; [by left|by right].
Qed.

Lemma defaultNextTrack_byte t : is_byte (defaultNextTrack t).
Proof.
  unfold defaultNextTrack, is_byte.
  pose proof (u8_range (t + 1)). pose proof (u8_range (t - 1)).
  pose proof (u8_range (bamTrack - 1)).
  repeat case_match; lia.
Qed.

Lemma Allocator_Alloc_sound_witness :
  exists ts a' d',
    Allocator_Alloc init_bam_block (BAM_NewAllocator 0) = Done (ts, a', d')
    /\ ((ts = TS0 /\ d' = init_bam_block /\ a_TS a' = TS0)
        \/ (BAM_Avail init_bam_block (a_bam (BAM_NewAllocator 0)) ts = Done true
            /\ BAM_Avail d' (a_bam (BAM_NewAllocator 0)) ts = Done false
            /\ (a_TS a' = TS0 \/ BAM_Avail d' (a_bam (BAM_NewAllocator 0)) (a_TS a') = Done true))).
Proof.
  assert (is_Done (Allocator_Alloc init_bam_block (BAM_NewAllocator 0)) = true)
    as Hd by (by vm_compute).
  destruct (is_Done_inv _ Hd) as [[[ts a'] d'] Hrun]. exists ts, a', d'.
  split; [exact Hrun|].
  assert (0 <= a_bam (BAM_NewAllocator 0)) as H1
    by (cbn [a_bam BAM_NewAllocator]; lia).
  assert (a_bam (BAM_NewAllocator 0) + 144 <= zlen init_bam_block) as H2
    by (rewrite zlen_init_bam_block; cbn [a_bam BAM_NewAllocator]; lia).
  assert (TS_bytes (a_TS (BAM_NewAllocator 0))) as H3
    by (split; cbn [a_TS BAM_NewAllocator T Sec]; unfold is_byte, bamTrack; lia).
  exact (Allocator_Alloc_sound init_bam_block (BAM_NewAllocator 0) ts a' d'
           H1 H2 H3 defaultNextTrack_byte Hrun).
Defined.

(** Every step of the default policy that goes on lowers the rank. *)
Lemma defaultNextTrack_rank t :
  0 < t < 256 -> defaultNextTrack t <> 0 ->
  0 <= track_rank (defaultNextTrack t) < track_rank t.
Proof.
  intros Ht. unfold defaultNextTrack, track_rank, bamTrack, totalTrackCount, u8.
  destruct (Z.ltb_spec 18 t).
  - destruct (decide (t = 255)) as [->|Hne]; [done|].
    rewrite (Z.mod_small (t + 1)) by lia.
    destruct (Z.leb_spec (t + 1) 35).
    + intros _. repeat case_match; lia.
    + change ((18 - 1) mod 256) with 17. cbn. intros _.
      repeat case_match; lia.
  - rewrite (Z.mod_small (t - 1)) by lia.
    destruct (Z.ltb_spec 0 (t - 1)); [|done]. intros _.
    repeat case_match; lia.
Qed.

Lemma nextTS_loop_fuel fuel : forall d a iter,
  NextTrack a = defaultNextTrack -> is_byte (T iter) ->
  track_rank (T iter) < Z.of_nat fuel ->
  nextTS_loop fuel d a iter <> OutOfFuel.
Proof.
  induction fuel as [|fuel IH]; intros d a iter Hnt Ht Hrank.
  { unfold track_rank, is_byte in *. repeat case_match; lia. }
  cbn [nextTS_loop]. destruct (Z.ltb_spec 0 (T iter)); [|done].
  pose proof (nextAvailBlock_fuel d a iter).
  destruct (nextAvailBlock d a iter) as [next| | |];
    cbn [mbind outcome_bind]; try done.
  destruct (0 <? T next); [done|]. cbn [T].
  destruct (Z.eqb_spec (NextTrack a (T iter)) 0); [done|].
  apply IH; [done| |]; cbn [T]; rewrite Hnt in *.
  - apply defaultNextTrack_byte.
  - unfold is_byte in Ht.
    pose proof (defaultNextTrack_rank (T iter) ltac:(lia) ltac:(done)). lia.
Qed.

(** X7: under the default track policy the loop of [nextTS] terminates:
    the 256 iterations that the model gives it are never used up. *)
Theorem nextTS_terminates d a ts :
  NextTrack a = defaultNextTrack -> is_byte (T ts) ->
  nextTS d a ts <> OutOfFuel.
Proof.
  intros Hnt Ht. unfold nextTS. apply nextTS_loop_fuel; [done..|].
  unfold track_rank, is_byte in *. repeat case_match; lia.
Qed.

Lemma nextTS_terminates_witness :
  nextTS init_bam_block (BAM_NewAllocator 0) (mkTS 19 0) <> OutOfFuel.
Proof.
  apply (nextTS_terminates init_bam_block (BAM_NewAllocator 0) (mkTS 19 0));
    [reflexivity | by vm_compute].
Defined.

(** Runs of the allocator *)
Lemma alloc_run_blocks n : forall d a l a' d',
  0 <= a_bam a -> a_bam a + 144 <= zlen d -> TS_bytes (a_TS a) ->
  (forall t, is_byte (NextTrack a t)) ->
  alloc_run n d a = Done (l, a', d') ->
  NoDup l
  /\ (forall ts, ts ∈ l ->
        ts = TS0
        \/ (TS_bytes ts /\ BAM_Avail d (a_bam a) ts = Done true
            /\ BAM_Avail d' (a_bam a) ts = Done false))
  /\ (forall ts, TS_bytes ts -> ts ∉ l ->
        BAM_Avail d' (a_bam a) ts = BAM_Avail d (a_bam a) ts).
Proof.
  induction n as [|n IH]; intros d a l a' d' Hbam Hlen Hb Hnt Hrun;
    cbn [alloc_run] in Hrun.
  { injection Hrun as <- <- <-. split; [constructor|]. split; [|done].
    intros ts Hin. by apply elem_of_nil in Hin. }
  destruct (Allocator_Alloc d a) as [[[ts1 a1] d1]| | |] eqn:Hstep; try done.
  cbn [mbind outcome_bind] in Hrun.
  destruct (alloc_run n d1 a1) as [[[l1 a2] d2]| | |] eqn:Hrest; try done.
  cbn [mbind outcome_bind] in Hrun. injection Hrun as <- <- <-.
  destruct (Allocator_Alloc_frame d a ts1 a1 d1 Hbam (proj1 (proj2 Hb)) Hstep)
    as (Hl1 & _ & _ & _ & Hbam1 & _ & Hnt1).
  destruct (Allocator_Alloc_cases d a ts1 a1 d1 Hbam Hlen Hb Hnt Hstep)
    as [Ha1 [(-> & -> & Hz)|(Hb1 & Hav1 & Halloc & Hnext)]].
  - (* the zero address: the allocator is exhausted, nothing follows *)
    destruct n as [|n]; cbn [alloc_run] in Hrest.
    + injection Hrest as <- <- <-. split; [apply NoDup_singleton|].
      split; [|done].
      intros ts Hin. apply list_elem_of_singleton in Hin. by left.
    + unfold Allocator_Alloc in Hrest. rewrite Hz in Hrest. done.
  - assert (TS_bytes (a_TS a1)) as Hb1'.
    { destruct Hnext as [->|[H _]]; [|done]. split; cbn; unfold is_byte; lia. }
    destruct (IH d1 a1 l1 a2 d2) as (Hnd & Hall & Hkeep); try done.
    { by rewrite Hbam1. } { rewrite Hbam1, Hl1. done. } { by rewrite Hnt1. }
    rewrite Hbam1 in Hall, Hkeep.
    destruct (BAM_Alloc_effect _ _ _ _ Hbam Hlen Hb1 Halloc)
      as (_ & _ & _ & _ & _ & _ & _ & _ & Hafter).
    assert (ts1 ∉ l1) as Hnotin.
    { intros Hin. destruct (Hall ts1 Hin) as [->|(_ & Hav & _)].
      - revert Hav1. unfold BAM_Avail, BAM_Entry. done.
      - congruence. }
    split; [by constructor|]. split.
    + intros ts Hin. apply elem_of_cons in Hin as [->|Hin].
      * right. split; [done|]. split; [done|]. by rewrite Hkeep.
      * destruct (Hall ts Hin) as [->|(Hbts & Hav & Hav')]; [by left|right].
        split; [done|]. split; [|done].
        rewrite <- Hav. symmetry.
        apply (BAM_Alloc_Avail_other d (a_bam a) ts1); try done.
        intros ->. done.
    + intros ts Hbts Hnin. apply not_elem_of_cons in Hnin as [Hne Hnin].
      rewrite Hkeep by done.
      by apply (BAM_Alloc_Avail_other d (a_bam a) ts1).
Qed.

(** X8: successive calls of [Allocator.Alloc] never return the same
    block twice; each block returned was available before the run and
    is allocated after it, and the availability of every block that was
    not returned is unchanged. *)
Theorem alloc_run_distinct n d a l a' d' :
  0 <= a_bam a -> a_bam a + 144 <= zlen d -> TS_bytes (a_TS a) ->
  (forall t, is_byte (NextTrack a t)) ->
  alloc_run n d a = Done (l, a', d') ->
  NoDup l
  /\ (forall ts, ts ∈ l -> ts <> TS0 ->
        BAM_Avail d (a_bam a) ts = Done true
        /\ BAM_Avail d' (a_bam a) ts = Done false)
  /\ (forall ts, TS_bytes ts -> ts ∉ l ->
        BAM_Avail d' (a_bam a) ts = BAM_Avail d (a_bam a) ts).
Proof.
  intros Hbam Hlen Hb Hnt Hrun.
  destruct (alloc_run_blocks n d a l a' d' Hbam Hlen Hb Hnt Hrun)
    as (Hnd & Hall & Hkeep).
  split; [done|]. split; [|done].
  intros ts Hin Hnz. by destruct (Hall ts Hin) as [->|(_ & H1 & H2)].
Qed.

Lemma alloc_run_distinct_witness :
  exists l a' d',
    alloc_run 3 init_bam_block (BAM_NewAllocator 0) = Done (l, a', d')
    /\ NoDup l
    /\ (forall ts, ts ∈ l -> ts <> TS0 ->
          BAM_Avail init_bam_block (a_bam (BAM_NewAllocator 0)) ts = Done true
          /\ BAM_Avail d' (a_bam (BAM_NewAllocator 0)) ts = Done false)
    /\ (forall ts, TS_bytes ts -> ts ∉ l ->
          BAM_Avail d' (a_bam (BAM_NewAllocator 0)) ts = BAM_Avail init_bam_block (a_bam (BAM_NewAllocator 0)) ts).
Proof.
  assert (is_Done (alloc_run 3 init_bam_block (BAM_NewAllocator 0)) = true)
    as Hd by (by vm_compute).
  destruct (is_Done_inv _ Hd) as [[[l a'] d'] Hrun]. exists l, a', d'.
  split; [exact Hrun|].
  assert (0 <= a_bam (BAM_NewAllocator 0)) as H1 by (cbn [a_bam BAM_NewAllocator]; lia).
  assert (a_bam (BAM_NewAllocator 0) + 144 <= zlen init_bam_block) as H2
    by (rewrite zlen_init_bam_block; cbn [a_bam BAM_NewAllocator]; lia).
  assert (TS_bytes (a_TS (BAM_NewAllocator 0))) as H3
    by (split; cbn [a_TS BAM_NewAllocator T Sec]; unfold is_byte, bamTrack; lia).
  exact (alloc_run_distinct 3 init_bam_block (BAM_NewAllocator 0) l a' d'
           H1 H2 H3 defaultNextTrack_byte Hrun).
Defined.

(** X9: a freshly initialised disk gives out 177 blocks, on tracks 19
    to 34 only: the sector scan misses blocks of every track and the
    track walk then reaches track 35, which has no BAM entry, so the
    178th call of [Allocator.Alloc] panics with [OutOfRange]. *)
Theorem fresh_disk_capacity name id :
  zlen (bytes_of_string name) <= 16 -> zlen (bytes_of_string id) = 2 ->
  exists d0,
    Img_Init Img_zero name id = Done d0
    /\ (exists l a d,
          alloc_run 177 d0 (BAM_NewAllocator 91392) = Done (l, a, d)
          /\ T <$> l = fresh_disk_tracks /\ a_TS a = mkTS 34 15)
    /\ alloc_run 178 d0 (BAM_NewAllocator 91392)
       = Panicked (PanicErr OutOfRange).
Proof.
  intros Hname Hid.
  destruct (Img_Init_zero name id Hname Hid)
    as (d0 & Hinit & Hl0 & _ & _ & _ & Hrel0 & _).
  exists d0. split; [exact Hinit|].
  set (a0 := BAM_NewAllocator 91392).
  pose proof (alloc_run_reloc 177 d0 init_bam_block a0 0) as Hr.
  pose proof (alloc_run_reloc 178 d0 init_bam_block a0 0) as Hr'.
  cbn [a_bam a0 BAM_NewAllocator a_TS Sec] in Hr, Hr'.
  specialize (Hr ltac:(lia) ltac:(lia) ltac:(lia)
                 ltac:(rewrite zlen_init_bam_block; lia) ltac:(lia) Hrel0).
  specialize (Hr' ltac:(lia) ltac:(lia) ltac:(lia)
                 ltac:(rewrite zlen_init_bam_block; lia) ltac:(lia) Hrel0).
  split.
  - assert (is_Done (alloc_run 177 init_bam_block (rebase 0 a0)) = true) as Hd
      by (by vm_compute).
    destruct (is_Done_inv _ Hd) as [[[l2 a2] d2] Hsmall].
    assert (match alloc_run 177 init_bam_block (rebase 0 a0) with
            | Done (l, a, d) =>
                T <$> l = fresh_disk_tracks
                /\ a_TS a = mkTS 34 15
            | _ => False
            end) as Hfacts by (vm_compute; repeat split; reflexivity).
    rewrite Hsmall in Hfacts. destruct Hfacts as (HT & HaT).
    destruct (outcome_rel_Done_r _ _ _ _ Hr Hsmall)
      as ([[l a] d] & -> & Hl & Ha & _).
    cbn [fst snd] in *. subst l2 a2. cbn [a_TS rebase] in HaT.
    exists l, a, d. repeat split; done.
  - apply (outcome_rel_Panicked_r _ _ _ _ Hr'). by vm_compute.
Qed.

Lemma fresh_disk_capacity_witness :
  exists d0,
    Img_Init Img_zero "TESTNAME" "12" = Done d0
    /\ (exists l a d,
          alloc_run 177 d0 (BAM_NewAllocator 91392) = Done (l, a, d)
          /\ T <$> l = fresh_disk_tracks /\ a_TS a = mkTS 34 15)
    /\ alloc_run 178 d0 (BAM_NewAllocator 91392)
       = Panicked (PanicErr OutOfRange).
Proof. apply (fresh_disk_capacity "TESTNAME" "12"); by vm_compute. Defined.
